(** * PM QoS constraint aggregation (kernel/power/qos.c)

    A shallow embedding of the PM QoS core: the per-class constraints
    objects, the priority-ordered request lists, the aggregation of the
    target value, the per-CPU targets, the notifier calls, the device
    flags set, and the request API with its misc-device front end.

    Requests live in kernel memory and are linked into a constraints list
    through the [plist_node] they embed, so the model keeps a store of
    requests indexed by address and every list holds addresses. *)

From Stdlib Require Import ZArith Lia Sorting.Sorted.
From stdpp Require Import base tactics option list functions sorting gmap.
From stdpp Require Import strings.

Local Open Scope Z_scope.

#[local] Set Warnings "-clear-no-such-hyp".

(** ** Machine integers *)

(** [s32] arithmetic: the kernel is built with wrapping signed overflow. *)
Definition wrap_s32 (z : Z) : Z := (z + 2 ^ 31) mod 2 ^ 32 - 2 ^ 31.

Definition in_s32 (z : Z) : Prop := - 2 ^ 31 <= z < 2 ^ 31.

(** ** Faults and the kernel monad *)

(** [BUG] is a reached [BUG()] statement, [OOPS] an invalid memory access
    (a NULL constraints or notifier pointer, an index outside an array). *)
Inductive fault := BUG | OOPS.

Inductive result (A : Type) : Type :=
| Ok (a : A)
| Fault (f : fault).
Arguments Ok {A} a.
Arguments Fault {A} f.

Definition result_bind {A B} (r : result A) (k : A -> result B) : result B :=
  match r with
  | Ok a => k a
  | Fault f => Fault f
  end.

Global Instance result_mbind : MBind result := fun A B k r => result_bind r k.

Fixpoint foldM {A B} (f : B -> A -> result B) (l : list A) (b : B) : result B :=
  match l with
  | [] => Ok b
  | a :: l' => result_bind (f b a) (foldM f l')
  end.

(** ** Data model (include/linux/pm_qos.h, as used by qos.c) *)

Abbreviation cpumask := Z (only parsing).
Abbreviation req_ptr := nat (only parsing).

Inductive pm_qos_type :=
| PM_QOS_UNITIALIZED
| PM_QOS_MAX
| PM_QOS_MIN
| PM_QOS_SUM
| PM_QOS_FORCE_MAX.

Global Instance pm_qos_type_eq_dec : EqDecision pm_qos_type.
Proof. solve_decision. Defined.

Inductive pm_qos_req_action :=
| PM_QOS_ADD_REQ
| PM_QOS_UPDATE_REQ
| PM_QOS_REMOVE_REQ.

Inductive pm_qos_req_type :=
| PM_QOS_REQ_ALL_CORES
| PM_QOS_REQ_AFFINE_CORES
| PM_QOS_REQ_AFFINE_IRQ
| PM_QOS_REQ_UNKNOWN.

(** [struct pm_qos_request]; [node_prio] is [node.prio], [work_pending]
    the pending bit of the delayed work, [irq_notify_armed] records that
    [irq_notify] was filled in with the two callbacks. *)
Record struct_pm_qos_request := {
  r_type : pm_qos_req_type;
  cpus_affine : cpumask;
  irq : Z;
  irq_notify_armed : bool;
  node_prio : Z;
  pm_qos_class : nat;
  work_pending : bool;
}.

(** [struct pm_qos_constraints]; [c_list] is the plist of request
    addresses, [notifiers] the (possibly NULL) notifier head. *)
Record pm_qos_constraints := {
  c_list : list req_ptr;
  target_value : Z;
  target_per_cpu : list Z;
  default_value : Z;
  no_constraint_value : Z;
  c_type : pm_qos_type;
  notifiers : option nat;
}.

(** [struct pm_qos_object]; [constraints] is NULL for [null_pm_qos]. *)
Record pm_qos_object := {
  constraints : option pm_qos_constraints;
  minor : Z;
}.

(** What [blocking_notifier_call_chain] was given: the chain, the value and
    the parameter, which is the address of the request's class field when
    the caller passed no parameter. *)
Inductive notify_arg :=
| ClassOf (req : req_ptr)
| Param (p : Z).

Record notifier_call := {
  nc_chain : nat;
  nc_value : Z;
  nc_param : notify_arg;
}.

Record kstate := {
  pm_qos_array : list pm_qos_object;
  mem : req_ptr -> struct_pm_qos_request;
  allocated : gset req_ptr;
  notifier_calls : list notifier_call;
}.

Definition M (A : Type) : Type := kstate -> result (A * kstate).

Definition kret {A} (a : A) : M A := fun st => Ok (a, st).

Definition kbind {A B} (m : M A) (k : A -> M B) : M B :=
  fun st => match m st with
            | Ok (a, st') => k a st'
            | Fault f => Fault f
            end.

Definition kfail {A} (f : fault) : M A := fun _ => Fault f.

Definition lift {A} (r : result A) : M A :=
  fun st => match r with
            | Ok a => Ok (a, st)
            | Fault f => Fault f
            end.

Global Instance M_ret : MRet M := @kret.
Global Instance M_bind : MBind M := fun A B k m => kbind m k.

(** ** Constants of the build that qos.c takes from other files *)

(** [NR_CPUS] is also the width of a CPU mask; [irq_affinity irq] stands
    for [irq_to_desc(irq)->irq_data.common->affinity];
    [irq_set_affinity_notifier irq b] is the return code of the call that
    registers ([b = true]) or clears ([b = false]) the notifier of [irq]. *)
Class kernel_env := {
  NR_CPUS : nat;
  cpu_possible_mask : cpumask;
  PM_QOS_DEFAULT_VALUE : Z;
  EPERM : Z;
  ENOMEM : Z;
  irq_can_set_affinity : Z -> bool;
  irq_affinity : Z -> cpumask;
  irq_set_affinity_notifier : Z -> bool -> Z;
}.

(** The class enumeration starts at 1: slot 0 of [pm_qos_array] is
    [null_pm_qos], and a request with class 0 is inactive. *)
Definition PM_QOS_CPU_DMA_LATENCY : nat := 1.

(** ** Priority lists (lib/plist.c) *)

Definition prio_of (m : req_ptr -> struct_pm_qos_request) (p : req_ptr) : Z :=
  node_prio (m p).

Definition plist_values (m : req_ptr -> struct_pm_qos_request) (l : list req_ptr) : list Z :=
  map (prio_of m) l.

(** Modelled from the spec: [plist_head_empty], [plist_first] and
    [plist_last] of include/linux/plist.h are missing; on the ordered
    constraint list they test for emptiness and give the first and the last
    node. *)
Definition plist_head_empty (l : list req_ptr) : bool :=
  match l with
  | [] => true
  | _ :: _ => false
  end.

Definition plist_first (l : list req_ptr) : req_ptr := List.hd 0%nat l.

Definition plist_last (l : list req_ptr) : req_ptr := List.last l 0%nat.

(** Modelled from the spec: [plist_del] of lib/plist.c is missing; it
    unlinks the node from the ordered constraint list. *)
Fixpoint plist_del (node : req_ptr) (l : list req_ptr) : list req_ptr :=
  match l with
  | [] => []
  | p :: l' => if decide (p = node) then l' else p :: plist_del node l'
  end.

(** Modelled from the spec: [plist_add] of lib/plist.c is missing; the
    constraint lists are ordered, so the node is linked in front of the
    first node of strictly greater priority, behind the nodes of its own
    priority. *)
Fixpoint plist_add (m : req_ptr -> struct_pm_qos_request) (node : req_ptr)
    (l : list req_ptr) : list req_ptr :=
  match l with
  | [] => [node]
  | iter :: l' =>
      if prio_of m node <? prio_of m iter then node :: l
      else iter :: plist_add m node l'
  end.

(** [plist_node_init]: the node's priority is set in the request itself. *)
Definition plist_node_init (r : struct_pm_qos_request) (prio : Z) : struct_pm_qos_request :=
  {| r_type := r_type r; cpus_affine := cpus_affine r; irq := irq r;
     irq_notify_armed := irq_notify_armed r; node_prio := prio;
     pm_qos_class := pm_qos_class r; work_pending := work_pending r |}.

Definition plist_sorted (m : req_ptr -> struct_pm_qos_request) (l : list req_ptr) : Prop :=
  StronglySorted Z.le (plist_values m l).

(** ** Field updates *)

Definition set_c_list (cs : pm_qos_constraints) (l : list req_ptr) : pm_qos_constraints :=
  {| c_list := l; target_value := target_value cs;
     target_per_cpu := target_per_cpu cs; default_value := default_value cs;
     no_constraint_value := no_constraint_value cs; c_type := c_type cs;
     notifiers := notifiers cs |}.

Definition set_target_per_cpu (cs : pm_qos_constraints) (t : list Z) : pm_qos_constraints :=
  {| c_list := c_list cs; target_value := target_value cs;
     target_per_cpu := t; default_value := default_value cs;
     no_constraint_value := no_constraint_value cs; c_type := c_type cs;
     notifiers := notifiers cs |}.

Definition set_cpus_affine (r : struct_pm_qos_request) (mask : cpumask) : struct_pm_qos_request :=
  {| r_type := r_type r; cpus_affine := mask; irq := irq r;
     irq_notify_armed := irq_notify_armed r; node_prio := node_prio r;
     pm_qos_class := pm_qos_class r; work_pending := work_pending r |}.

Definition set_r_type (r : struct_pm_qos_request) (t : pm_qos_req_type) : struct_pm_qos_request :=
  {| r_type := t; cpus_affine := cpus_affine r; irq := irq r;
     irq_notify_armed := irq_notify_armed r; node_prio := node_prio r;
     pm_qos_class := pm_qos_class r; work_pending := work_pending r |}.

Definition set_irq_notify_armed (r : struct_pm_qos_request) (b : bool) : struct_pm_qos_request :=
  {| r_type := r_type r; cpus_affine := cpus_affine r; irq := irq r;
     irq_notify_armed := b; node_prio := node_prio r;
     pm_qos_class := pm_qos_class r; work_pending := work_pending r |}.

Definition set_pm_qos_class (r : struct_pm_qos_request) (cls : nat) : struct_pm_qos_request :=
  {| r_type := r_type r; cpus_affine := cpus_affine r; irq := irq r;
     irq_notify_armed := irq_notify_armed r; node_prio := node_prio r;
     pm_qos_class := cls; work_pending := work_pending r |}.

Definition set_work_pending (r : struct_pm_qos_request) (b : bool) : struct_pm_qos_request :=
  {| r_type := r_type r; cpus_affine := cpus_affine r; irq := irq r;
     irq_notify_armed := irq_notify_armed r; node_prio := node_prio r;
     pm_qos_class := pm_qos_class r; work_pending := b |}.

(** A request as [kzalloc] and [memset(req, 0, ...)] leave it. *)
Definition zero_request : struct_pm_qos_request :=
  {| r_type := PM_QOS_REQ_ALL_CORES; cpus_affine := 0; irq := 0;
     irq_notify_armed := false; node_prio := 0; pm_qos_class := 0%nat;
     work_pending := false |}.

(** ** Access to the kernel state *)

Definition read_mem : M (req_ptr -> struct_pm_qos_request) :=
  fun st => Ok (mem st, st).

Definition write_mem (m : req_ptr -> struct_pm_qos_request) : M unit :=
  fun st => Ok (tt, {| pm_qos_array := pm_qos_array st; mem := m;
                       allocated := allocated st;
                       notifier_calls := notifier_calls st |}).

Definition read_req (p : req_ptr) : M struct_pm_qos_request :=
  fun st => Ok (mem st p, st).

Definition write_req (p : req_ptr) (r : struct_pm_qos_request) : M unit :=
  fun st => write_mem (<[p := r]> (mem st)) st.

(** [pm_qos_array[c]->constraints], dereferenced. *)
Definition read_constraints (c : nat) : M pm_qos_constraints :=
  fun st => match pm_qos_array st !! c with
            | Some {| constraints := Some cs |} => Ok (cs, st)
            | _ => Fault OOPS
            end.

Definition write_constraints (c : nat) (cs : pm_qos_constraints) : M unit :=
  fun st => match pm_qos_array st !! c with
            | Some o =>
                Ok (tt, {| pm_qos_array :=
                             <[c := {| constraints := Some cs; minor := minor o |}]>
                               (pm_qos_array st);
                           mem := mem st; allocated := allocated st;
                           notifier_calls := notifier_calls st |})
            | None => Fault OOPS
            end.

(** [blocking_notifier_call_chain]: the callbacks on the chain belong to
    the watchers; the call itself is recorded.  A NULL head is dereferenced. *)
Definition blocking_notifier_call_chain (nh : option nat) (val : Z)
    (v : notify_arg) : M unit :=
  fun st => match nh with
            | Some h =>
                Ok (tt, {| pm_qos_array := pm_qos_array st; mem := mem st;
                           allocated := allocated st;
                           notifier_calls :=
                             notifier_calls st ++
                             [{| nc_chain := h; nc_value := val; nc_param := v |}] |})
            | None => Fault OOPS
            end.

Section Qos.
Context `{kernel_env}.

(** ** CPU masks

    A mask is a bitmap; [for_each_cpu] visits its set bits below [NR_CPUS]
    in increasing order. *)

Definition cpumask_test_cpu (cpu : nat) (mask : cpumask) : bool :=
  Z.testbit mask (Z.of_nat cpu).

Definition for_each_cpu (mask : cpumask) : list nat :=
  List.filter (fun cpu => cpumask_test_cpu cpu mask) (seq 0 NR_CPUS).

Definition for_each_possible_cpu : list nat := for_each_cpu cpu_possible_mask.

Definition cpumask_setall : cpumask := Z.ones (Z.of_nat NR_CPUS).

Definition cpumask_empty (mask : cpumask) : bool :=
  match for_each_cpu mask with
  | [] => true
  | _ :: _ => false
  end.

(** ** Aggregation *)

(** [pm_qos_get_value]: the unlocked internal variant. *)
Definition pm_qos_get_value (m : req_ptr -> struct_pm_qos_request)
    (c : pm_qos_constraints) : result Z :=
  if plist_head_empty (c_list c) then Ok (no_constraint_value c)
  else
    match c_type c with
    | PM_QOS_MIN => Ok (prio_of m (plist_first (c_list c)))
    | PM_QOS_MAX | PM_QOS_FORCE_MAX => Ok (prio_of m (plist_last (c_list c)))
    | PM_QOS_SUM =>
        Ok (fold_left (fun total_value node => wrap_s32 (total_value + prio_of m node))
              (c_list c) 0)
    | PM_QOS_UNITIALIZED => Fault BUG
    end.

Definition pm_qos_read_value (c : pm_qos_constraints) : Z := target_value c.

Definition pm_qos_set_value (c : pm_qos_constraints) (value : Z) : pm_qos_constraints :=
  {| c_list := c_list c; target_value := value;
     target_per_cpu := target_per_cpu c; default_value := default_value c;
     no_constraint_value := no_constraint_value c; c_type := c_type c;
     notifiers := notifiers c |}.

(** The body of the two nested loops of [pm_qos_set_value_for_cpus]: one
    request priority met on one CPU. *)
Definition qos_val_step (t : pm_qos_type) (prio : Z) (qos_val : list Z)
    (cpu : nat) : result (list Z) :=
  match t with
  | PM_QOS_MIN =>
      Ok (if qos_val !!! cpu >? prio then <[cpu := prio]> qos_val else qos_val)
  | PM_QOS_MAX =>
      Ok (if prio >? qos_val !!! cpu then <[cpu := prio]> qos_val else qos_val)
  | PM_QOS_FORCE_MAX => Ok (<[cpu := prio]> qos_val)
  | _ => Fault BUG
  end.

Definition qos_val_of (m : req_ptr -> struct_pm_qos_request) (c : pm_qos_constraints)
    : result (list Z) :=
  foldM (fun qos_val req =>
           foldM (qos_val_step (c_type c) (prio_of m req))
                 (for_each_cpu (cpus_affine (m req))) qos_val)
        (c_list c) (replicate NR_CPUS (default_value c)).

Definition pm_qos_set_value_for_cpus (m : req_ptr -> struct_pm_qos_request)
    (c : pm_qos_constraints) : result pm_qos_constraints :=
  qos_val ← qos_val_of m c;
  Ok (set_target_per_cpu c
        (fold_left (fun t cpu => <[cpu := qos_val !!! cpu]> t)
           for_each_possible_cpu (target_per_cpu c))).

(** ** pm_qos_update_target *)

(** The [switch (action)]: what becomes of the list and of the request. *)
Definition pm_qos_update_list (m : req_ptr -> struct_pm_qos_request)
    (l : list req_ptr) (req : req_ptr) (action : pm_qos_req_action)
    (new_value : Z) : (req_ptr -> struct_pm_qos_request) * list req_ptr :=
  match action with
  | PM_QOS_REMOVE_REQ => (m, plist_del req l)
  | PM_QOS_UPDATE_REQ =>
      let l := plist_del req l in
      let m := <[req := plist_node_init (m req) new_value]> m in
      (m, plist_add m req l)
  | PM_QOS_ADD_REQ =>
      let m := <[req := plist_node_init (m req) new_value]> m in
      (m, plist_add m req l)
  end.

(** The part of [pm_qos_update_target] that runs under [pm_qos_lock]; it
    yields the previous and the current value with the updated memory and
    constraints. *)
Definition pm_qos_update_target_locked (m : req_ptr -> struct_pm_qos_request)
    (c : pm_qos_constraints) (req : req_ptr) (action : pm_qos_req_action)
    (value : Z)
    : result (Z * Z * (req_ptr -> struct_pm_qos_request) * pm_qos_constraints) :=
  prev_value ← pm_qos_get_value m c;
  let new_value :=
    if decide (value = PM_QOS_DEFAULT_VALUE) then default_value c else value in
  let '(m, l) := pm_qos_update_list m (c_list c) req action new_value in
  let c := set_c_list c l in
  curr_value ← pm_qos_get_value m c;
  let c := pm_qos_set_value c curr_value in
  c ← pm_qos_set_value_for_cpus m c;
  Ok (prev_value, curr_value, m, c).

Definition pm_qos_update_target (c : nat) (req : req_ptr)
    (action : pm_qos_req_action) (value : Z) (notify_param : option Z) : M Z :=
  cs ← read_constraints c;
  m ← read_mem;
  '(prev_value, curr_value, m, cs) ←
    lift (pm_qos_update_target_locked m cs req action value);
  write_mem m;;
  write_constraints c cs;;
  let notify_param :=
    match notify_param with
    | None => ClassOf req
    | Some p => Param p
    end in
  if decide (c_type cs = PM_QOS_FORCE_MAX) then
    blocking_notifier_call_chain (notifiers cs) curr_value notify_param;;
    kret 1
  else if decide (prev_value ≠ curr_value) then
    match notifiers cs with
    | Some _ => blocking_notifier_call_chain (notifiers cs) curr_value notify_param
    | None => kret tt
    end;;
    kret 1
  else kret 0.

(** ** Reading the targets *)

Definition pm_qos_request (pm_qos_class : nat) : M Z :=
  cs ← read_constraints pm_qos_class;
  kret (pm_qos_read_value cs).

Definition pm_qos_request_for_cpu (pm_qos_class : nat) (cpu : nat) : M Z :=
  cs ← read_constraints pm_qos_class;
  match target_per_cpu cs !! cpu with
  | Some v => kret v
  | None => kfail OOPS
  end.

Definition pm_qos_request_active (r : struct_pm_qos_request) : bool :=
  bool_decide (pm_qos_class r ≠ 0%nat).

(** ** Request API *)

Definition __pm_qos_update_request (req : req_ptr) (new_value : Z)
    (notify_param : option Z) : M unit :=
  r ← read_req req;
  if decide (new_value ≠ node_prio r) then
    pm_qos_update_target (pm_qos_class r) req PM_QOS_UPDATE_REQ new_value
      notify_param;;
    kret tt
  else kret tt.

Definition pm_qos_work_fn (req : req_ptr) : M unit :=
  __pm_qos_update_request req PM_QOS_DEFAULT_VALUE None.

Definition pm_qos_irq_release (req : req_ptr) : M unit :=
  r ← read_req req;
  let c := pm_qos_class r in
  write_req req (set_cpus_affine r cpumask_setall);;
  cs ← read_constraints c;
  pm_qos_update_target c req PM_QOS_UPDATE_REQ (default_value cs) None;;
  kret tt.

Definition pm_qos_irq_notify (req : req_ptr) (mask : cpumask) : M unit :=
  r ← read_req req;
  let c := pm_qos_class r in
  write_req req (set_cpus_affine r mask);;
  r ← read_req req;
  pm_qos_update_target c req PM_QOS_UPDATE_REQ (node_prio r) None;;
  kret tt.

Definition cancel_delayed_work_sync (req : req_ptr) : M unit :=
  r ← read_req req;
  write_req req (set_work_pending r false).

(** The [switch (req->type)] of [pm_qos_add_request_trace]. *)
Definition pm_qos_add_request_affinity (req : req_ptr) : M unit :=
  r ← read_req req;
  match r_type r with
  | PM_QOS_REQ_AFFINE_CORES =>
      if cpumask_empty (cpus_affine r) then
        write_req req
          (set_cpus_affine (set_r_type r PM_QOS_REQ_ALL_CORES) cpumask_setall)
      else kret tt
  | PM_QOS_REQ_AFFINE_IRQ =>
      if irq_can_set_affinity (irq r) then
        let r := set_irq_notify_armed
                   (set_cpus_affine r (irq_affinity (irq r))) true in
        write_req req r;;
        if decide (irq_set_affinity_notifier (irq r) true ≠ 0) then
          write_req req
            (set_cpus_affine (set_r_type r PM_QOS_REQ_ALL_CORES) cpumask_setall)
        else kret tt
      else
        write_req req
          (set_cpus_affine (set_r_type r PM_QOS_REQ_ALL_CORES) cpumask_setall)
  | PM_QOS_REQ_UNKNOWN | PM_QOS_REQ_ALL_CORES =>
      write_req req (set_cpus_affine r cpumask_setall)
  end.

Definition pm_qos_add_request_trace (req : option req_ptr) (pm_qos_class : nat)
    (value : Z) : M unit :=
  match req with
  | None => kret tt
  | Some req =>
      r ← read_req req;
      if pm_qos_request_active r then kret tt
      else
        pm_qos_add_request_affinity req;;
        r ← read_req req;
        write_req req (set_work_pending (set_pm_qos_class r pm_qos_class) false);;
        pm_qos_update_target pm_qos_class req PM_QOS_ADD_REQ value None;;
        kret tt
  end.

Definition pm_qos_add_request := pm_qos_add_request_trace.

Definition pm_qos_update_request (req : option req_ptr) (new_value : Z) : M unit :=
  match req with
  | None => kret tt
  | Some req =>
      r ← read_req req;
      if negb (pm_qos_request_active r) then kret tt
      else
        (if work_pending r then cancel_delayed_work_sync req else kret tt);;
        __pm_qos_update_request req new_value None
  end.

Definition pm_qos_remove_request (req : option req_ptr) : M unit :=
  match req with
  | None => kret tt
  | Some req =>
      r ← read_req req;
      if negb (pm_qos_request_active r) then kret tt
      else
        (if work_pending r then cancel_delayed_work_sync req else kret tt);;
        r ← read_req req;
        let _ := match r_type r with
                 | PM_QOS_REQ_AFFINE_IRQ => irq_set_affinity_notifier (irq r) false
                 | _ => 0
                 end in
        pm_qos_update_target (pm_qos_class r) req PM_QOS_REMOVE_REQ
          PM_QOS_DEFAULT_VALUE None;;
        write_req req zero_request
  end.

(** ** The misc-device files *)

Record file := { private_data : option req_ptr }.

(** [kzalloc]: the allocator's answer is an input; a block it hands out is
    zeroed. [kfree] gives the block back; [kfree(NULL)] does nothing. *)
Definition kzalloc (answer : option req_ptr) : M (option req_ptr) :=
  fun st => match answer with
            | Some p =>
                Ok (Some p, {| pm_qos_array := pm_qos_array st;
                               mem := <[p := zero_request]> (mem st);
                               allocated := {[p]} ∪ allocated st;
                               notifier_calls := notifier_calls st |})
            | None => Ok (None, st)
            end.

Definition kfree (p : option req_ptr) : M unit :=
  fun st => match p with
            | Some p =>
                Ok (tt, {| pm_qos_array := pm_qos_array st; mem := mem st;
                           allocated := allocated st ∖ {[p]};
                           notifier_calls := notifier_calls st |})
            | None => Ok (tt, st)
            end.

Fixpoint find_minor_from (objs : list pm_qos_object) (pm_qos_class : nat)
    (mn : Z) : Z :=
  match objs with
  | [] => -1
  | o :: objs' =>
      if decide (mn = minor o) then Z.of_nat pm_qos_class
      else find_minor_from objs' (S pm_qos_class) mn
  end.

Definition find_pm_qos_object_by_minor (mn : Z) : M Z :=
  fun st => Ok (find_minor_from (drop PM_QOS_CPU_DMA_LATENCY (pm_qos_array st))
                  PM_QOS_CPU_DMA_LATENCY mn, st).

Definition pm_qos_power_open (iminor : Z) (kzalloc_answer : option req_ptr)
    (filp : file) : M (Z * file) :=
  pm_qos_class ← find_pm_qos_object_by_minor iminor;
  if decide (Z.of_nat PM_QOS_CPU_DMA_LATENCY <= pm_qos_class) then
    req ← kzalloc kzalloc_answer;
    match req with
    | None => kret (- ENOMEM, filp)
    | Some _ =>
        pm_qos_add_request req (Z.to_nat pm_qos_class) PM_QOS_DEFAULT_VALUE;;
        kret (0, {| private_data := req |})
    end
  else kret (- EPERM, filp).

Definition pm_qos_power_release (filp : file) : M Z :=
  let req := private_data filp in
  pm_qos_remove_request req;;
  kfree req;;
  kret 0.

End Qos.

(** ** Device PM QoS flags *)

Record pm_qos_flags_request := { flags : Z }.

Record pm_qos_flags := {
  f_list : list nat;
  effective_flags : Z;
}.

(** Modelled from the spec: [list_del], [list_add_tail] and [list_empty]
    of include/linux/list.h are missing; they unlink a node, link a node in
    front of the head, that is at the end of the list, and test for
    emptiness. *)
Definition list_del (node : nat) (l : list nat) : list nat := plist_del node l.

Definition list_add_tail (node : nat) (l : list nat) : list nat := l ++ [node].

Definition list_empty (l : list nat) : bool :=
  match l with
  | [] => true
  | _ :: _ => false
  end.

Definition pm_qos_flags_remove_req (fm : nat -> pm_qos_flags_request)
    (pqf : pm_qos_flags) (req : nat) : pm_qos_flags :=
  let l := list_del req (f_list pqf) in
  let val := fold_left (fun val r => Z.lor val (flags (fm r))) l 0 in
  {| f_list := l; effective_flags := val |}.

(** The shared tail of the update and add cases of [pm_qos_update_flags]. *)
Definition pm_qos_flags_add_req (fm : nat -> pm_qos_flags_request)
    (pqf : pm_qos_flags) (req : nat) (val : Z)
    : (nat -> pm_qos_flags_request) * pm_qos_flags :=
  (<[req := {| flags := val |}]> fm,
   {| f_list := list_add_tail req (f_list pqf);
      effective_flags := Z.lor (effective_flags pqf) val |}).

Definition pm_qos_update_flags (fm : nat -> pm_qos_flags_request)
    (pqf : pm_qos_flags) (req : nat) (action : pm_qos_req_action) (val : Z)
    : bool * ((nat -> pm_qos_flags_request) * pm_qos_flags) :=
  let prev_value := if list_empty (f_list pqf) then 0 else effective_flags pqf in
  let '(fm, pqf) :=
    match action with
    | PM_QOS_REMOVE_REQ => (fm, pm_qos_flags_remove_req fm pqf req)
    | PM_QOS_UPDATE_REQ =>
        pm_qos_flags_add_req fm (pm_qos_flags_remove_req fm pqf req) req val
    | PM_QOS_ADD_REQ => pm_qos_flags_add_req fm pqf req val
    end in
  let curr_value := if list_empty (f_list pqf) then 0 else effective_flags pqf in
  (bool_decide (prev_value ≠ curr_value), (fm, pqf)).

(** ** The static class table

    [pm_qos_array] as the initialisers of qos.c build it without
    CONFIG_ARM_EXYNOS_DEVFREQ_DEBUG.  [dv cls] stands for the class's
    [*_DEFAULT_VALUE] constant; fields an initialiser leaves out are zero.
    The notifier head of class [cls] is numbered [cls]. *)

Section Boot.
Context `{kernel_env}.
Variable dv : nat -> Z.

(** An initialiser that sets [target_per_cpu] and [no_constraint_value]. *)
Definition constraints_full (cls : nat) (t : pm_qos_type) : pm_qos_constraints :=
  {| c_list := []; target_value := dv cls;
     target_per_cpu := replicate NR_CPUS (dv cls);
     default_value := dv cls; no_constraint_value := dv cls;
     c_type := t; notifiers := Some cls |}.

(** An initialiser that sets [target_per_cpu] only. *)
Definition constraints_per_cpu (cls : nat) (t : pm_qos_type) : pm_qos_constraints :=
  {| c_list := []; target_value := dv cls;
     target_per_cpu := replicate NR_CPUS (dv cls);
     default_value := dv cls; no_constraint_value := 0;
     c_type := t; notifiers := Some cls |}.

(** An initialiser that sets [no_constraint_value] only. *)
Definition constraints_no_constraint (cls : nat) (t : pm_qos_type) : pm_qos_constraints :=
  {| c_list := []; target_value := dv cls;
     target_per_cpu := replicate NR_CPUS 0;
     default_value := dv cls; no_constraint_value := dv cls;
     c_type := t; notifiers := Some cls |}.

(** An initialiser that sets neither. *)
Definition constraints_plain (cls : nat) (t : pm_qos_type) : pm_qos_constraints :=
  {| c_list := []; target_value := dv cls;
     target_per_cpu := replicate NR_CPUS 0;
     default_value := dv cls; no_constraint_value := 0;
     c_type := t; notifiers := Some cls |}.

Definition object_of (cs : pm_qos_constraints) : pm_qos_object :=
  {| constraints := Some cs; minor := 0 |}.

Definition null_pm_qos : pm_qos_object := {| constraints := None; minor := 0 |}.

Definition pm_qos_array_init : list pm_qos_object :=
  [ null_pm_qos;
    object_of (constraints_full 1 PM_QOS_MIN);            (* cpu_dma_latency *)
    object_of (constraints_full 2 PM_QOS_MIN);            (* network_latency *)
    object_of (constraints_plain 3 PM_QOS_MAX);           (* cluster0_freq_min *)
    object_of (constraints_plain 4 PM_QOS_MIN);           (* cluster0_freq_max *)
    object_of (constraints_plain 5 PM_QOS_MAX);           (* cluster1_freq_min *)
    object_of (constraints_plain 6 PM_QOS_MIN);           (* cluster1_freq_max *)
    object_of (constraints_per_cpu 7 PM_QOS_FORCE_MAX);   (* device_throughput *)
    object_of (constraints_per_cpu 8 PM_QOS_FORCE_MAX);   (* intcam_throughput *)
    object_of (constraints_per_cpu 9 PM_QOS_MAX);         (* bus_throughput *)
    object_of (constraints_per_cpu 10 PM_QOS_MIN);        (* bus_throughput_max *)
    object_of (constraints_full 11 PM_QOS_MAX);           (* network_throughput *)
    object_of (constraints_no_constraint 12 PM_QOS_SUM);  (* memory_bandwidth *)
    object_of (constraints_plain 13 PM_QOS_MAX);          (* cpu_online_min *)
    object_of (constraints_plain 14 PM_QOS_MIN);          (* cpu_online_max *)
    object_of (constraints_plain 15 PM_QOS_MAX);          (* display_throughput *)
    object_of (constraints_plain 16 PM_QOS_MAX) ].        (* cam_throughput *)

(** [register_pm_qos_misc], run over the table by [pm_qos_power_init]:
    [misc_register] hands out the minors, here [minor_of cls]. *)
Definition register_pm_qos_misc (minor_of : nat -> Z) (cls : nat)
    (qos : pm_qos_object) : pm_qos_object :=
  match cls with
  | O => qos
  | S _ => {| constraints := constraints qos; minor := minor_of cls |}
  end.

Definition boot_state (minor_of : nat -> Z) : kstate :=
  {| pm_qos_array := imap (register_pm_qos_misc minor_of) pm_qos_array_init;
     mem := fun _ => zero_request;
     allocated := ∅;
     notifier_calls := [] |}.

End Boot.

(** ** Notions the statements are phrased in *)

Definition Zsum (l : list Z) : Z := fold_right Z.add 0 l.

Definition is_minimum (v : Z) (l : list Z) : Prop :=
  v ∈ l ∧ ∀ x, x ∈ l → v <= x.

Definition is_maximum (v : Z) (l : list Z) : Prop :=
  v ∈ l ∧ ∀ x, x ∈ l → x <= v.

(** The constraints object of a class, when the class has one. *)
Definition constraints_at (st : kstate) (c : nat) : option pm_qos_constraints :=
  o ← pm_qos_array st !! c; constraints o.

(** The values of a constraints list, in list order. *)
Definition request_values (st : kstate) (cs : pm_qos_constraints) : list Z :=
  plist_values (mem st) (c_list cs).

(** The effective value of a flags set: 0 when the set is empty. *)
Definition flags_value (pqf : pm_qos_flags) : Z :=
  if list_empty (f_list pqf) then 0 else effective_flags pqf.

Definition flags_or (fm : nat -> pm_qos_flags_request) (l : list nat) : Z :=
  fold_right (fun r acc => Z.lor (flags (fm r)) acc) 0 l.

Definition flags_inv (fm : nat -> pm_qos_flags_request) (pqf : pm_qos_flags) : Prop :=
  effective_flags pqf = flags_or fm (f_list pqf).

Section Notions.
Context `{kernel_env}.

(** The requests of a list whose affinity mask contains [cpu]. *)
Definition covering (m : req_ptr -> struct_pm_qos_request) (l : list req_ptr)
    (cpu : nat) : list req_ptr :=
  List.filter (fun req => cpumask_test_cpu cpu (cpus_affine (m req))) l.

(** What one request of priority [prio] makes of a per-CPU value. *)
Definition cpu_op (t : pm_qos_type) (acc prio : Z) : Z :=
  match t with
  | PM_QOS_MIN => Z.min acc prio
  | PM_QOS_MAX => Z.max acc prio
  | _ => prio
  end.

(** The types [pm_qos_set_value_for_cpus] has a case for. *)
Definition per_cpu_type (t : pm_qos_type) : Prop :=
  t = PM_QOS_MIN ∨ t = PM_QOS_MAX ∨ t = PM_QOS_FORCE_MAX.

(** The aggregate of a list of values for a constraint type, started from
    an initial value. *)
Definition aggregate_from (t : pm_qos_type) (init : Z) (vals : list Z) : Z :=
  match t with
  | PM_QOS_MIN => fold_left Z.min vals init
  | PM_QOS_MAX => fold_left Z.max vals init
  | _ => List.last vals init
  end.

Definition per_cpu_aggregate (m : req_ptr -> struct_pm_qos_request)
    (c : pm_qos_constraints) (cpu : nat) : Z :=
  aggregate_from (c_type c) (default_value c)
    (plist_values m (covering m (c_list c) cpu)).

(** The call [pm_qos_update_target] makes on a chain, if it makes one. *)
Definition notifier_call_of (cs : pm_qos_constraints) (curr_value : Z)
    (req : req_ptr) (notify_param : option Z) : list notifier_call :=
  match notifiers cs with
  | Some h =>
      [{| nc_chain := h; nc_value := curr_value;
          nc_param := match notify_param with
                      | None => ClassOf req
                      | Some p => Param p
                      end |}]
  | None => []
  end.

(** The value a request is given: the class default stands in for
    [PM_QOS_DEFAULT_VALUE]. *)
Definition new_value_of (cs : pm_qos_constraints) (value : Z) : Z :=
  if decide (value = PM_QOS_DEFAULT_VALUE) then default_value cs else value.

(** The state [pm_qos_update_target] leaves: the class's object replaced,
    the memory as the locked part left it, the notifier log as given. *)
Definition after_update (st : kstate) (c : nat) (o : pm_qos_object)
    (cs' : pm_qos_constraints) (m' : req_ptr -> struct_pm_qos_request)
    (calls : list notifier_call) : kstate :=
  {| pm_qos_array :=
       <[c := {| constraints := Some cs'; minor := minor o |}]> (pm_qos_array st);
     mem := m'; allocated := allocated st; notifier_calls := calls |}.

(** The aggregate the specification names for a type: the value without
    constraints for an empty list, else the minimum, the maximum, or the
    sum in [s32] arithmetic. *)
Definition aggregate_spec (t : pm_qos_type) (no_constraint : Z)
    (vals : list Z) (v : Z) : Prop :=
  match vals with
  | [] => v = no_constraint
  | _ :: _ =>
      match t with
      | PM_QOS_MIN => is_minimum v vals
      | PM_QOS_MAX | PM_QOS_FORCE_MAX => is_maximum v vals
      | PM_QOS_SUM => v = wrap_s32 (Zsum vals)
      | PM_QOS_UNITIALIZED => False
      end
  end.

(** A constraints list as the plist code keeps it: ordered, no node twice. *)
Definition plist_wf (m : req_ptr -> struct_pm_qos_request) (l : list req_ptr) : Prop :=
  plist_sorted m l ∧ NoDup l.

End Notions.

(** ** Further entry points of qos.c *)

(** More error numbers of the build. *)
Class kernel_errno := {
  EINVAL : Z;
  ENODATA : Z;
  EFAULT : Z;
}.

Definition set_default_value (cs : pm_qos_constraints) (v : Z) : pm_qos_constraints :=
  {| c_list := c_list cs; target_value := target_value cs;
     target_per_cpu := target_per_cpu cs; default_value := v;
     no_constraint_value := no_constraint_value cs; c_type := c_type cs;
     notifiers := notifiers cs |}.

Definition set_c_type (cs : pm_qos_constraints) (t : pm_qos_type) : pm_qos_constraints :=
  {| c_list := c_list cs; target_value := target_value cs;
     target_per_cpu := target_per_cpu cs; default_value := default_value cs;
     no_constraint_value := no_constraint_value cs; c_type := t;
     notifiers := notifiers cs |}.

Definition set_notifiers (cs : pm_qos_constraints) (nh : option nat) : pm_qos_constraints :=
  {| c_list := c_list cs; target_value := target_value cs;
     target_per_cpu := target_per_cpu cs; default_value := default_value cs;
     no_constraint_value := no_constraint_value cs; c_type := c_type cs;
     notifiers := nh |}.

(** What [seq_puts] and [seq_printf] are given by
    [pm_qos_dbg_show_requests]: the text of the empty case, one line per
    request (its number, value and state; [func] and [line] are those of
    the request named), and the closing line. *)
Inductive seq_call :=
| SeqPuts (text : string)
| SeqRequestLine (tot_reqs : Z) (prio : Z) (state : string) (req : req_ptr)
| SeqSummaryLine (type : string) (value : Z) (active_reqs tot_reqs : Z).

Section MoreQos.
Context `{kernel_env} `{kernel_errno}.

(** The four conditional assignments of [pm_qos_update_constraints]: a
    zero field of the new attributes leaves the old one. *)
Definition update_constraints_fields (r_constraints constraints : pm_qos_constraints)
    : pm_qos_constraints :=
  let r := if decide (target_value constraints ≠ 0)
           then pm_qos_set_value r_constraints (target_value constraints)
           else r_constraints in
  let r := if decide (default_value constraints ≠ 0)
           then set_default_value r (default_value constraints) else r in
  let r := if decide (c_type constraints ≠ PM_QOS_UNITIALIZED)
           then set_c_type r (c_type constraints) else r in
  match notifiers constraints with
  | Some nh => set_notifiers r (Some nh)
  | None => r
  end.

(** Whether one of the four assignments is made, that is, whether
    [r_constraints] is dereferenced. *)
Definition update_constraints_assigns (constraints : pm_qos_constraints) : bool :=
  bool_decide (target_value constraints ≠ 0) ||
  bool_decide (default_value constraints ≠ 0) ||
  bool_decide (c_type constraints ≠ PM_QOS_UNITIALIZED) ||
  bool_decide (notifiers constraints ≠ None).

(** The body of the loop of [pm_qos_update_constraints] for the class [i]
    that was asked for. *)
Definition pm_qos_update_constraints_at (i : nat) (constraints : pm_qos_constraints)
    : M Z :=
  fun st =>
    match pm_qos_array st !! i with
    | Some {| constraints := Some r_constraints |} =>
        (write_constraints i (update_constraints_fields r_constraints constraints);;
         kret 0) st
    | Some {| constraints := None |} =>
        if update_constraints_assigns constraints then Fault OOPS else Ok (0, st)
    | None => Fault OOPS
    end.

(** The [for] loop of [pm_qos_update_constraints] over the classes [i]. *)
Fixpoint pm_qos_update_constraints_from (classes : list nat) (pm_qos_class : Z)
    (constraints : pm_qos_constraints) : M Z :=
  match classes with
  | [] => kret (- EINVAL)
  | i :: classes' =>
      if decide (Z.of_nat i ≠ pm_qos_class)
      then pm_qos_update_constraints_from classes' pm_qos_class constraints
      else pm_qos_update_constraints_at i constraints
  end.

Definition pm_qos_update_constraints (pm_qos_class : Z)
    (constraints : option pm_qos_constraints) : M Z :=
  match constraints with
  | None => kret (- EINVAL)
  | Some constraints =>
      fun st =>
        pm_qos_update_constraints_from
          (seq 1 (length (pm_qos_array st) - 1)) pm_qos_class constraints st
  end.

(** The [plist_for_each] of [pm_qos_read_req_value]. *)
Fixpoint read_req_value_from (m : req_ptr -> struct_pm_qos_request)
    (l : list req_ptr) (req : req_ptr) : Z :=
  match l with
  | [] => - ENODATA
  | p :: l' => if decide (req = p) then prio_of m p else read_req_value_from m l' req
  end.

Definition pm_qos_read_req_value (pm_qos_class : nat) (req : req_ptr) : M Z :=
  cs ← read_constraints pm_qos_class;
  m ← read_mem;
  kret (read_req_value_from m (c_list cs) req).

(** The body of the loop of [pm_qos_request_for_cpumask]. *)
Definition cpumask_val_step (c : pm_qos_constraints) (val : Z) (cpu : nat) : result Z :=
  match c_type c with
  | PM_QOS_MIN =>
      match target_per_cpu c !! cpu with
      | Some t => Ok (if t <? val then t else val)
      | None => Fault OOPS
      end
  | PM_QOS_MAX =>
      match target_per_cpu c !! cpu with
      | Some t => Ok (if t >? val then t else val)
      | None => Fault OOPS
      end
  | PM_QOS_FORCE_MAX =>
      match target_per_cpu c !! cpu with
      | Some t => Ok t
      | None => Fault OOPS
      end
  | _ => Fault BUG
  end.

Definition pm_qos_request_for_cpumask (pm_qos_class : nat) (mask : cpumask) : M Z :=
  c ← read_constraints pm_qos_class;
  lift (foldM (cpumask_val_step c) (for_each_cpu mask) (default_value c)).

Definition pm_qos_update_request_param (req : option req_ptr) (new_value : Z)
    (notify_param : option Z) : M unit :=
  match req with
  | None => kret tt
  | Some req =>
      r ← read_req req;
      if negb (pm_qos_request_active r) then kret tt
      else
        (if work_pending r then cancel_delayed_work_sync req else kret tt);;
        __pm_qos_update_request req new_value notify_param
  end.

(** [queue_delayed_work]: the work of the request becomes pending. *)
Definition queue_delayed_work (req : req_ptr) (delay : Z) : M unit :=
  r ← read_req req;
  write_req req (set_work_pending r true).

Definition pm_qos_update_request_timeout (req : option req_ptr) (new_value : Z)
    (timeout_us : Z) : M unit :=
  match req with
  | None => kret tt
  | Some req =>
      r ← read_req req;
      if negb (pm_qos_request_active r) then kret tt
      else
        (if work_pending r then cancel_delayed_work_sync req else kret tt);;
        r ← read_req req;
        (if decide (new_value ≠ node_prio r) then
           pm_qos_update_target (pm_qos_class r) req PM_QOS_UPDATE_REQ new_value None;;
           kret tt
         else kret tt);;
        queue_delayed_work req timeout_us
  end.

(** The text of its empty case: the word and a line feed. *)
Definition dbg_empty_text : string :=
  String.append "Empty!" (String (Ascii.ascii_of_nat 10) EmptyString).

(** The [switch (c->type)] of [pm_qos_dbg_show_requests]. *)
Definition dbg_type_name (t : pm_qos_type) : string :=
  match t with
  | PM_QOS_MIN => "Minimum"
  | PM_QOS_MAX => "Maximum"
  | PM_QOS_SUM => "Sum"
  | _ => "Unknown"
  end.

(** One turn of its [plist_for_each_entry]: the two [int] counters and
    the output. *)
Definition dbg_show_step (m : req_ptr -> struct_pm_qos_request) (c : pm_qos_constraints)
    (acc : Z * Z * list seq_call) (req : req_ptr) : Z * Z * list seq_call :=
  let '(tot_reqs, active_reqs, out) := acc in
  let active := bool_decide (prio_of m req ≠ default_value c) in
  let active_reqs := if active then wrap_s32 (active_reqs + 1) else active_reqs in
  let state := if active then "Active" else "Default" in
  let tot_reqs := wrap_s32 (tot_reqs + 1) in
  (tot_reqs, active_reqs, out ++ [SeqRequestLine tot_reqs (prio_of m req) state req]).

(** The line [pm_qos_dbg_show_requests] prints for the request at position
    [i] of the list, and the number of requests off the default value. *)
Definition dbg_request_line (m : req_ptr -> struct_pm_qos_request)
    (c : pm_qos_constraints) (i : nat) (req : req_ptr) : seq_call :=
  SeqRequestLine (Z.of_nat (S i)) (prio_of m req)
    (if bool_decide (prio_of m req ≠ default_value c) then "Active" else "Default")
    req.

Definition dbg_active_reqs (m : req_ptr -> struct_pm_qos_request)
    (c : pm_qos_constraints) (l : list req_ptr) : nat :=
  length (List.filter (λ req, bool_decide (prio_of m req ≠ default_value c)) l).

(** [pm_qos_dbg_show_requests]; [qos] is the class whose object the
    debugfs file was created for, or NULL. *)
Definition pm_qos_dbg_show_requests (qos : option nat) : M (Z * list seq_call) :=
  match qos with
  | None => kret (- EINVAL, [])
  | Some qos =>
      fun st =>
        match pm_qos_array st !! qos with
        | None => Fault OOPS
        | Some {| constraints := None |} => Ok ((- EINVAL, []), st)
        | Some {| constraints := Some c |} =>
            if plist_head_empty (c_list c) then Ok ((0, [SeqPuts dbg_empty_text]), st)
            else
              let type := dbg_type_name (c_type c) in
              let '(tot_reqs, active_reqs, out) :=
                fold_left (dbg_show_step (mem st) c) (c_list c) (0, 0, []) in
              match pm_qos_get_value (mem st) c with
              | Ok value =>
                  Ok ((0, out ++ [SeqSummaryLine type value active_reqs tot_reqs]), st)
              | Fault f => Fault f
              end
        end
  end.

(** [pm_qos_power_read]: an error code, or the value handed to
    [simple_read_from_buffer]. *)
Definition pm_qos_power_read (filp : file) : M (Z + Z) :=
  match private_data filp with
  | None => kret (inl (- EINVAL))
  | Some req =>
      r ← read_req req;
      if negb (pm_qos_request_active r) then kret (inl (- EINVAL))
      else
        cs ← read_constraints (pm_qos_class r);
        m ← read_mem;
        value ← lift (pm_qos_get_value m cs);
        kret (inr value)
  end.

(** [pm_qos_power_write]; [binary] is what [copy_from_user] reads as an
    [s32] (nothing when it fails), [text] the return code and the value of
    [kstrtos32_from_user] in base 16. *)
Definition pm_qos_power_write (filp : file) (count : Z) (binary : option Z)
    (text : Z * Z) : M Z :=
  let parsed :=
    if decide (count = 4) then
      match binary with
      | Some value => inr value
      | None => inl (- EFAULT)
      end
    else if decide (fst text ≠ 0) then inl (fst text) else inr (snd text) in
  match parsed with
  | inl ret => kret ret
  | inr value =>
      pm_qos_update_request (private_data filp) value;;
      kret count
  end.

(** ** Consistency of the state

    Slot 0 has no constraints; every list is ordered and holds no node
    twice; a request on the list of a class carries that class; the
    per-CPU array has [NR_CPUS] entries. *)
Definition kstate_inv (st : kstate) : Prop :=
  constraints_at st 0 = None ∧
  ∀ c cs, constraints_at st c = Some cs →
    plist_wf (mem st) (c_list cs) ∧
    (∀ req, req ∈ c_list cs → pm_qos_class (mem st req) = c) ∧
    length (target_per_cpu cs) = NR_CPUS.

(** The lists of all classes. *)
Definition lists_of (st : kstate) (c : nat) : option (list req_ptr) :=
  c_list <$> constraints_at st c.

(** Two states that differ at most in the memory of one request. *)
Definition differ_at (st st1 : kstate) (req : req_ptr) : Prop :=
  pm_qos_array st1 = pm_qos_array st ∧ allocated st1 = allocated st ∧
  notifier_calls st1 = notifier_calls st ∧
  ∀ q, q ≠ req → mem st1 q = mem st q.

(** Two request records with the same value, class, type, mask and IRQ. *)
Definition same_link (r r1 : struct_pm_qos_request) : Prop :=
  node_prio r1 = node_prio r ∧ pm_qos_class r1 = pm_qos_class r ∧
  r_type r1 = r_type r ∧ cpus_affine r1 = cpus_affine r ∧ irq r1 = irq r.

End MoreQos.

(** ** Calls from outside

    One completed call into qos.c by a driver, the IRQ core, the workqueue
    or user space, taking the state [st] to [st'].  The block [kzalloc]
    hands to [pm_qos_power_open] is linked into no list. *)
Inductive qos_step `{kernel_env} `{kernel_errno} (st st' : kstate) : Prop :=
| step_add_request req cls value :
    pm_qos_add_request req cls value st = Ok (tt, st') → qos_step st st'
| step_update_request req new_value :
    pm_qos_update_request req new_value st = Ok (tt, st') → qos_step st st'
| step_update_request_param req new_value notify_param :
    pm_qos_update_request_param req new_value notify_param st = Ok (tt, st') →
    qos_step st st'
| step_update_request_timeout req new_value timeout_us :
    pm_qos_update_request_timeout req new_value timeout_us st = Ok (tt, st') →
    qos_step st st'
| step_remove_request req :
    pm_qos_remove_request req st = Ok (tt, st') → qos_step st st'
| step_work_fn req :
    pm_qos_work_fn req st = Ok (tt, st') → qos_step st st'
| step_irq_notify req mask :
    pm_qos_irq_notify req mask st = Ok (tt, st') → qos_step st st'
| step_irq_release req :
    pm_qos_irq_release req st = Ok (tt, st') → qos_step st st'
| step_update_constraints cls constraints ret :
    pm_qos_update_constraints cls constraints st = Ok (ret, st') → qos_step st st'
| step_power_open iminor answer filp r :
    (∀ p c cs, answer = Some p → constraints_at st c = Some cs → p ∉ c_list cs) →
    pm_qos_power_open iminor answer filp st = Ok (r, st') → qos_step st st'
| step_power_release filp ret :
    pm_qos_power_release filp st = Ok (ret, st') → qos_step st st'
| step_power_write filp count binary text ret :
    pm_qos_power_write filp count binary text st = Ok (ret, st') → qos_step st st'.

(** The states a run of such calls reaches. *)
Inductive qos_steps `{kernel_env} `{kernel_errno} (st : kstate) : kstate → Prop :=
| steps_nil : qos_steps st st
| steps_snoc st1 st2 : qos_steps st st1 → qos_step st1 st2 → qos_steps st st2.

(** ** A concrete machine

    Four CPUs, all possible; the latency classes default to 2000 s in
    microseconds, the [*_max] classes to [INT_MAX], the others to 0. *)

Module Sample.

Definition env : kernel_env :=
  {| NR_CPUS := 4; cpu_possible_mask := 15; PM_QOS_DEFAULT_VALUE := -1;
     EPERM := 1; ENOMEM := 12;
     irq_can_set_affinity := fun _ => true;
     irq_affinity := fun _ => 1;
     irq_set_affinity_notifier := fun _ _ => 0 |}.

#[local] Existing Instance env.

Definition dv (cls : nat) : Z :=
  match cls with
  | 1%nat | 2%nat => 2000000000
  | 4%nat | 6%nat | 10%nat | 14%nat => 2147483647
  | _ => 0
  end.

Definition minor_of (cls : nat) : Z := 50 + Z.of_nat cls.

Definition boot : kstate := boot_state dv minor_of.

(** The state a call leaves, or the state it started from on a fault. *)
Definition exec {A} (m : M A) (st : kstate) : kstate :=
  match m st with
  | Ok (_, st') => st'
  | Fault _ => st
  end.

Definition cs_at (st : kstate) (c : nat) : pm_qos_constraints :=
  default (constraints_plain dv 0 PM_QOS_UNITIALIZED) (constraints_at st c).

(** Class 1 (cpu_dma_latency, minimum) with request 1 at 100 on all CPUs
    and request 2 at 50 on all CPUs. *)
Definition st_dma1 : kstate :=
  exec (pm_qos_add_request (Some 1%nat) 1%nat 100) boot.

Definition st_dma2 : kstate :=
  exec (pm_qos_add_request (Some 2%nat) 1%nat 50) st_dma1.

(** Request 1 then updated to 20. *)
Definition st_dma3 : kstate :=
  exec (pm_qos_update_target 1 1 PM_QOS_UPDATE_REQ 20 None) st_dma2.

(** The IRQ of request 2 moves to CPUs 0 and 1; then its notifier is
    released. *)
Definition st_irq : kstate := exec (pm_qos_irq_notify 2 3) st_dma2.

Definition st_rel : kstate := exec (pm_qos_irq_release 2) st_irq.

(** Class 7 (device_throughput, forced maximum) with request 3 at 100. *)
Definition st_tput : kstate :=
  exec (pm_qos_add_request (Some 3%nat) 7%nat 100) boot.

(** Request 4 then added at 50: the maximum stays 100. *)
Definition st_tput2 : kstate :=
  exec (pm_qos_update_target 7 4 PM_QOS_ADD_REQ 50 None) st_tput.

(** A memory bandwidth (sum) constraints object holding two requests. *)
Definition sum_mem (p : nat) : struct_pm_qos_request :=
  {| r_type := PM_QOS_REQ_ALL_CORES; cpus_affine := 15; irq := 0;
     irq_notify_armed := false;
     node_prio := match p with 1%nat => 30 | _ => 12 end;
     pm_qos_class := 12; work_pending := false |}.

(** The boot state with those requests in memory, not yet added. *)
Definition boot_bw : kstate :=
  {| pm_qos_array := pm_qos_array boot; mem := sum_mem;
     allocated := allocated boot; notifier_calls := notifier_calls boot |}.

Definition sum_cs : pm_qos_constraints :=
  set_c_list (constraints_no_constraint dv 12 PM_QOS_SUM) [2; 1]%nat.

(** A flags set with request 1 holding flag 1 and request 2 holding flag
    2; request 2 is then updated to flag 4. *)
Definition flag_mem (r : nat) : pm_qos_flags_request :=
  {| flags := match r with 1%nat => 1 | 2%nat => 2 | _ => 0 end |}.

Definition pqf : pm_qos_flags := {| f_list := [1; 2]%nat; effective_flags := 3 |}.

Definition flags_updated : bool * ((nat -> pm_qos_flags_request) * pm_qos_flags) :=
  pm_qos_update_flags flag_mem pqf 2 PM_QOS_UPDATE_REQ 4.

End Sample.

(** ** Further runs on that machine *)

Module Demo.

Definition errno : kernel_errno := {| EINVAL := 22; ENODATA := 61; EFAULT := 14 |}.

#[local] Existing Instance Sample.env.
#[local] Existing Instance errno.

(** Request 5, inactive so far, added to class 1 at 70 beside requests 2
    and 1, and removed again. *)
Definition st_added : kstate :=
  Sample.exec (pm_qos_add_request (Some 5%nat) 1%nat 70) Sample.st_dma2.

Definition st_removed : kstate :=
  Sample.exec (pm_qos_remove_request (Some 5%nat)) st_added.

(** Request 1 updated to 30 for 500 microseconds; then the time is up. *)
Definition st_timed : kstate :=
  Sample.exec (pm_qos_update_request_timeout (Some 1%nat) 30 500) Sample.st_dma2.

Definition st_expired : kstate := Sample.exec (pm_qos_work_fn 1) st_timed.

(** Request 1 updated to 30 by [pm_qos_update_request]. *)
Definition st_updated : kstate :=
  Sample.exec (pm_qos_update_request (Some 1%nat) 30) Sample.st_dma2.

(** The device file of class 1 opened with the fresh block 9, and closed. *)
Definition filp0 : file := {| private_data := None |}.

Definition filp9 : file := {| private_data := Some 9%nat |}.

Definition st_open : kstate :=
  Sample.exec (pm_qos_power_open 51 (Some 9%nat) filp0) Sample.st_dma2.

Definition st_closed : kstate :=
  Sample.exec (pm_qos_power_release filp9) st_open.

(** 40 written in binary to a file that holds request 2. *)
Definition filp2 : file := {| private_data := Some 2%nat |}.

Definition st_written : kstate :=
  Sample.exec (pm_qos_power_write filp2 4 (Some 40) (0, 0)) Sample.st_dma2.

(** New attributes for a class: only the target value, 77, is given. *)
Definition attrs : pm_qos_constraints :=
  {| c_list := []; target_value := 77; target_per_cpu := [];
     default_value := 0; no_constraint_value := 0;
     c_type := PM_QOS_UNITIALIZED; notifiers := None |}.

Definition st_attrs : kstate :=
  Sample.exec (pm_qos_update_constraints 1 (Some attrs)) Sample.st_dma2.

(** The constraints of class 1 with requests 2 and 1 on the list. *)
Definition cs_dma2 : pm_qos_constraints := Sample.cs_at Sample.st_dma2 1.

End Demo.

(** ** Proof tactics *)

(** Order and distinctness of a list given in full. *)
Ltac closed_sorted :=
  unfold plist_sorted;
  match goal with
  | |- StronglySorted Z.le ?l =>
      let l' := eval vm_compute in l in change (StronglySorted Z.le l')
  end;
  repeat constructor; lia.

Ltac closed_nodup :=
  match goal with
  | |- NoDup ?l => let l' := eval vm_compute in l in change (NoDup l')
  end;
  apply (bool_decide_unpack _); by vm_compute.

(** Unfolding the sequencing of the kernel monad in a hypothesis. *)
Ltac kstep_in H :=
  repeat first
    [ progress (unfold mbind, M_bind, kbind, read_req, write_req, write_mem,
                  kret, kfail, lift in H; simpl in H)
    | rewrite fn_lookup_insert in H ].

(** * Verification *)

(** ** Machine arithmetic *)

Lemma wrap_s32_in_range z : in_s32 (wrap_s32 z).
Proof.
  unfold in_s32, wrap_s32.
  pose proof (Z.mod_pos_bound (z + 2 ^ 31) (2 ^ 32)); lia.
Qed.

Lemma wrap_s32_id z : in_s32 z → wrap_s32 z = z.
Proof.
  unfold in_s32, wrap_s32; intros Hz.
  rewrite Z.mod_small by lia. lia.
Qed.

Lemma wrap_s32_add_l a b : wrap_s32 (wrap_s32 a + b) = wrap_s32 (a + b).
Proof.
  unfold wrap_s32. f_equal.
  replace ((a + 2 ^ 31) mod 2 ^ 32 - 2 ^ 31 + b + 2 ^ 31)
    with ((a + 2 ^ 31) mod 2 ^ 32 + b) by lia.
  rewrite Zplus_mod_idemp_l. f_equal; lia.
Qed.

Lemma total_value_loop m l a :
  fold_left (fun total_value node => wrap_s32 (total_value + prio_of m node)) l
    (wrap_s32 a)
  = wrap_s32 (a + Zsum (plist_values m l)).
Proof.
  revert a; induction l as [|p l IH]; intros a; simpl.
  - f_equal; lia.
  - rewrite wrap_s32_add_l, IH. f_equal; lia.
Qed.

(** ** Priority lists *)

Lemma plist_values_insert m req r l :
  req ∉ l → plist_values (<[req := r]> m) l = plist_values m l.
Proof.
  intros Hnotin. unfold plist_values. apply map_ext_in.
  intros p Hp. unfold prio_of. rewrite fn_lookup_insert_ne; [done|].
  intros ->. apply Hnotin. by apply list_elem_of_In.
Qed.

Lemma elem_of_plist_add m node l x :
  x ∈ plist_add m node l ↔ x = node ∨ x ∈ l.
Proof.
  induction l as [|p l IH]; simpl.
  - set_solver.
  - destruct (prio_of m node <? prio_of m p); set_solver.
Qed.

Lemma elem_of_plist_del node l x :
  x ∈ plist_del node l → x ∈ l.
Proof.
  induction l as [|p l IH]; simpl; [done|].
  destruct (decide (p = node)); set_solver.
Qed.

Lemma plist_del_notin node l : node ∉ l → plist_del node l = l.
Proof.
  induction l as [|p l IH]; simpl; [done|].
  intros Hn. destruct (decide (p = node)) as [->|]; [set_solver|].
  f_equal. apply IH. set_solver.
Qed.

Lemma NoDup_plist_del node l : NoDup l → NoDup (plist_del node l).
Proof.
  induction 1 as [|p l Hp Hl IH]; simpl; [constructor|].
  destruct (decide (p = node)); [done|].
  constructor; [|done]. intros Hin. by apply Hp, elem_of_plist_del with node.
Qed.

Lemma plist_del_gone node l : NoDup l → node ∉ plist_del node l.
Proof.
  induction 1 as [|p l Hp Hl IH]; simpl; [set_solver|].
  destruct (decide (p = node)) as [->|]; [done|]. set_solver.
Qed.

Lemma elem_of_plist_del_ne node l x :
  x ≠ node → x ∈ l → x ∈ plist_del node l.
Proof.
  intros Hne. induction l as [|p l IH]; simpl; [done|].
  destruct (decide (p = node)) as [->|]; set_solver.
Qed.

Lemma NoDup_plist_add m node l : node ∉ l → NoDup l → NoDup (plist_add m node l).
Proof.
  intros Hn Hl. induction Hl as [|p l Hp Hl IH]; simpl.
  - apply NoDup_singleton.
  - destruct (prio_of m node <? prio_of m p).
    + constructor; [done|by constructor].
    + constructor.
      * rewrite elem_of_plist_add. set_solver.
      * apply IH. set_solver.
Qed.

Lemma plist_sorted_del m node l : plist_sorted m l → plist_sorted m (plist_del node l).
Proof.
  unfold plist_sorted, plist_values.
  induction l as [|p l IH]; simpl; [done|].
  intros Hs. apply StronglySorted_inv in Hs as [Hs Hall].
  destruct (decide (p = node)); [done|]. simpl.
  constructor; [by apply IH|].
  rewrite List.Forall_forall in *. intros x Hx.
  apply Hall. rewrite in_map_iff in *. destruct Hx as (q & <- & Hq).
  exists q; split; [done|].
  apply list_elem_of_In. apply list_elem_of_In in Hq.
  by apply elem_of_plist_del with node.
Qed.

Lemma plist_sorted_add m node l : plist_sorted m l → plist_sorted m (plist_add m node l).
Proof.
  unfold plist_sorted, plist_values.
  induction l as [|p l IH]; simpl.
  - intros _. repeat constructor.
  - intros Hs. pose proof Hs as Hs0.
    apply StronglySorted_inv in Hs as [Hs Hall].
    destruct (Z.ltb_spec (prio_of m node) (prio_of m p)) as [Hlt|Hge]; simpl.
    + constructor; [done|]. constructor; [lia|].
      rewrite List.Forall_forall in *. intros x Hx. specialize (Hall x Hx). lia.
    + constructor; [by apply IH|].
      rewrite List.Forall_forall in *. intros x Hx.
      rewrite in_map_iff in Hx. destruct Hx as (q & <- & Hq).
      apply list_elem_of_In, elem_of_plist_add in Hq as [->|Hq]; [lia|].
      apply Hall, in_map, list_elem_of_In, Hq.
Qed.

Lemma sorted_head_minimum x l : StronglySorted Z.le (x :: l) → is_minimum x (x :: l).
Proof.
  intros Hs. apply StronglySorted_inv in Hs as [_ Hall].
  split; [set_solver|]. intros y Hy. apply elem_of_cons in Hy as [->|Hy]; [lia|].
  rewrite List.Forall_forall in Hall. by apply Hall, list_elem_of_In.
Qed.

Lemma last_cons_default {A} (x : A) l d d' :
  List.last (x :: l) d = List.last (x :: l) d'.
Proof.
  revert x; induction l as [|y l IH]; intros x; [done|].
  change (List.last (y :: l) d = List.last (y :: l) d'). apply IH.
Qed.

Lemma sorted_last_maximum x l :
  StronglySorted Z.le (x :: l) → is_maximum (List.last (x :: l) x) (x :: l).
Proof.
  revert x; induction l as [|y l IH]; intros x Hs.
  - split; [set_solver|]. intros z Hz. simpl. set_solver.
  - apply StronglySorted_inv in Hs as [Hs Hall].
    destruct (IH y Hs) as [Hin Hmax].
    change (List.last (x :: y :: l) x) with (List.last (y :: l) x).
    rewrite (last_cons_default y l x y).
    split; [set_solver|].
    intros z Hz. apply elem_of_cons in Hz as [->|Hz]; [|by apply Hmax].
    rewrite List.Forall_forall in Hall.
    etrans; [apply (Hall y); by left|]. apply Hmax. set_solver.
Qed.

(** ** The aggregate value *)

Lemma pm_qos_get_value_empty m c :
  c_list c = [] → pm_qos_get_value m c = Ok (no_constraint_value c).
Proof. unfold pm_qos_get_value. by intros ->. Qed.

Lemma pm_qos_get_value_min m c :
  plist_sorted m (c_list c) → c_list c ≠ [] → c_type c = PM_QOS_MIN →
  ∃ v, pm_qos_get_value m c = Ok v ∧ is_minimum v (plist_values m (c_list c)).
Proof.
  unfold pm_qos_get_value, plist_sorted. intros Hs Hne ->.
  destruct (c_list c) as [|p l]; [done|].
  eexists; split; [done|]. by apply sorted_head_minimum.
Qed.

Lemma plist_values_last m p l :
  prio_of m (List.last (p :: l) p)
  = List.last (plist_values m (p :: l)) (prio_of m p).
Proof.
  revert p; induction l as [|q l IH]; intros p; [done|].
  change (List.last (p :: q :: l) p) with (List.last (q :: l) p).
  change (List.last (plist_values m (p :: q :: l)) (prio_of m p))
    with (List.last (plist_values m (q :: l)) (prio_of m p)).
  rewrite (last_cons_default q l p q).
  unfold plist_values at 1; simpl map.
  rewrite (last_cons_default (prio_of m q) (map (prio_of m) l) (prio_of m p) (prio_of m q)).
  apply IH.
Qed.

Lemma pm_qos_get_value_max m c :
  plist_sorted m (c_list c) → c_list c ≠ [] →
  c_type c = PM_QOS_MAX ∨ c_type c = PM_QOS_FORCE_MAX →
  ∃ v, pm_qos_get_value m c = Ok v ∧ is_maximum v (plist_values m (c_list c)).
Proof.
  unfold pm_qos_get_value, plist_sorted, plist_last. intros Hs Hne Ht.
  destruct (c_list c) as [|p l]; [done|].
  exists (prio_of m (List.last (p :: l) p)). split.
  - rewrite (last_cons_default p l 0%nat p). by destruct Ht as [-> | ->].
  - rewrite plist_values_last. by apply sorted_last_maximum.
Qed.

Lemma pm_qos_get_value_sum m c :
  c_list c ≠ [] → c_type c = PM_QOS_SUM →
  pm_qos_get_value m c = Ok (wrap_s32 (Zsum (plist_values m (c_list c)))).
Proof.
  unfold pm_qos_get_value. intros Hne ->.
  destruct (c_list c) as [|p l]; [done|]. f_equal.
  change 0 with (wrap_s32 0) at 1. by rewrite total_value_loop.
Qed.

Lemma pm_qos_get_value_ok m c :
  c_type c ≠ PM_QOS_UNITIALIZED → ∃ v, pm_qos_get_value m c = Ok v.
Proof.
  unfold pm_qos_get_value. intros Ht.
  destruct (c_list c); [by eexists|].
  destruct (c_type c); [by destruct Ht|by eexists..].
Qed.

(** ** Per-CPU targets *)

Section PerCpu.
Context `{kernel_env}.

Lemma elem_of_for_each_cpu mask cpu :
  cpu ∈ for_each_cpu mask ↔ (cpu < NR_CPUS)%nat ∧ cpumask_test_cpu cpu mask = true.
Proof.
  unfold for_each_cpu. rewrite list_elem_of_In, filter_In, in_seq.
  intuition lia.
Qed.

Lemma cpu_op_idem t a p : cpu_op t (cpu_op t a p) p = cpu_op t a p.
Proof. destruct t; simpl; lia. Qed.

Lemma qos_val_step_spec t prio qv cpu :
  per_cpu_type t →
  ∃ qv', qos_val_step t prio qv cpu = Ok qv' ∧ length qv' = length qv ∧
    ∀ i, (i < length qv)%nat →
      qv' !!! i = if decide (i = cpu) then cpu_op t (qv !!! i) prio else qv !!! i.
Proof.
  intros [-> | [-> | ->]]; simpl.
  - destruct (Z.gtb_spec (qv !!! cpu) prio) as [Hgt|Hle]; eexists; (split; [done|]).
    + split; [by rewrite length_insert|]. intros i Hi.
      destruct (decide (i = cpu)) as [->|Hne].
      * rewrite list_lookup_total_insert_eq by done. lia.
      * by rewrite list_lookup_total_insert_ne.
    + split; [done|]. intros i Hi. destruct (decide (i = cpu)) as [->|]; lia.
  - destruct (Z.gtb_spec prio (qv !!! cpu)) as [Hgt|Hle]; eexists; (split; [done|]).
    + split; [by rewrite length_insert|]. intros i Hi.
      destruct (decide (i = cpu)) as [->|Hne].
      * rewrite list_lookup_total_insert_eq by done. lia.
      * by rewrite list_lookup_total_insert_ne.
    + split; [done|]. intros i Hi. destruct (decide (i = cpu)) as [->|]; lia.
  - eexists; split; [done|]. split; [by rewrite length_insert|]. intros i Hi.
    destruct (decide (i = cpu)) as [->|Hne].
    + by rewrite list_lookup_total_insert_eq.
    + by rewrite list_lookup_total_insert_ne.
Qed.

Lemma inner_loop_spec t prio cpus qv :
  per_cpu_type t →
  ∃ qv', foldM (qos_val_step t prio) cpus qv = Ok qv' ∧ length qv' = length qv ∧
    ∀ i, (i < length qv)%nat →
      qv' !!! i = if decide (i ∈ cpus) then cpu_op t (qv !!! i) prio else qv !!! i.
Proof.
  intros Ht. revert qv; induction cpus as [|cpu cpus IH]; intros qv; simpl.
  - by exists qv.
  - destruct (qos_val_step_spec t prio qv cpu Ht) as (qv1 & -> & Hlen1 & Hqv1). simpl.
    destruct (IH qv1) as (qv2 & -> & Hlen2 & Hqv2).
    exists qv2. split; [done|]. split; [congruence|]. intros i Hi.
    rewrite Hqv2, Hqv1 by congruence.
    destruct (decide (i = cpu)) as [->|Hne].
    + destruct (decide (cpu ∈ cpu :: cpus)) as [_|Hn]; [|set_solver].
      destruct (decide (cpu ∈ cpus)); [apply cpu_op_idem|done].
    + destruct (decide (i ∈ cpus)), (decide (i ∈ cpu :: cpus)); set_solver.
Qed.

Lemma covering_cons m req l cpu :
  covering m (req :: l) cpu =
  if cpumask_test_cpu cpu (cpus_affine (m req)) then req :: covering m l cpu
  else covering m l cpu.
Proof. done. Qed.

Lemma outer_loop_spec m t l qv :
  per_cpu_type t →
  ∃ qv',
    foldM (fun qos_val req =>
             foldM (qos_val_step t (prio_of m req))
                   (for_each_cpu (cpus_affine (m req))) qos_val) l qv = Ok qv' ∧
    length qv' = length qv ∧
    ∀ i, (i < length qv)%nat → (i < NR_CPUS)%nat →
      qv' !!! i = fold_left (cpu_op t) (plist_values m (covering m l i)) (qv !!! i).
Proof.
  intros Ht. revert qv; induction l as [|req l IH]; intros qv; simpl.
  - by exists qv.
  - destruct (inner_loop_spec t (prio_of m req)
                (for_each_cpu (cpus_affine (m req))) qv Ht) as (qv1 & -> & Hlen1 & Hqv1).
    simpl. destruct (IH qv1) as (qv2 & -> & Hlen2 & Hqv2).
    exists qv2. split; [done|]. split; [congruence|]. intros i Hi Hcpu.
    rewrite Hqv2, Hqv1 by congruence.
    destruct (cpumask_test_cpu i (cpus_affine (m req))) eqn:Htest.
    + rewrite decide_True; [done|]. by apply elem_of_for_each_cpu.
    + rewrite decide_False; [done|]. rewrite elem_of_for_each_cpu. intros [_ ?]; congruence.
Qed.

Lemma fold_left_last (vals : list Z) init :
  fold_left (fun _ prio => prio) vals init = List.last vals init.
Proof.
  revert init; induction vals as [|v vals IH]; intros init; [done|].
  simpl fold_left. rewrite IH. destruct vals as [|w vals]; [done|].
  change (List.last (v :: w :: vals) init) with (List.last (w :: vals) init).
  apply last_cons_default.
Qed.

Lemma aggregate_from_fold t init vals :
  aggregate_from t init vals = fold_left (cpu_op t) vals init.
Proof.
  destruct t; simpl; try done; symmetry; apply fold_left_last.
Qed.

Lemma qos_val_of_spec m c :
  per_cpu_type (c_type c) →
  ∃ qos_val, qos_val_of m c = Ok qos_val ∧ length qos_val = NR_CPUS ∧
    ∀ cpu, (cpu < NR_CPUS)%nat → qos_val !!! cpu = per_cpu_aggregate m c cpu.
Proof.
  intros Ht. unfold qos_val_of.
  destruct (outer_loop_spec m (c_type c) (c_list c)
              (replicate NR_CPUS (default_value c)) Ht) as (qv & -> & Hlen & Hqv).
  rewrite length_replicate in Hlen, Hqv.
  exists qv. split; [done|]. split; [done|]. intros cpu Hcpu.
  rewrite Hqv by done. unfold per_cpu_aggregate.
  rewrite aggregate_from_fold. f_equal.
  by apply lookup_total_replicate_2.
Qed.

Lemma copy_loop_length (qos_val : list Z) cpus t :
  length (fold_left (fun t cpu => <[cpu := qos_val !!! cpu]> t) cpus t) = length t.
Proof.
  revert t; induction cpus as [|cpu cpus IH]; intros t; simpl; [done|].
  by rewrite IH, length_insert.
Qed.

Lemma copy_loop_lookup (qos_val : list Z) cpus t i :
  fold_left (fun t cpu => <[cpu := qos_val !!! cpu]> t) cpus t !! i =
  if decide (i ∈ cpus ∧ (i < length t)%nat) then Some (qos_val !!! i) else t !! i.
Proof.
  revert t; induction cpus as [|cpu cpus IH]; intros t.
  - simpl fold_left. rewrite decide_False; [done|]. set_solver.
  - simpl fold_left. rewrite IH, length_insert.
    destruct (decide (i ∈ cpus ∧ (i < length t)%nat)) as [[Hin Hlt]|Hn].
    + rewrite decide_True; [done|]. set_solver.
    + destruct (decide (i = cpu)) as [->|Hne].
      * destruct (decide (cpu < length t)%nat).
        -- rewrite decide_True by set_solver. by apply list_lookup_insert_eq.
        -- rewrite decide_False by tauto. rewrite list_insert_ge by lia. done.
      * rewrite list_lookup_insert_ne by done.
        rewrite decide_False; [done|]. set_solver.
Qed.

Lemma pm_qos_set_value_for_cpus_spec m c :
  per_cpu_type (c_type c) → length (target_per_cpu c) = NR_CPUS →
  ∃ c', pm_qos_set_value_for_cpus m c = Ok c' ∧
    c_list c' = c_list c ∧ target_value c' = target_value c ∧
    default_value c' = default_value c ∧
    no_constraint_value c' = no_constraint_value c ∧
    c_type c' = c_type c ∧ notifiers c' = notifiers c ∧
    length (target_per_cpu c') = NR_CPUS ∧
    ∀ cpu,
      target_per_cpu c' !! cpu =
      if decide (cpu ∈ for_each_possible_cpu)
      then Some (per_cpu_aggregate m c cpu) else target_per_cpu c !! cpu.
Proof.
  intros Ht Hlen. unfold pm_qos_set_value_for_cpus.
  destruct (qos_val_of_spec m c Ht) as (qv & -> & Hlqv & Hqv). simpl.
  eexists; split; [done|]. simpl. repeat (split; [done|]).
  split; [by rewrite copy_loop_length|]. intros cpu.
  rewrite copy_loop_lookup, Hlen.
  destruct (decide (cpu ∈ for_each_possible_cpu)) as [Hin|Hn].
  - pose proof Hin as Hin'. apply elem_of_for_each_cpu in Hin' as [Hlt _].
    rewrite decide_True by done. by rewrite Hqv.
  - rewrite decide_False; [done|]. tauto.
Qed.

(** For a type without a case in the switch, the first CPU of the first
    request with a non-empty mask reaches [BUG()]. *)
Lemma qos_val_of_bug m c :
  ¬ per_cpu_type (c_type c) →
  (∃ req, req ∈ c_list c ∧ for_each_cpu (cpus_affine (m req)) ≠ []) →
  qos_val_of m c = Fault BUG.
Proof.
  intros Ht (req & Hin & Hcpus). unfold qos_val_of.
  generalize (replicate NR_CPUS (default_value c)) as qv.
  induction (c_list c) as [|p l IH]; intros qv; [by apply elem_of_nil in Hin|].
  simpl. destruct (for_each_cpu (cpus_affine (m p))) as [|cpu cpus] eqn:Hp.
  - simpl. apply IH. apply elem_of_cons in Hin as [->|]; [congruence|done].
  - simpl. assert (qos_val_step (c_type c) (prio_of m p) qv cpu = Fault BUG) as ->; [|done].
    unfold per_cpu_type in Ht. destruct (c_type c); simpl; try done; exfalso; tauto.
Qed.

(** A completed run over a type without a case met no CPU at all: the
    values are the defaults, and no request covers a CPU. *)
Lemma qos_val_of_no_case m c qos_val :
  ¬ per_cpu_type (c_type c) → qos_val_of m c = Ok qos_val →
  qos_val = replicate NR_CPUS (default_value c) ∧
  ∀ req, req ∈ c_list c → for_each_cpu (cpus_affine (m req)) = [].
Proof.
  intros Ht. unfold qos_val_of.
  generalize (replicate NR_CPUS (default_value c)) as qv.
  induction (c_list c) as [|p l IH]; intros qv Hrun; simpl in Hrun.
  - injection Hrun as <-. split; [done|]. intros req Hreq. by apply elem_of_nil in Hreq.
  - destruct (for_each_cpu (cpus_affine (m p))) as [|cpu cpus] eqn:Hp.
    + simpl in Hrun. destruct (IH qv Hrun) as [-> Hall]. split; [done|].
      intros req Hreq. apply elem_of_cons in Hreq as [->|Hreq]; [done|by apply Hall].
    + simpl in Hrun.
      assert (qos_val_step (c_type c) (prio_of m p) qv cpu = Fault BUG) as Hbug.
      { unfold per_cpu_type in Ht. destruct (c_type c); simpl; try done; exfalso; tauto. }
      by rewrite Hbug in Hrun.
Qed.

Lemma covering_nil m l cpu :
  (cpu < NR_CPUS)%nat →
  (∀ req, req ∈ l → for_each_cpu (cpus_affine (m req)) = []) →
  covering m l cpu = [].
Proof.
  intros Hcpu. induction l as [|p l IH]; intros Hall; [done|].
  rewrite covering_cons.
  destruct (cpumask_test_cpu cpu (cpus_affine (m p))) eqn:Htest.
  - assert (cpu ∈ for_each_cpu (cpus_affine (m p))) as Hin
      by (by apply elem_of_for_each_cpu).
    rewrite (Hall p) in Hin by set_solver. by apply elem_of_nil in Hin.
  - apply IH. intros req Hreq. apply Hall. set_solver.
Qed.

(** Whatever the type, a completed run leaves the per-CPU aggregate. *)
Lemma qos_val_of_Ok_spec m c qos_val :
  qos_val_of m c = Ok qos_val →
  length qos_val = NR_CPUS ∧
  ∀ cpu, (cpu < NR_CPUS)%nat → qos_val !!! cpu = per_cpu_aggregate m c cpu.
Proof.
  intros Hrun.
  assert (per_cpu_type (c_type c) ∨ ¬ per_cpu_type (c_type c)) as [Ht|Ht].
  { unfold per_cpu_type. destruct (c_type c); intuition congruence. }
  - destruct (qos_val_of_spec m c Ht) as (qv & Hqv & Hlen & Hagg).
    assert (qv = qos_val) as -> by congruence. done.
  - destruct (qos_val_of_no_case m c qos_val Ht Hrun) as [-> Hall].
    split; [apply length_replicate|]. intros cpu Hcpu.
    rewrite lookup_total_replicate_2 by done.
    unfold per_cpu_aggregate. rewrite (covering_nil m (c_list c) cpu Hcpu Hall).
    simpl. by destruct (c_type c).
Qed.

End PerCpu.

(** ** Running pm_qos_update_target *)

Section Update.
Context `{kernel_env}.

Lemma pm_qos_update_target_locked_inv m cs req action value prev curr m' cs' :
  pm_qos_update_target_locked m cs req action value = Ok (prev, curr, m', cs') →
  pm_qos_get_value m cs = Ok prev ∧
  pm_qos_update_list m (c_list cs) req action (new_value_of cs value)
    = (m', c_list cs') ∧
  pm_qos_get_value m' cs' = Ok curr ∧
  target_value cs' = curr ∧
  default_value cs' = default_value cs ∧
  no_constraint_value cs' = no_constraint_value cs ∧
  c_type cs' = c_type cs ∧
  notifiers cs' = notifiers cs ∧
  ∃ qos_val, qos_val_of m' cs' = Ok qos_val ∧
    target_per_cpu cs' =
      fold_left (fun t cpu => <[cpu := qos_val !!! cpu]> t)
        for_each_possible_cpu (target_per_cpu cs).
Proof.
  unfold pm_qos_update_target_locked, new_value_of.
  destruct (pm_qos_get_value m cs) as [prev0|] eqn:Hprev; [|done]. simpl.
  destruct (pm_qos_update_list m (c_list cs) req action _) as [m1 l1] eqn:Hl.
  destruct (pm_qos_get_value m1 (set_c_list cs l1)) as [curr0|] eqn:Hcurr; [|done].
  simpl. unfold pm_qos_set_value_for_cpus.
  destruct (qos_val_of m1 (pm_qos_set_value (set_c_list cs l1) curr0))
    as [qv|] eqn:Hqv; [|done].
  simpl. intros [= <- <- <- <-]. simpl.
  repeat (split; [done|]). by exists qv.
Qed.

Lemma pm_qos_update_target_locked_total m cs req action value :
  per_cpu_type (c_type cs) →
  ∃ prev curr m' cs',
    pm_qos_update_target_locked m cs req action value = Ok (prev, curr, m', cs').
Proof.
  intros Ht. unfold pm_qos_update_target_locked.
  assert (c_type cs ≠ PM_QOS_UNITIALIZED) as Hty.
  { destruct Ht as [?|[?|?]]; congruence. }
  destruct (pm_qos_get_value_ok m cs Hty) as [prev ->]. simpl.
  destruct (pm_qos_update_list m (c_list cs) req action _) as [m1 l1].
  destruct (pm_qos_get_value_ok m1 (set_c_list cs l1) Hty) as [curr ->]. simpl.
  unfold pm_qos_set_value_for_cpus.
  destruct (qos_val_of_spec m1 (pm_qos_set_value (set_c_list cs l1) curr) Ht)
    as (qv & -> & _). simpl. by repeat eexists.
Qed.

Lemma pm_qos_update_target_eq c req action value np st o cs :
  pm_qos_array st !! c = Some o → constraints o = Some cs →
  pm_qos_update_target c req action value np st =
  match pm_qos_update_target_locked (mem st) cs req action value with
  | Fault f => Fault f
  | Ok (prev, curr, m', cs') =>
      if decide (c_type cs' = PM_QOS_FORCE_MAX) then
        match notifiers cs' with
        | Some _ =>
            Ok (1, after_update st c o cs' m'
                     (notifier_calls st ++ notifier_call_of cs' curr req np))
        | None => Fault OOPS
        end
      else if decide (prev ≠ curr) then
        Ok (1, after_update st c o cs' m'
                 (match notifiers cs' with
                  | Some _ => notifier_calls st ++ notifier_call_of cs' curr req np
                  | None => notifier_calls st
                  end))
      else Ok (0, after_update st c o cs' m' (notifier_calls st))
  end.
Proof.
  intros Ho Hcs. unfold pm_qos_update_target.
  unfold mbind, M_bind, kbind, read_constraints.
  rewrite Ho. destruct o as [oc omin]; simpl in Hcs; subst oc.
  simpl. destruct (pm_qos_update_target_locked (mem st) cs req action value)
    as [[[[prev curr] m'] cs']|f]; [|done].
  unfold lift, write_constraints, write_mem, blocking_notifier_call_chain, kret.
  simpl. rewrite Ho. simpl.
  unfold notifier_call_of, after_update.
  destruct (decide (c_type cs' = PM_QOS_FORCE_MAX)).
  - by destruct (notifiers cs').
  - destruct (decide (prev ≠ curr)); [|done]. by destruct (notifiers cs').
Qed.

Lemma pm_qos_update_target_inv c req action value np st ret st' :
  pm_qos_update_target c req action value np st = Ok (ret, st') →
  ∃ o cs prev curr cs',
    pm_qos_array st !! c = Some o ∧ constraints o = Some cs ∧
    pm_qos_update_target_locked (mem st) cs req action value
      = Ok (prev, curr, mem st', cs') ∧
    pm_qos_array st' =
      <[c := {| constraints := Some cs'; minor := minor o |}]> (pm_qos_array st) ∧
    allocated st' = allocated st ∧
    (c_type cs = PM_QOS_FORCE_MAX → notifiers cs ≠ None) ∧
    ret = (if decide (c_type cs = PM_QOS_FORCE_MAX) then 1
           else if decide (prev ≠ curr) then 1 else 0) ∧
    notifier_calls st' =
      notifier_calls st ++
      (if decide (c_type cs = PM_QOS_FORCE_MAX) then notifier_call_of cs curr req np
       else if decide (prev ≠ curr) then notifier_call_of cs curr req np else []).
Proof.
  intros Hrun.
  destruct (pm_qos_array st !! c) as [o|] eqn:Ho; cycle 1.
  { unfold pm_qos_update_target, mbind, M_bind, kbind, read_constraints in Hrun.
    by rewrite Ho in Hrun. }
  destruct (constraints o) as [cs|] eqn:Hcs; cycle 1.
  { unfold pm_qos_update_target, mbind, M_bind, kbind, read_constraints in Hrun.
    rewrite Ho in Hrun. destruct o; simpl in Hcs; by subst. }
  rewrite (pm_qos_update_target_eq _ _ _ _ _ _ o cs Ho Hcs) in Hrun.
  destruct (pm_qos_update_target_locked (mem st) cs req action value)
    as [[[[prev curr] m'] cs']|f] eqn:Hlocked; [|done].
  destruct (pm_qos_update_target_locked_inv _ _ _ _ _ _ _ _ _ Hlocked)
    as (_ & _ & _ & _ & _ & _ & Hty & Hnot & _).
  exists o, cs, prev, curr, cs'. split; [done|]. split; [done|].
  unfold notifier_call_of in *. rewrite Hty, Hnot in Hrun.
  destruct (decide (c_type cs = PM_QOS_FORCE_MAX)) as [Hf|Hf].
  - destruct (notifiers cs) as [h|] eqn:Hn; [|done].
    injection Hrun as <- <-. simpl. by repeat split.
  - destruct (decide (prev ≠ curr)).
    + injection Hrun as <- <-. simpl.
      destruct (notifiers cs); repeat split; try done. by rewrite app_nil_r.
    + injection Hrun as <- <-. simpl. repeat split; try done. by rewrite app_nil_r.
Qed.

(** The list and the priorities the [switch (action)] leaves. *)
Lemma pm_qos_update_list_wf m l req action nv m' l' :
  plist_wf m l → (action = PM_QOS_ADD_REQ → req ∉ l) →
  pm_qos_update_list m l req action nv = (m', l') →
  plist_wf m' l'.
Proof.
  intros [Hs Hnd] Hadd. unfold pm_qos_update_list.
  destruct action; intros [= <- <-].
  - specialize (Hadd eq_refl). split.
    + apply plist_sorted_add. unfold plist_sorted. by rewrite plist_values_insert.
    + by apply NoDup_plist_add.
  - pose proof (plist_del_gone req l Hnd) as Hgone. split.
    + apply plist_sorted_add. unfold plist_sorted.
      rewrite plist_values_insert by done. by apply plist_sorted_del.
    + apply NoDup_plist_add; [done|]. by apply NoDup_plist_del.
  - split; [by apply plist_sorted_del|by apply NoDup_plist_del].
Qed.

Lemma pm_qos_update_list_mem m l req action nv m' l' q :
  pm_qos_update_list m l req action nv = (m', l') → q ≠ req → m' q = m q.
Proof.
  unfold pm_qos_update_list. destruct action; intros [= <- <-] Hne;
    by rewrite ?fn_lookup_insert_ne.
Qed.

Lemma pm_qos_update_list_req m l req action nv m' l' :
  pm_qos_update_list m l req action nv = (m', l') →
  m' req = match action with
           | PM_QOS_REMOVE_REQ => m req
           | _ => plist_node_init (m req) nv
           end.
Proof.
  unfold pm_qos_update_list. destruct action; intros [= <- <-];
    by rewrite ?fn_lookup_insert.
Qed.

Lemma pm_qos_update_list_elem m l req action nv m' l' x :
  NoDup l →
  pm_qos_update_list m l req action nv = (m', l') →
  x ∈ l' ↔ match action with
            | PM_QOS_REMOVE_REQ => x ∈ l ∧ x ≠ req
            | _ => x = req ∨ x ∈ l
            end.
Proof.
  intros Hnd. unfold pm_qos_update_list. destruct action; intros [= <- <-].
  - apply elem_of_plist_add.
  - rewrite elem_of_plist_add. split; intros [?|Hx]; auto.
    + right. by apply elem_of_plist_del with req.
    + destruct (decide (x = req)); [by left|]. right. by apply elem_of_plist_del_ne.
  - split.
    + intros Hx. split; [by apply elem_of_plist_del with req|].
      intros ->. by apply (plist_del_gone req l).
    + intros [? ?]. by apply elem_of_plist_del_ne.
Qed.

End Update.

(** ** Looking a class up *)

Lemma constraints_at_Some st c cs :
  constraints_at st c = Some cs ↔
  ∃ o, pm_qos_array st !! c = Some o ∧ constraints o = Some cs.
Proof.
  unfold constraints_at. destruct (pm_qos_array st !! c) as [o|]; simpl.
  - split; [by exists o|]. by intros (o' & [= <-] & ?).
  - split; [done|]. by intros (o' & ? & ?).
Qed.

Lemma constraints_at_insert st st' c o o' :
  pm_qos_array st !! c = Some o →
  pm_qos_array st' = <[c := o']> (pm_qos_array st) →
  constraints_at st' c = constraints o'.
Proof.
  intros Ho Harr. unfold constraints_at. rewrite Harr.
  rewrite list_lookup_insert_eq; [done|]. by apply lookup_lt_Some with o.
Qed.

Lemma read_constraints_at st c cs :
  constraints_at st c = Some cs → read_constraints c st = Ok (cs, st).
Proof.
  intros (o & Ho & Hcs)%constraints_at_Some. unfold read_constraints.
  rewrite Ho. destruct o; simpl in *; by subst.
Qed.

Lemma pm_qos_update_target_total `{kernel_env} c req action value np st cs :
  constraints_at st c = Some cs → per_cpu_type (c_type cs) →
  (c_type cs = PM_QOS_FORCE_MAX → notifiers cs ≠ None) →
  ∃ ret st', pm_qos_update_target c req action value np st = Ok (ret, st').
Proof.
  intros (o & Ho & Hcs)%constraints_at_Some Hty Hnot.
  rewrite (pm_qos_update_target_eq _ _ _ _ _ _ o cs Ho Hcs).
  destruct (pm_qos_update_target_locked_total (mem st) cs req action value Hty)
    as (prev & curr & m' & cs' & Hlocked). rewrite Hlocked.
  destruct (pm_qos_update_target_locked_inv _ _ _ _ _ _ _ _ _ Hlocked)
    as (_ & _ & _ & _ & _ & _ & Hty' & Hnot' & _).
  rewrite Hty', Hnot'.
  destruct (decide (c_type cs = PM_QOS_FORCE_MAX)) as [Hf|Hf].
  - specialize (Hnot Hf). destruct (notifiers cs); [by repeat eexists|done].
  - destruct (decide (prev ≠ curr)); by repeat eexists.
Qed.

(** ** The aggregate target *)

Lemma pm_qos_get_value_spec m c :
  plist_sorted m (c_list c) → c_type c ≠ PM_QOS_UNITIALIZED →
  ∃ v, pm_qos_get_value m c = Ok v ∧
       aggregate_spec (c_type c) (no_constraint_value c)
         (plist_values m (c_list c)) v.
Proof.
  intros Hs Hty. destruct (c_list c) as [|p l] eqn:Hl.
  - exists (no_constraint_value c). split; [by apply pm_qos_get_value_empty|done].
  - assert (c_list c ≠ []) as Hne by (by rewrite Hl).
    rewrite <- Hl in *. unfold aggregate_spec.
    destruct (plist_values m (c_list c)) as [|v0 vs] eqn:Hv.
    { rewrite Hl in Hv. done. }
    rewrite <- Hv. destruct (c_type c) eqn:Ht; [done|..].
    + apply pm_qos_get_value_max; auto.
    + by apply pm_qos_get_value_min.
    + eexists; split; [by apply pm_qos_get_value_sum|done].
    + apply pm_qos_get_value_max; auto.
Qed.

Lemma pm_qos_get_value_Ok_spec m c v :
  plist_sorted m (c_list c) → pm_qos_get_value m c = Ok v →
  aggregate_spec (c_type c) (no_constraint_value c) (plist_values m (c_list c)) v.
Proof.
  intros Hs Hv. destruct (decide (c_type c = PM_QOS_UNITIALIZED)) as [Hu|Hty].
  - unfold pm_qos_get_value in Hv. rewrite Hu in Hv.
    destruct (c_list c); [|done]. simpl in *. congruence.
  - destruct (pm_qos_get_value_spec m c Hs Hty) as (v' & Hv' & Hspec). congruence.
Qed.

(** C1. For every constraints object of a supported type whose list is
    ordered, [pm_qos_get_value] yields the value without constraints for
    an empty list, else the minimum (PM_QOS_MIN), the maximum (PM_QOS_MAX,
    PM_QOS_FORCE_MAX) or the [s32] sum (PM_QOS_SUM) of the request values;
    and whenever [pm_qos_update_target] completes, the target value it
    stored is that aggregate of the list it left, and [pm_qos_request]
    returns it. *)
Theorem C1_aggregate_target `{kernel_env} :
  (∀ m c,
     plist_sorted m (c_list c) → c_type c ≠ PM_QOS_UNITIALIZED →
     ∃ v, pm_qos_get_value m c = Ok v ∧
          aggregate_spec (c_type c) (no_constraint_value c)
            (plist_values m (c_list c)) v) ∧
  (∀ st c cs req action value np ret st',
     constraints_at st c = Some cs →
     plist_wf (mem st) (c_list cs) →
     (action = PM_QOS_ADD_REQ → req ∉ c_list cs) →
     pm_qos_update_target c req action value np st = Ok (ret, st') →
     ∃ cs', constraints_at st' c = Some cs' ∧
            pm_qos_get_value (mem st') cs' = Ok (target_value cs') ∧
            aggregate_spec (c_type cs') (no_constraint_value cs')
              (request_values st' cs') (target_value cs') ∧
            pm_qos_request c st' = Ok (target_value cs', st')).
Proof.
  split; [apply pm_qos_get_value_spec|].
  intros st c cs req action value np ret st' Hat Hwf Hadd Hrun.
  apply pm_qos_update_target_inv in Hrun
    as (o & cs0 & prev & curr & cs' & Ho & Hcs0 & Hlocked & Harr & _).
  assert (cs0 = cs) as ->.
  { apply constraints_at_Some in Hat as (o' & Ho' & Hcs'). congruence. }
  pose proof (constraints_at_insert _ _ _ _ _ Ho Harr) as Hat'. simpl in Hat'.
  apply pm_qos_update_target_locked_inv in Hlocked
    as (Hprev & Hlist & Hcurr & Htv & _ & _ & Hty & _).
  pose proof (pm_qos_update_list_wf _ _ _ _ _ _ _ Hwf Hadd Hlist) as [Hs' _].
  exists cs'. split; [done|]. rewrite Htv. split; [done|]. split.
  - by apply pm_qos_get_value_Ok_spec.
  - unfold pm_qos_request, mbind, M_bind, kbind.
    rewrite (read_constraints_at _ _ _ Hat'). unfold pm_qos_read_value, kret.
    by rewrite Htv.
Qed.

Lemma C1_aggregate_target_witness :
  (∃ v, pm_qos_get_value Sample.sum_mem Sample.sum_cs = Ok v ∧
        aggregate_spec PM_QOS_SUM 0 [12; 30] v) ∧
  (∃ cs', constraints_at Sample.st_dma3 1 = Some cs' ∧
          pm_qos_get_value (mem Sample.st_dma3) cs' = Ok (target_value cs') ∧
          aggregate_spec (c_type cs') (no_constraint_value cs')
            (request_values Sample.st_dma3 cs') (target_value cs') ∧
          @pm_qos_request 1 Sample.st_dma3 = Ok (target_value cs', Sample.st_dma3)).
Proof.
  split.
  - apply (proj1 (@C1_aggregate_target Sample.env) Sample.sum_mem Sample.sum_cs).
    + closed_sorted.
    + discriminate.
  - apply (proj2 (@C1_aggregate_target Sample.env) Sample.st_dma2 1%nat
             (Sample.cs_at Sample.st_dma2 1) 1%nat PM_QOS_UPDATE_REQ 20 None 1).
    + by vm_compute.
    + split; [closed_sorted|closed_nodup].
    + discriminate.
    + by vm_compute.
Defined.

(** When the sum fits the type, it is the sum itself. *)
Lemma pm_qos_get_value_sum_exact m c :
  c_list c ≠ [] → c_type c = PM_QOS_SUM →
  in_s32 (Zsum (plist_values m (c_list c))) →
  pm_qos_get_value m c = Ok (Zsum (plist_values m (c_list c))).
Proof.
  intros Hne Hty Hfit. rewrite (pm_qos_get_value_sum m c Hne Hty).
  by rewrite wrap_s32_id.
Qed.

(** ** Notification on change *)

(** C2, as stated, fails on a forced-maximum class: adding a request of
    value 50 beside one of value 100 leaves the target at 100, and still
    the chain is called and 1 is returned. *)
Lemma C2_notify_on_change_counterexample :
  c_type (Sample.cs_at Sample.st_tput 7) = PM_QOS_FORCE_MAX ∧
  @pm_qos_update_target Sample.env 7 4 PM_QOS_ADD_REQ 50 None Sample.st_tput
    = Ok (1, Sample.st_tput2) ∧
  pm_qos_get_value (mem Sample.st_tput) (Sample.cs_at Sample.st_tput 7) = Ok 100 ∧
  pm_qos_get_value (mem Sample.st_tput2) (Sample.cs_at Sample.st_tput2 7) = Ok 100 ∧
  notifier_calls Sample.st_tput2 =
    notifier_calls Sample.st_tput ++
    [{| nc_chain := 7; nc_value := 100; nc_param := ClassOf 4 |}].
Proof. repeat apply conj; by vm_compute. Qed.

(** C2, amended. Whenever [pm_qos_update_target] completes: for a type
    other than PM_QOS_FORCE_MAX it returns 1 exactly when the aggregate
    value changed and 0 otherwise, and it calls the notifier chain (when
    the class has one) exactly in that case; for PM_QOS_FORCE_MAX it calls
    the chain and returns 1 on every call, changed or not. *)
Theorem C2_notify_on_change `{kernel_env} st c req action value np ret st' :
  pm_qos_update_target c req action value np st = Ok (ret, st') →
  ∃ cs cs' prev curr,
    constraints_at st c = Some cs ∧ constraints_at st' c = Some cs' ∧
    pm_qos_get_value (mem st) cs = Ok prev ∧
    pm_qos_get_value (mem st') cs' = Ok curr ∧
    (c_type cs ≠ PM_QOS_FORCE_MAX →
       (ret = 1 ↔ prev ≠ curr) ∧ (ret = 0 ↔ prev = curr) ∧
       notifier_calls st' =
         notifier_calls st ++
         (if decide (prev ≠ curr) then notifier_call_of cs curr req np else [])) ∧
    (c_type cs = PM_QOS_FORCE_MAX →
       ret = 1 ∧
       ∃ h, notifiers cs = Some h ∧
            notifier_calls st' =
              notifier_calls st ++
              [{| nc_chain := h; nc_value := curr;
                  nc_param := match np with
                              | None => ClassOf req
                              | Some p => Param p
                              end |}]).
Proof.
  intros Hrun.
  apply pm_qos_update_target_inv in Hrun
    as (o & cs & prev & curr & cs' & Ho & Hcs & Hlocked & Harr & _ & Hfm & Hret & Hcalls).
  pose proof (constraints_at_insert _ _ _ _ _ Ho Harr) as Hat'. simpl in Hat'.
  apply pm_qos_update_target_locked_inv in Hlocked as (Hprev & _ & Hcurr & _).
  exists cs, cs', prev, curr.
  split; [apply constraints_at_Some; by exists o|]. repeat (split; [done|]).
  split.
  - intros Hty. rewrite decide_False in Hret by done.
    rewrite decide_False in Hcalls by done.
    destruct (decide (prev ≠ curr)) as [Hne|Heq%dec_stable]; subst ret.
    + by repeat split.
    + by repeat split.
  - intros Hty. rewrite decide_True in Hret by done.
    rewrite decide_True in Hcalls by done. split; [done|].
    specialize (Hfm Hty). unfold notifier_call_of in Hcalls.
    destruct (notifiers cs) as [h|]; [|done]. by exists h.
Qed.

Lemma C2_notify_on_change_witness :
  ∃ cs cs' prev curr,
    constraints_at Sample.st_dma2 1 = Some cs ∧
    constraints_at Sample.st_dma3 1 = Some cs' ∧
    pm_qos_get_value (mem Sample.st_dma2) cs = Ok prev ∧
    pm_qos_get_value (mem Sample.st_dma3) cs' = Ok curr ∧
    (c_type cs ≠ PM_QOS_FORCE_MAX →
       (1 = 1 ↔ prev ≠ curr) ∧ (1 = 0 ↔ prev = curr) ∧
       notifier_calls Sample.st_dma3 =
         notifier_calls Sample.st_dma2 ++
         (if decide (prev ≠ curr)
          then @notifier_call_of cs curr 1 None else [])) ∧
    (c_type cs = PM_QOS_FORCE_MAX →
       1 = 1 ∧
       ∃ h, notifiers cs = Some h ∧
            notifier_calls Sample.st_dma3 =
              notifier_calls Sample.st_dma2 ++
              [{| nc_chain := h; nc_value := curr; nc_param := ClassOf 1 |}]).
Proof.
  apply (@C2_notify_on_change Sample.env Sample.st_dma2 1%nat 1%nat
           PM_QOS_UPDATE_REQ 20 None 1 Sample.st_dma3).
  by vm_compute.
Defined.

(** ** Per-CPU targets after an update *)

Lemma fold_left_min_is_minimum l d : is_minimum (fold_left Z.min l d) (d :: l).
Proof.
  revert d; induction l as [|x l IH]; intros d; simpl.
  - split; [set_solver|]. intros y Hy. apply elem_of_cons in Hy as [->|Hy]; [lia|set_solver].
  - destruct (IH (Z.min d x)) as [Hin Hle]. split.
    + apply elem_of_cons in Hin as [Heq|Hin]; [|set_solver].
      rewrite Heq. destruct (Z.min_spec d x) as [[_ ->]|[_ ->]]; set_solver.
    + pose proof (Hle (Z.min d x) ltac:(set_solver)) as Hm.
      intros y Hy. apply elem_of_cons in Hy as [->|Hy]; [lia|].
      apply elem_of_cons in Hy as [->|Hy]; [lia|]. apply Hle. set_solver.
Qed.

Lemma fold_left_max_is_maximum l d : is_maximum (fold_left Z.max l d) (d :: l).
Proof.
  revert d; induction l as [|x l IH]; intros d; simpl.
  - split; [set_solver|]. intros y Hy. apply elem_of_cons in Hy as [->|Hy]; [lia|set_solver].
  - destruct (IH (Z.max d x)) as [Hin Hle]. split.
    + apply elem_of_cons in Hin as [Heq|Hin]; [|set_solver].
      rewrite Heq. destruct (Z.max_spec d x) as [[_ ->]|[_ ->]]; set_solver.
    + pose proof (Hle (Z.max d x) ltac:(set_solver)) as Hm.
      intros y Hy. apply elem_of_cons in Hy as [->|Hy]; [lia|].
      apply elem_of_cons in Hy as [->|Hy]; [lia|]. apply Hle. set_solver.
Qed.

(** What the locked part leaves in [target_per_cpu] for a type with a
    per-CPU case. *)
Lemma pm_qos_update_target_locked_per_cpu `{kernel_env}
    m cs req action value prev curr m' cs' :
  pm_qos_update_target_locked m cs req action value = Ok (prev, curr, m', cs') →
  length (target_per_cpu cs) = NR_CPUS →
  length (target_per_cpu cs') = NR_CPUS ∧
  ∀ cpu, target_per_cpu cs' !! cpu =
         if decide (cpu ∈ for_each_possible_cpu)
         then Some (per_cpu_aggregate m' cs' cpu) else target_per_cpu cs !! cpu.
Proof.
  intros Hlocked Hlen.
  apply pm_qos_update_target_locked_inv in Hlocked
    as (_ & _ & _ & _ & _ & _ & _ & _ & qv & Hqv & Htpc).
  destruct (qos_val_of_Ok_spec m' cs' qv Hqv) as (Hlqv & Hagg).
  rewrite Htpc. split; [by rewrite copy_loop_length|]. intros cpu.
  rewrite copy_loop_lookup, Hlen.
  destruct (decide (cpu ∈ for_each_possible_cpu)) as [Hin|Hn].
  - pose proof Hin as Hin'. apply elem_of_for_each_cpu in Hin' as [Hlt _].
    rewrite decide_True by done. by rewrite Hagg.
  - rewrite decide_False; [done|]. tauto.
Qed.

(** C3. After a [pm_qos_update_target] call has completed, for each
    possible CPU [target_per_cpu[cpu]] is the aggregate, started from the
    class's [default_value], of the values of exactly the requests on the
    list whose [cpus_affine] contains the CPU: for PM_QOS_MIN the least,
    for PM_QOS_MAX the greatest of the default and those values, hence the
    default itself when no request covers the CPU; and
    [pm_qos_request_for_cpu] returns it. *)
Theorem C3_per_cpu_target `{kernel_env} st c cs req action value np ret st' :
  constraints_at st c = Some cs →
  length (target_per_cpu cs) = NR_CPUS →
  pm_qos_update_target c req action value np st = Ok (ret, st') →
  ∃ cs', constraints_at st' c = Some cs' ∧
    ∀ cpu, cpu ∈ for_each_possible_cpu →
      ∃ v, target_per_cpu cs' !! cpu = Some v ∧
        pm_qos_request_for_cpu c cpu st' = Ok (v, st') ∧
        v = aggregate_from (c_type cs) (default_value cs)
              (plist_values (mem st') (covering (mem st') (c_list cs') cpu)) ∧
        (c_type cs = PM_QOS_MIN →
           is_minimum v (default_value cs ::
             plist_values (mem st') (covering (mem st') (c_list cs') cpu))) ∧
        (c_type cs = PM_QOS_MAX →
           is_maximum v (default_value cs ::
             plist_values (mem st') (covering (mem st') (c_list cs') cpu))) ∧
        (covering (mem st') (c_list cs') cpu = [] → v = default_value cs).
Proof.
  intros Hat Hlen Hrun.
  apply pm_qos_update_target_inv in Hrun
    as (o & cs0 & prev & curr & cs' & Ho & Hcs0 & Hlocked & Harr & _).
  assert (cs0 = cs) as ->.
  { apply constraints_at_Some in Hat as (o' & Ho' & Hcs'). congruence. }
  pose proof (constraints_at_insert _ _ _ _ _ Ho Harr) as Hat'. simpl in Hat'.
  destruct (pm_qos_update_target_locked_per_cpu _ _ _ _ _ _ _ _ _ Hlocked Hlen)
    as [Hlen' Htpc].
  apply pm_qos_update_target_locked_inv in Hlocked
    as (_ & _ & _ & _ & Hdef & _ & Hty' & _).
  exists cs'. split; [done|]. intros cpu Hcpu.
  specialize (Htpc cpu). rewrite decide_True in Htpc by done.
  exists (per_cpu_aggregate (mem st') cs' cpu). split; [done|]. split.
  { unfold pm_qos_request_for_cpu, mbind, M_bind, kbind.
    rewrite (read_constraints_at _ _ _ Hat'). by rewrite Htpc. }
  unfold per_cpu_aggregate. rewrite Hty', Hdef. split; [done|].
  split; [|split].
  - intros ->. simpl. apply fold_left_min_is_minimum.
  - intros ->. simpl. apply fold_left_max_is_maximum.
  - intros ->. simpl. by destruct (c_type cs).
Qed.

Lemma C3_per_cpu_target_witness :
  ∃ cs', constraints_at Sample.st_dma3 1 = Some cs' ∧
    ∀ cpu, cpu ∈ @for_each_possible_cpu Sample.env →
      ∃ v, target_per_cpu cs' !! cpu = Some v ∧
        pm_qos_request_for_cpu 1 cpu Sample.st_dma3 = Ok (v, Sample.st_dma3) ∧
        v = aggregate_from PM_QOS_MIN 2000000000
              (plist_values (mem Sample.st_dma3)
                 (covering (mem Sample.st_dma3) (c_list cs') cpu)) ∧
        (PM_QOS_MIN = PM_QOS_MIN →
           is_minimum v (2000000000 ::
             plist_values (mem Sample.st_dma3)
               (covering (mem Sample.st_dma3) (c_list cs') cpu))) ∧
        (PM_QOS_MIN = PM_QOS_MAX →
           is_maximum v (2000000000 ::
             plist_values (mem Sample.st_dma3)
               (covering (mem Sample.st_dma3) (c_list cs') cpu))) ∧
        (covering (mem Sample.st_dma3) (c_list cs') cpu = [] →
           v = 2000000000).
Proof.
  apply (@C3_per_cpu_target Sample.env Sample.st_dma2 1%nat
           (Sample.cs_at Sample.st_dma2 1) 1%nat PM_QOS_UPDATE_REQ 20 None 1
           Sample.st_dma3).
  - by vm_compute.
  - by vm_compute.
  - by vm_compute.
Defined.

(** ** Order of the list *)

(** C4. The request list stays ordered by value (and free of repeated
    nodes) across every add, update and remove that
    [pm_qos_update_target] completes: an update unlinks the node, sets its
    new value and links it again, an add links it, a remove unlinks it; so
    the first node holds the least value and the last node the greatest. *)
Theorem C4_list_stays_ordered `{kernel_env} st c cs req action value np ret st' :
  constraints_at st c = Some cs →
  plist_wf (mem st) (c_list cs) →
  (action = PM_QOS_ADD_REQ → req ∉ c_list cs) →
  pm_qos_update_target c req action value np st = Ok (ret, st') →
  ∃ cs', constraints_at st' c = Some cs' ∧
    plist_wf (mem st') (c_list cs') ∧
    c_list cs' =
      match action with
      | PM_QOS_REMOVE_REQ => plist_del req (c_list cs)
      | PM_QOS_UPDATE_REQ => plist_add (mem st') req (plist_del req (c_list cs))
      | PM_QOS_ADD_REQ => plist_add (mem st') req (c_list cs)
      end ∧
    (action ≠ PM_QOS_REMOVE_REQ → prio_of (mem st') req = new_value_of cs value) ∧
    (∀ first rest, c_list cs' = first :: rest →
       is_minimum (prio_of (mem st') first) (request_values st' cs') ∧
       is_maximum (prio_of (mem st') (List.last (c_list cs') first))
         (request_values st' cs')).
Proof.
  intros Hat Hwf Hadd Hrun.
  apply pm_qos_update_target_inv in Hrun
    as (o & cs0 & prev & curr & cs' & Ho & Hcs0 & Hlocked & Harr & _).
  assert (cs0 = cs) as ->.
  { apply constraints_at_Some in Hat as (o' & Ho' & Hcs'). congruence. }
  pose proof (constraints_at_insert _ _ _ _ _ Ho Harr) as Hat'. simpl in Hat'.
  apply pm_qos_update_target_locked_inv in Hlocked as (_ & Hlist & _).
  pose proof (pm_qos_update_list_wf _ _ _ _ _ _ _ Hwf Hadd Hlist) as Hwf'.
  pose proof (pm_qos_update_list_req _ _ _ _ _ _ _ Hlist) as Hreq.
  exists cs'. split; [done|]. split; [done|]. split; [|split].
  - unfold pm_qos_update_list in Hlist.
    destruct action; injection Hlist as Hm Hl; by rewrite <- ?Hm, <- Hl.
  - intros Hne. unfold prio_of. rewrite Hreq. by destruct action.
  - intros first rest Hl. destruct Hwf' as [Hs' _].
    unfold plist_sorted, request_values in *. rewrite Hl in *. split.
    + by apply sorted_head_minimum.
    + rewrite plist_values_last. by apply sorted_last_maximum.
Qed.

Lemma C4_list_stays_ordered_witness :
  ∃ cs', constraints_at Sample.st_dma3 1 = Some cs' ∧
    plist_wf (mem Sample.st_dma3) (c_list cs') ∧
    c_list cs' = plist_add (mem Sample.st_dma3) 1 (plist_del 1 [2; 1]%nat) ∧
    (PM_QOS_UPDATE_REQ ≠ PM_QOS_REMOVE_REQ → prio_of (mem Sample.st_dma3) 1 = 20) ∧
    (∀ first rest, c_list cs' = first :: rest →
       is_minimum (prio_of (mem Sample.st_dma3) first)
         (request_values Sample.st_dma3 cs') ∧
       is_maximum (prio_of (mem Sample.st_dma3) (List.last (c_list cs') first))
         (request_values Sample.st_dma3 cs')).
Proof.
  apply (@C4_list_stays_ordered Sample.env Sample.st_dma2 1%nat
           (Sample.cs_at Sample.st_dma2 1) 1%nat PM_QOS_UPDATE_REQ 20 None 1
           Sample.st_dma3).
  - by vm_compute.
  - split; [closed_sorted|closed_nodup].
  - discriminate.
  - by vm_compute.
Defined.

(** ** A type without a per-CPU case *)

(** C5. On the memory bandwidth class, whose type is PM_QOS_SUM, adding a
    request that covers a CPU reaches the [BUG()] of
    [pm_qos_set_value_for_cpus]: its switch has no case for the sum type
    that [pm_qos_get_value] accepts. *)
Theorem C5_sum_type_reaches_BUG :
  c_type (Sample.cs_at Sample.boot 12) = PM_QOS_SUM ∧
  @pm_qos_update_target Sample.env 12 1 PM_QOS_ADD_REQ 100 None Sample.boot_bw
    = Fault BUG ∧
  @pm_qos_add_request Sample.env (Some 1%nat) 12%nat 100 Sample.boot = Fault BUG.
Proof. repeat apply conj; by vm_compute. Qed.

(** The same on any machine: a sum-type list in which some request covers
    a CPU makes [pm_qos_set_value_for_cpus] reach [BUG()], although
    [pm_qos_get_value] returns the sum for it. *)
Lemma pm_qos_set_value_for_cpus_sum_bug `{kernel_env} m c req :
  c_type c = PM_QOS_SUM → req ∈ c_list c →
  for_each_cpu (cpus_affine (m req)) ≠ [] →
  pm_qos_set_value_for_cpus m c = Fault BUG ∧
  pm_qos_get_value m c = Ok (wrap_s32 (Zsum (plist_values m (c_list c)))).
Proof.
  intros Ht Hin Hcpus. split.
  - unfold pm_qos_set_value_for_cpus. rewrite qos_val_of_bug; [done| |by exists req].
    rewrite Ht. unfold per_cpu_type. intros [?|[?|?]]; congruence.
  - apply pm_qos_get_value_sum; [|done]. intros Hnil. rewrite Hnil in Hin.
    by apply elem_of_nil in Hin.
Qed.

(** ** Frame *)

Lemma plist_values_ext m m' l :
  (∀ q, q ∈ l → m' q = m q) → plist_values m' l = plist_values m l.
Proof.
  intros Hext. unfold plist_values. apply map_ext_in. intros q Hq.
  unfold prio_of. f_equal. by apply Hext, list_elem_of_In.
Qed.

Lemma last_elem_of {A} (l : list A) (d : A) : l ≠ [] → List.last l d ∈ l.
Proof.
  induction l as [|x l IH]; [done|]. intros _. destruct l as [|y l].
  - set_solver.
  - change (List.last (x :: y :: l) d) with (List.last (y :: l) d).
    apply elem_of_cons. right. by apply IH.
Qed.

Lemma total_value_loop_ext m m' l a :
  (∀ q, q ∈ l → m' q = m q) →
  fold_left (fun total_value node => wrap_s32 (total_value + prio_of m' node)) l a
  = fold_left (fun total_value node => wrap_s32 (total_value + prio_of m node)) l a.
Proof.
  revert a; induction l as [|p l IH]; intros a Hext; [done|]. simpl.
  unfold prio_of at 2 4. rewrite (Hext p) by set_solver.
  apply IH. intros q Hq. apply Hext. set_solver.
Qed.

Lemma pm_qos_get_value_ext m m' c :
  (∀ q, q ∈ c_list c → m' q = m q) →
  pm_qos_get_value m' c = pm_qos_get_value m c.
Proof.
  intros Hext. unfold pm_qos_get_value.
  destruct (c_list c) as [|p l] eqn:Hl; [done|].
  unfold plist_head_empty, plist_last, plist_first.
  destruct (c_type c); try done.
  - unfold prio_of. rewrite Hext; [done|]. by apply last_elem_of.
  - unfold prio_of. rewrite Hext; [done|]. simpl. set_solver.
  - f_equal. by apply total_value_loop_ext.
  - unfold prio_of. rewrite Hext; [done|]. by apply last_elem_of.
Qed.

Lemma foldM_ext {A B} (f g : B → A → result B) l b :
  (∀ a b, a ∈ l → f b a = g b a) → foldM f l b = foldM g l b.
Proof.
  revert b; induction l as [|a l IH]; intros b Hext; [done|]. simpl.
  rewrite Hext by set_solver. destruct (g b a); [|done]. simpl.
  apply IH. intros a' b' Ha'. apply Hext. set_solver.
Qed.

Lemma qos_val_of_ext `{kernel_env} m m' c :
  (∀ q, q ∈ c_list c → m' q = m q) → qos_val_of m' c = qos_val_of m c.
Proof.
  intros Hext. unfold qos_val_of. apply foldM_ext.
  intros req qv Hreq. unfold prio_of. by rewrite (Hext req Hreq).
Qed.

(** C6. A [pm_qos_update_target] call on one class leaves every other
    slot of [pm_qos_array] as it was, and every request other than the one
    passed in; so a class whose list does not hold that request keeps its
    request values, its aggregate and its per-CPU values.  In the class
    itself only the list, [target_value] and [target_per_cpu] can change. *)
Theorem C6_other_classes_unchanged `{kernel_env} st c req action value np ret st' :
  pm_qos_update_target c req action value np st = Ok (ret, st') →
  (∀ c', c' ≠ c → pm_qos_array st' !! c' = pm_qos_array st !! c') ∧
  length (pm_qos_array st') = length (pm_qos_array st) ∧
  (∀ q, q ≠ req → mem st' q = mem st q) ∧
  allocated st' = allocated st ∧
  (∀ c' cs, c' ≠ c → constraints_at st c' = Some cs → req ∉ c_list cs →
     constraints_at st' c' = Some cs ∧
     request_values st' cs = request_values st cs ∧
     pm_qos_get_value (mem st') cs = pm_qos_get_value (mem st) cs ∧
     qos_val_of (mem st') cs = qos_val_of (mem st) cs) ∧
  (∃ o o' cs cs',
     pm_qos_array st !! c = Some o ∧ pm_qos_array st' !! c = Some o' ∧
     constraints o = Some cs ∧ constraints o' = Some cs' ∧
     minor o' = minor o ∧ default_value cs' = default_value cs ∧
     no_constraint_value cs' = no_constraint_value cs ∧
     c_type cs' = c_type cs ∧ notifiers cs' = notifiers cs).
Proof.
  intros Hrun.
  apply pm_qos_update_target_inv in Hrun
    as (o & cs & prev & curr & cs' & Ho & Hcs & Hlocked & Harr & Halloc & _).
  apply pm_qos_update_target_locked_inv in Hlocked
    as (_ & Hlist & _ & _ & Hdef & Hncv & Hty & Hnot & _).
  assert (Hmem : ∀ q, q ≠ req → mem st' q = mem st q).
  { intros q Hq. by eapply pm_qos_update_list_mem. }
  assert (Harr' : ∀ c', c' ≠ c → pm_qos_array st' !! c' = pm_qos_array st !! c').
  { intros c' Hc'. rewrite Harr. by apply list_lookup_insert_ne. }
  split; [done|]. split; [by rewrite Harr, length_insert|].
  split; [done|]. split; [done|]. split.
  - intros c' cs1 Hc' Hat Hnotin.
    assert (Hext : ∀ q, q ∈ c_list cs1 → mem st' q = mem st q).
    { intros q Hq. apply Hmem. intros ->. done. }
    split; [|split; [|split]].
    + unfold constraints_at in *. by rewrite Harr'.
    + by apply plist_values_ext.
    + by apply pm_qos_get_value_ext.
    + by apply qos_val_of_ext.
  - exists o, {| constraints := Some cs'; minor := minor o |}, cs, cs'.
    split; [done|]. split.
    { rewrite Harr. apply list_lookup_insert_eq. by apply lookup_lt_Some with o. }
    by repeat split.
Qed.

Lemma C6_other_classes_unchanged_witness :
  (∀ c', c' ≠ 1%nat →
     pm_qos_array Sample.st_dma3 !! c' = pm_qos_array Sample.st_dma2 !! c') ∧
  length (pm_qos_array Sample.st_dma3) = length (pm_qos_array Sample.st_dma2) ∧
  (∀ q, q ≠ 1%nat → mem Sample.st_dma3 q = mem Sample.st_dma2 q) ∧
  allocated Sample.st_dma3 = allocated Sample.st_dma2 ∧
  (∀ c' cs, c' ≠ 1%nat → constraints_at Sample.st_dma2 c' = Some cs →
     1%nat ∉ c_list cs →
     constraints_at Sample.st_dma3 c' = Some cs ∧
     request_values Sample.st_dma3 cs = request_values Sample.st_dma2 cs ∧
     pm_qos_get_value (mem Sample.st_dma3) cs
       = pm_qos_get_value (mem Sample.st_dma2) cs ∧
     @qos_val_of Sample.env (mem Sample.st_dma3) cs
       = @qos_val_of Sample.env (mem Sample.st_dma2) cs) ∧
  (∃ o o' cs cs',
     pm_qos_array Sample.st_dma2 !! 1%nat = Some o ∧
     pm_qos_array Sample.st_dma3 !! 1%nat = Some o' ∧
     constraints o = Some cs ∧ constraints o' = Some cs' ∧
     minor o' = minor o ∧ default_value cs' = default_value cs ∧
     no_constraint_value cs' = no_constraint_value cs ∧
     c_type cs' = c_type cs ∧ notifiers cs' = notifiers cs).
Proof.
  apply (@C6_other_classes_unchanged Sample.env Sample.st_dma2 1%nat 1%nat
           PM_QOS_UPDATE_REQ 20 None 1 Sample.st_dma3).
  by vm_compute.
Defined.

(** ** IRQ affinity *)

Lemma pm_qos_update_request_post `{kernel_env} st c req value np ret st' :
  pm_qos_update_target c req PM_QOS_UPDATE_REQ value np st = Ok (ret, st') →
  ∃ cs cs', constraints_at st c = Some cs ∧ constraints_at st' c = Some cs' ∧
    c_list cs' = plist_add (mem st') req (plist_del req (c_list cs)) ∧
    req ∈ c_list cs' ∧
    mem st' req = plist_node_init (mem st req) (new_value_of cs value) ∧
    pm_qos_get_value (mem st') cs' = Ok (target_value cs') ∧
    (length (target_per_cpu cs) = NR_CPUS →
     ∀ cpu, cpu ∈ for_each_possible_cpu →
       target_per_cpu cs' !! cpu = Some (per_cpu_aggregate (mem st') cs' cpu)).
Proof.
  intros Hrun.
  apply pm_qos_update_target_inv in Hrun
    as (o & cs & prev & curr & cs' & Ho & Hcs & Hlocked & Harr & _).
  pose proof (constraints_at_insert _ _ _ _ _ Ho Harr) as Hat'. simpl in Hat'.
  pose proof Hlocked as Hinv.
  apply pm_qos_update_target_locked_inv in Hinv as (_ & Hlist & Hcurr & Htv & _).
  pose proof (pm_qos_update_list_req _ _ _ _ _ _ _ Hlist) as Hreq. simpl in Hreq.
  assert (Hl : c_list cs' = plist_add (mem st') req (plist_del req (c_list cs))).
  { unfold pm_qos_update_list in Hlist. injection Hlist as Hm Hl. by rewrite <- Hm, <- Hl. }
  exists cs, cs'. split; [apply constraints_at_Some; by exists o|].
  split; [done|]. split; [done|]. split.
  { rewrite Hl. apply elem_of_plist_add. by left. }
  split; [done|]. split; [by rewrite Htv|].
  intros Hlen cpu Hcpu.
  destruct (pm_qos_update_target_locked_per_cpu _ _ _ _ _ _ _ _ _ Hlocked Hlen)
    as [_ Htpc].
  rewrite Htpc. by rewrite decide_True.
Qed.

(** C7. When [pm_qos_irq_notify] completes, the request's [cpus_affine] is
    the new mask, the call it made was [pm_qos_update_target] with the
    update action and the value the request had, the request is on its
    class's list with that value (the class default standing in for
    PM_QOS_DEFAULT_VALUE), and the per-CPU targets are recomputed with the
    new mask.  When [pm_qos_irq_release] completes, [cpus_affine] is all
    CPUs and the request has the class's default value. *)
Theorem C7_irq_affinity `{kernel_env} :
  (∀ st req mask st',
     pm_qos_irq_notify req mask st = Ok (tt, st') →
     cpus_affine (mem st' req) = mask ∧
     (∃ ret,
        (write_req req (set_cpus_affine (mem st req) mask);;
         pm_qos_update_target (pm_qos_class (mem st req)) req PM_QOS_UPDATE_REQ
           (node_prio (mem st req)) None) st = Ok (ret, st')) ∧
     ∃ cs cs',
       constraints_at st (pm_qos_class (mem st req)) = Some cs ∧
       constraints_at st' (pm_qos_class (mem st req)) = Some cs' ∧
       req ∈ c_list cs' ∧
       node_prio (mem st' req) = new_value_of cs (node_prio (mem st req)) ∧
       (node_prio (mem st req) ≠ PM_QOS_DEFAULT_VALUE →
        node_prio (mem st' req) = node_prio (mem st req)) ∧
       pm_qos_get_value (mem st') cs' = Ok (target_value cs') ∧
       (length (target_per_cpu cs) = NR_CPUS →
        ∀ cpu, cpu ∈ for_each_possible_cpu →
          target_per_cpu cs' !! cpu = Some (per_cpu_aggregate (mem st') cs' cpu))) ∧
  (∀ st req st',
     pm_qos_irq_release req st = Ok (tt, st') →
     cpus_affine (mem st' req) = cpumask_setall ∧
     ∃ cs cs',
       constraints_at st (pm_qos_class (mem st req)) = Some cs ∧
       constraints_at st' (pm_qos_class (mem st req)) = Some cs' ∧
       req ∈ c_list cs' ∧
       node_prio (mem st' req) = default_value cs ∧
       pm_qos_get_value (mem st') cs' = Ok (target_value cs') ∧
       (length (target_per_cpu cs) = NR_CPUS →
        ∀ cpu, cpu ∈ for_each_possible_cpu →
          target_per_cpu cs' !! cpu = Some (per_cpu_aggregate (mem st') cs' cpu))).
Proof.
  split.
  - intros st req mask st' Hrun.
    unfold pm_qos_irq_notify, mbind, M_bind, kbind, read_req, write_req,
      write_mem, kret in Hrun. simpl in Hrun.
    rewrite fn_lookup_insert in Hrun. simpl in Hrun.
    match type of Hrun with
    | match ?run with _ => _ end = _ => destruct run as [[ret st2]|] eqn:Hupd; [|done]
    end.
    injection Hrun as ->.
    destruct (pm_qos_update_request_post _ _ _ _ _ _ _ Hupd)
      as (cs & cs' & Hat & Hat' & Hl & Hin & Hreq & Hget & Hpc).
    simpl in Hreq. rewrite fn_lookup_insert in Hreq.
    split; [by rewrite Hreq|]. split.
    { exists ret. unfold mbind, M_bind, kbind, write_req, write_mem. simpl. done. }
    exists cs, cs'. split; [done|]. split; [done|]. split; [done|].
    split; [by rewrite Hreq|]. split.
    { intros Hne. rewrite Hreq. simpl. unfold new_value_of. by rewrite decide_False. }
    split; [done|]. done.
  - intros st req st' Hrun.
    unfold pm_qos_irq_release, mbind, M_bind, kbind, read_req, write_req,
      write_mem, kret in Hrun. simpl in Hrun.
    match type of Hrun with
    | match ?rc with _ => _ end = _ => destruct rc as [[cs0 st1]|] eqn:Hrc; [|done]
    end.
    match type of Hrun with
    | match ?run with _ => _ end = _ => destruct run as [[ret st2]|] eqn:Hupd; [|done]
    end.
    injection Hrun as ->.
    unfold read_constraints in Hrc. simpl in Hrc.
    destruct (pm_qos_array st !! pm_qos_class (mem st req)) as [[[cs1|] mn]|] eqn:Ho;
      try done.
    injection Hrc as <- <-.
    destruct (pm_qos_update_request_post _ _ _ _ _ _ _ Hupd)
      as (cs & cs' & Hat & Hat' & Hl & Hin & Hreq & Hget & Hpc).
    assert (cs = cs1) as ->.
    { unfold constraints_at in Hat. simpl in Hat. rewrite Ho in Hat. simpl in Hat. congruence. }
    simpl in Hreq. rewrite fn_lookup_insert in Hreq.
    split; [by rewrite Hreq|].
    exists cs1, cs'. split.
    { unfold constraints_at. by rewrite Ho. }
    split; [done|]. split; [done|]. split.
    { rewrite Hreq. simpl. unfold new_value_of. by destruct (decide _). }
    split; [done|]. done.
Qed.

Lemma C7_irq_affinity_witness :
  (cpus_affine (mem Sample.st_irq 2) = 3 ∧
   (∃ ret,
      (write_req 2 (set_cpus_affine (mem Sample.st_dma2 2) 3);;
       @pm_qos_update_target Sample.env (pm_qos_class (mem Sample.st_dma2 2)) 2
         PM_QOS_UPDATE_REQ (node_prio (mem Sample.st_dma2 2)) None) Sample.st_dma2
      = Ok (ret, Sample.st_irq)) ∧
   ∃ cs cs',
     constraints_at Sample.st_dma2 (pm_qos_class (mem Sample.st_dma2 2)) = Some cs ∧
     constraints_at Sample.st_irq (pm_qos_class (mem Sample.st_dma2 2)) = Some cs' ∧
     2%nat ∈ c_list cs' ∧
     node_prio (mem Sample.st_irq 2)
       = @new_value_of Sample.env cs (node_prio (mem Sample.st_dma2 2)) ∧
     (node_prio (mem Sample.st_dma2 2) ≠ @PM_QOS_DEFAULT_VALUE Sample.env →
      node_prio (mem Sample.st_irq 2) = node_prio (mem Sample.st_dma2 2)) ∧
     pm_qos_get_value (mem Sample.st_irq) cs' = Ok (target_value cs') ∧
     (length (target_per_cpu cs) = @NR_CPUS Sample.env →
      ∀ cpu, cpu ∈ @for_each_possible_cpu Sample.env →
        target_per_cpu cs' !! cpu
        = Some (per_cpu_aggregate (mem Sample.st_irq) cs' cpu))) ∧
  (cpus_affine (mem Sample.st_rel 2) = @cpumask_setall Sample.env ∧
   ∃ cs cs',
     constraints_at Sample.st_irq (pm_qos_class (mem Sample.st_irq 2)) = Some cs ∧
     constraints_at Sample.st_rel (pm_qos_class (mem Sample.st_irq 2)) = Some cs' ∧
     2%nat ∈ c_list cs' ∧
     node_prio (mem Sample.st_rel 2) = default_value cs ∧
     pm_qos_get_value (mem Sample.st_rel) cs' = Ok (target_value cs') ∧
     (length (target_per_cpu cs) = @NR_CPUS Sample.env →
      ∀ cpu, cpu ∈ @for_each_possible_cpu Sample.env →
        target_per_cpu cs' !! cpu
        = Some (per_cpu_aggregate (mem Sample.st_rel) cs' cpu))).
Proof.
  split.
  - apply (proj1 (@C7_irq_affinity Sample.env) Sample.st_dma2 2%nat 3 Sample.st_irq).
    by vm_compute.
  - apply (proj2 (@C7_irq_affinity Sample.env) Sample.st_irq 2%nat Sample.st_rel).
    by vm_compute.
Defined.

(** ** Device flags *)

Lemma flags_loop fm l a :
  fold_left (fun val r => Z.lor val (flags (fm r))) l a = Z.lor a (flags_or fm l).
Proof.
  revert a; induction l as [|r l IH]; intros a; simpl.
  - by rewrite Z.lor_0_r.
  - by rewrite IH, Z.lor_assoc.
Qed.

Lemma flags_or_ext fm fm' l :
  (∀ r, r ∈ l → fm' r = fm r) → flags_or fm' l = flags_or fm l.
Proof.
  induction l as [|r l IH]; intros Hext; [done|]. simpl.
  rewrite (Hext r) by set_solver. f_equal. apply IH.
  intros q Hq. apply Hext. set_solver.
Qed.

Lemma flags_or_app fm l1 l2 :
  flags_or fm (l1 ++ l2) = Z.lor (flags_or fm l1) (flags_or fm l2).
Proof.
  induction l1 as [|r l1 IH]; simpl; [done|]. by rewrite IH, Z.lor_assoc.
Qed.

Lemma pm_qos_flags_remove_req_inv fm pqf req :
  flags_inv fm (pm_qos_flags_remove_req fm pqf req).
Proof.
  unfold flags_inv, pm_qos_flags_remove_req. simpl. by rewrite flags_loop.
Qed.

Lemma pm_qos_flags_add_req_inv fm pqf req val fm' pqf' :
  flags_inv fm pqf → req ∉ f_list pqf →
  pm_qos_flags_add_req fm pqf req val = (fm', pqf') →
  flags_inv fm' pqf' ∧ f_list pqf' = f_list pqf ++ [req] ∧
  flags (fm' req) = val.
Proof.
  unfold flags_inv, pm_qos_flags_add_req, list_add_tail.
  intros Hinv Hnotin [= <- <-]. simpl.
  rewrite fn_lookup_insert. split; [|done].
  rewrite flags_or_app. simpl. rewrite fn_lookup_insert. simpl.
  rewrite Z.lor_0_r, Hinv. f_equal. symmetry. apply flags_or_ext.
  intros r Hr. apply fn_lookup_insert_ne. by intros ->.
Qed.

Lemma flags_value_inv fm pqf :
  flags_inv fm pqf → flags_value pqf = flags_or fm (f_list pqf).
Proof.
  unfold flags_inv, flags_value. intros ->. by destruct (f_list pqf).
Qed.

(** C8. [pm_qos_update_flags] keeps [effective_flags] equal to the bitwise
    OR of the flags of the requests in the set across every add, update
    and remove, and it returns true exactly when the effective value,
    taken as 0 for an empty set, differs before and after: that is, when
    the OR of the flags in the set changed. *)
Theorem C8_flags_invariant fm pqf req action val changed fm' pqf' :
  flags_inv fm pqf → NoDup (f_list pqf) →
  (action = PM_QOS_ADD_REQ → req ∉ f_list pqf) →
  pm_qos_update_flags fm pqf req action val = (changed, (fm', pqf')) →
  flags_inv fm' pqf' ∧ NoDup (f_list pqf') ∧
  f_list pqf' =
    match action with
    | PM_QOS_REMOVE_REQ => list_del req (f_list pqf)
    | PM_QOS_UPDATE_REQ => list_del req (f_list pqf) ++ [req]
    | PM_QOS_ADD_REQ => f_list pqf ++ [req]
    end ∧
  (action ≠ PM_QOS_REMOVE_REQ → flags (fm' req) = val) ∧
  (∀ r, r ≠ req → fm' r = fm r) ∧
  (changed = true ↔ flags_value pqf ≠ flags_value pqf') ∧
  (changed = true ↔ flags_or fm (f_list pqf) ≠ flags_or fm' (f_list pqf')).
Proof.
  intros Hinv Hnd Hadd Hrun. unfold pm_qos_update_flags in Hrun.
  assert (Hpost : flags_inv fm' pqf' ∧ NoDup (f_list pqf') ∧
    f_list pqf' =
      match action with
      | PM_QOS_REMOVE_REQ => list_del req (f_list pqf)
      | PM_QOS_UPDATE_REQ => list_del req (f_list pqf) ++ [req]
      | PM_QOS_ADD_REQ => f_list pqf ++ [req]
      end ∧
    (action ≠ PM_QOS_REMOVE_REQ → flags (fm' req) = val) ∧
    (∀ r, r ≠ req → fm' r = fm r) ∧
    changed = bool_decide (flags_value pqf ≠ flags_value pqf')).
  { destruct action.
    - destruct (pm_qos_flags_add_req fm pqf req val) as [fm1 pqf1] eqn:Hq.
      injection Hrun as <- <- <-.
      destruct (pm_qos_flags_add_req_inv _ _ _ _ _ _ Hinv (Hadd eq_refl) Hq)
        as (Hinv' & Hl & Hf).
      split; [done|]. split.
      { rewrite Hl. apply NoDup_app. split; [done|]. split; [|apply NoDup_singleton].
        intros x Hx Hx'. apply list_elem_of_singleton in Hx' as ->. by apply Hadd. }
      split; [done|]. split; [done|]. split; [|done].
      intros r Hr. injection Hq as <- _. by apply fn_lookup_insert_ne.
    - pose proof (pm_qos_flags_remove_req_inv fm pqf req) as Hinv1.
      pose proof (plist_del_gone req (f_list pqf) Hnd) as Hgone.
      destruct (pm_qos_flags_add_req fm (pm_qos_flags_remove_req fm pqf req) req val)
        as [fm1 pqf1] eqn:Hq.
      injection Hrun as <- <- <-.
      destruct (pm_qos_flags_add_req_inv _ _ _ _ _ _ Hinv1 Hgone Hq)
        as (Hinv' & Hl & Hf).
      split; [done|]. split.
      { rewrite Hl. apply NoDup_app. split; [by apply NoDup_plist_del|].
        split; [|apply NoDup_singleton].
        intros x Hx Hx'. by apply list_elem_of_singleton in Hx' as ->. }
      split; [done|]. split; [done|]. split; [|done].
      intros r Hr. injection Hq as <- _. by apply fn_lookup_insert_ne.
    - injection Hrun as <- <- <-.
      split; [apply pm_qos_flags_remove_req_inv|].
      split; [by apply NoDup_plist_del|]. by repeat split. }
  destruct Hpost as (Hinv' & Hnd' & Hl & Hf & Hfr & Hch).
  repeat (split; [done|]).
  assert (changed = true ↔ flags_value pqf ≠ flags_value pqf') as Hiff.
  { rewrite Hch. apply bool_decide_eq_true. }
  split; [done|].
  by rewrite Hiff, (flags_value_inv _ _ Hinv), (flags_value_inv _ _ Hinv').
Qed.

Lemma C8_flags_invariant_witness :
  flags_inv (fst (snd Sample.flags_updated)) (snd (snd Sample.flags_updated)) ∧
  NoDup (f_list (snd (snd Sample.flags_updated))) ∧
  f_list (snd (snd Sample.flags_updated)) = list_del 2 (f_list Sample.pqf) ++ [2%nat] ∧
  (PM_QOS_UPDATE_REQ ≠ PM_QOS_REMOVE_REQ →
   flags (fst (snd Sample.flags_updated) 2%nat) = 4) ∧
  (∀ r, r ≠ 2%nat → fst (snd Sample.flags_updated) r = Sample.flag_mem r) ∧
  (fst Sample.flags_updated = true ↔
   flags_value Sample.pqf ≠ flags_value (snd (snd Sample.flags_updated))) ∧
  (fst Sample.flags_updated = true ↔
   flags_or Sample.flag_mem (f_list Sample.pqf) ≠
   flags_or (fst (snd Sample.flags_updated)) (f_list (snd (snd Sample.flags_updated)))).
Proof.
  apply (C8_flags_invariant Sample.flag_mem Sample.pqf 2%nat PM_QOS_UPDATE_REQ 4).
  - by vm_compute.
  - closed_nodup.
  - discriminate.
  - by vm_compute.
Defined.

(** ** Guards of the request API *)

(** C9. [pm_qos_add_request] on a request that is already active, and
    [pm_qos_update_request] and [pm_qos_remove_request] on a request that
    is not active, return at once: the state they leave is the state they
    were given, with every list, target value, per-CPU target and request
    untouched.  A NULL request is treated the same way. *)
Theorem C9_guarded_calls_are_noops `{kernel_env} st req :
  (∀ cls value, pm_qos_request_active (mem st req) = true →
     pm_qos_add_request (Some req) cls value st = Ok (tt, st)) ∧
  (∀ value, pm_qos_request_active (mem st req) = false →
     pm_qos_update_request (Some req) value st = Ok (tt, st)) ∧
  (pm_qos_request_active (mem st req) = false →
     pm_qos_remove_request (Some req) st = Ok (tt, st)) ∧
  (∀ cls value, pm_qos_add_request None cls value st = Ok (tt, st)) ∧
  (∀ value, pm_qos_update_request None value st = Ok (tt, st)) ∧
  pm_qos_remove_request None st = Ok (tt, st).
Proof.
  repeat apply conj; try done.
  - intros cls value Hact.
    unfold pm_qos_add_request, pm_qos_add_request_trace, mbind, M_bind, kbind, read_req.
    by rewrite Hact.
  - intros value Hact.
    unfold pm_qos_update_request, mbind, M_bind, kbind, read_req.
    by rewrite Hact.
  - intros Hact.
    unfold pm_qos_remove_request, mbind, M_bind, kbind, read_req.
    by rewrite Hact.
Qed.

Lemma C9_guarded_calls_are_noops_witness :
  @pm_qos_add_request Sample.env (Some 2%nat) 1%nat 70 Sample.st_dma2
    = Ok (tt, Sample.st_dma2) ∧
  @pm_qos_update_request Sample.env (Some 9%nat) 70 Sample.st_dma2
    = Ok (tt, Sample.st_dma2) ∧
  @pm_qos_remove_request Sample.env (Some 9%nat) Sample.st_dma2
    = Ok (tt, Sample.st_dma2).
Proof.
  split; [|split].
  - apply (proj1 (@C9_guarded_calls_are_noops Sample.env Sample.st_dma2 2%nat)).
    by vm_compute.
  - apply (proj1 (proj2 (@C9_guarded_calls_are_noops Sample.env Sample.st_dma2 9%nat))).
    by vm_compute.
  - apply (proj1 (proj2 (proj2
             (@C9_guarded_calls_are_noops Sample.env Sample.st_dma2 9%nat)))).
    by vm_compute.
Defined.

(** ** The misc-device files *)

Lemma find_minor_from_spec objs start mn :
  find_minor_from objs start mn = -1 ∧ (∀ o, o ∈ objs → minor o ≠ mn) ∨
  ∃ i o, find_minor_from objs start mn = Z.of_nat (start + i) ∧
         objs !! i = Some o ∧ minor o = mn.
Proof.
  revert start; induction objs as [|o objs IH]; intros start; simpl.
  - left. split; [done|]. intros o Ho. by apply elem_of_nil in Ho.
  - destruct (decide (mn = minor o)) as [->|Hne].
    + right. exists 0%nat, o. split; [f_equal; lia|done].
    + destruct (IH (S start)) as [[Hnone Hall]|(i & o' & Hfind & Hi & Hmn)].
      * left. split; [done|]. intros o' Ho'.
        apply elem_of_cons in Ho' as [->|Ho']; [done|by apply Hall].
      * right. exists (S i), o'. split; [rewrite Hfind; f_equal; lia|done].
Qed.

Lemma pm_qos_power_open_no_class `{kernel_env} iminor answer filp st :
  find_minor_from (drop PM_QOS_CPU_DMA_LATENCY (pm_qos_array st))
    PM_QOS_CPU_DMA_LATENCY iminor = -1 →
  pm_qos_power_open iminor answer filp st = Ok ((- EPERM, filp), st).
Proof.
  intros Hfind.
  unfold pm_qos_power_open, mbind, M_bind, kbind, find_pm_qos_object_by_minor.
  rewrite Hfind. by rewrite decide_False by (unfold PM_QOS_CPU_DMA_LATENCY; lia).
Qed.

Lemma pm_qos_power_open_no_memory `{kernel_env} iminor filp st :
  Z.of_nat PM_QOS_CPU_DMA_LATENCY <=
    find_minor_from (drop PM_QOS_CPU_DMA_LATENCY (pm_qos_array st))
      PM_QOS_CPU_DMA_LATENCY iminor →
  pm_qos_power_open iminor None filp st = Ok ((- ENOMEM, filp), st).
Proof.
  intros Hfind.
  unfold pm_qos_power_open, mbind, M_bind, kbind, find_pm_qos_object_by_minor.
  by rewrite decide_True by done.
Qed.

(** What a completed open has done: the block is allocated, the request
    is on the list of the class found, at the class's default value, for
    all CPUs, and the target is the aggregate of the new list. *)
Lemma pm_qos_power_open_added `{kernel_env} iminor p filp st r st' :
  Z.of_nat PM_QOS_CPU_DMA_LATENCY <=
    find_minor_from (drop PM_QOS_CPU_DMA_LATENCY (pm_qos_array st))
      PM_QOS_CPU_DMA_LATENCY iminor →
  pm_qos_power_open iminor (Some p) filp st = Ok (r, st') →
  let cls := Z.to_nat (find_minor_from (drop PM_QOS_CPU_DMA_LATENCY (pm_qos_array st))
                         PM_QOS_CPU_DMA_LATENCY iminor) in
  r = (0, {| private_data := Some p |}) ∧
  allocated st' = {[p]} ∪ allocated st ∧
  ∃ cs cs',
    constraints_at st cls = Some cs ∧ constraints_at st' cls = Some cs' ∧
    c_list cs' = plist_add (mem st') p (c_list cs) ∧
    node_prio (mem st' p) = default_value cs ∧
    pm_qos_class (mem st' p) = cls ∧
    cpus_affine (mem st' p) = cpumask_setall ∧
    pm_qos_get_value (mem st') cs' = Ok (target_value cs').
Proof.
  intros Hfind Hrun cls.
  unfold pm_qos_power_open, mbind, M_bind, kbind, find_pm_qos_object_by_minor in Hrun.
  rewrite decide_True in Hrun by done. fold cls in Hrun.
  unfold kzalloc, pm_qos_add_request, pm_qos_add_request_trace,
    pm_qos_add_request_affinity in Hrun.
  kstep_in Hrun.
  match type of Hrun with
  | match (match ?run with _ => _ end) with _ => _ end = _ =>
      destruct run as [[ret st2]|] eqn:Hupd; [|done]
  end.
  injection Hrun as <- <-.
  apply pm_qos_update_target_inv in Hupd
    as (o & cs & prev & curr & cs' & Ho & Hcs & Hlocked & Harr & Halloc & _).
  simpl in Ho, Harr, Halloc, Hlocked.
  pose proof (constraints_at_insert
                {| pm_qos_array := pm_qos_array st; mem := mem st;
                   allocated := allocated st; notifier_calls := notifier_calls st |}
                st2 cls o _ Ho Harr) as Hat'. simpl in Hat'.
  apply pm_qos_update_target_locked_inv in Hlocked as (_ & Hlist & Hcurr & Htv & _).
  unfold pm_qos_update_list in Hlist. injection Hlist as Hm Hl.
  split; [done|]. split; [done|]. exists cs, cs'.
  split; [apply constraints_at_Some; by exists o|]. split; [done|].
  split; [by rewrite <- Hm, <- Hl|].
  assert (Hp : mem st2 p =
               plist_node_init
                 (set_work_pending
                    (set_pm_qos_class (set_cpus_affine zero_request cpumask_setall) cls)
                    false) (default_value cs)).
  { rewrite <- Hm. rewrite !fn_lookup_insert. unfold new_value_of.
    by rewrite decide_True. }
  rewrite Hp. simpl. repeat (split; [done|]). by rewrite Htv.
Qed.

Lemma pm_qos_power_release_removed `{kernel_env} p filp st r st' :
  private_data filp = Some p →
  pm_qos_request_active (mem st p) = true →
  pm_qos_power_release filp st = Ok (r, st') →
  r = 0 ∧ allocated st' = allocated st ∖ {[p]} ∧
  mem st' p = zero_request ∧ (∀ q, q ≠ p → mem st' q = mem st q) ∧
  ∃ cs cs',
    constraints_at st (pm_qos_class (mem st p)) = Some cs ∧
    constraints_at st' (pm_qos_class (mem st p)) = Some cs' ∧
    c_list cs' = plist_del p (c_list cs) ∧
    (NoDup (c_list cs) →
     (p ∉ c_list cs') ∧ pm_qos_get_value (mem st') cs' = Ok (target_value cs')).
Proof.
  intros Hpd Hact Hrun.
  unfold pm_qos_power_release, pm_qos_remove_request, kfree,
    cancel_delayed_work_sync in Hrun.
  rewrite Hpd in Hrun. kstep_in Hrun. rewrite Hact in Hrun. simpl in Hrun.
  assert (Hgen : ∀ st1 ret st2,
    pm_qos_array st1 = pm_qos_array st → allocated st1 = allocated st →
    (∀ q, q ≠ p → mem st1 q = mem st q) →
    pm_qos_update_target (pm_qos_class (mem st p)) p PM_QOS_REMOVE_REQ
      PM_QOS_DEFAULT_VALUE None st1 = Ok (ret, st2) →
    allocated st2 = allocated st ∧ (∀ q, q ≠ p → mem st2 q = mem st q) ∧
    ∃ cs cs',
      constraints_at st (pm_qos_class (mem st p)) = Some cs ∧
      pm_qos_array st2 !! pm_qos_class (mem st p)
        = Some {| constraints := Some cs';
                  minor := default 0 (minor <$> pm_qos_array st !! pm_qos_class (mem st p)) |} ∧
      c_list cs' = plist_del p (c_list cs) ∧
      (NoDup (c_list cs) →
       (p ∉ c_list cs') ∧
       ∀ m, (∀ q, q ≠ p → m q = mem st2 q) →
            pm_qos_get_value m cs' = Ok (target_value cs'))).
  { intros st1 ret st2 Harr1 Hall1 Hmem1 Hupd.
    apply pm_qos_update_target_inv in Hupd
      as (o & cs & prev & curr & cs' & Ho & Hcs & Hlocked & Harr & Halloc & _).
    rewrite Harr1 in Ho, Harr.
    apply pm_qos_update_target_locked_inv in Hlocked as (_ & Hlist & Hcurr & Htv & _).
    unfold pm_qos_update_list in Hlist. injection Hlist as Hm Hl.
    split; [congruence|]. split.
    { intros q Hq. rewrite <- Hm. by apply Hmem1. }
    exists cs, cs'. split; [apply constraints_at_Some; by exists o|]. split.
    { rewrite Harr, Ho. simpl. apply list_lookup_insert_eq. by apply lookup_lt_Some with o. }
    split; [done|]. intros Hnd.
    assert (p ∉ c_list cs') as Hgone by (rewrite <- Hl; by apply plist_del_gone).
    split; [done|]. intros m Hm'. rewrite Htv, <- Hcurr.
    apply pm_qos_get_value_ext. intros q Hq. apply Hm'. by intros ->. }
  destruct (work_pending (mem st p)) eqn:Hw; kstep_in Hrun.
  - match type of Hrun with
    | match (match ?run with _ => _ end) with _ => _ end = _ =>
        destruct run as [[ret st2]|] eqn:Hupd; [|done]
    end.
    kstep_in Hrun. injection Hrun as <- <-. simpl.
    apply Hgen in Hupd; simpl; try done; cycle 1.
    { intros q Hq. by apply fn_lookup_insert_ne. }
    destruct Hupd as (Hall2 & Hmem2 & cs & cs' & Hat & Ho2 & Hl & Hnd).
    split; [done|]. split; [by rewrite Hall2|]. rewrite fn_lookup_insert.
    split; [done|]. split.
    { intros q Hq. rewrite fn_lookup_insert_ne by done. by apply Hmem2. }
    exists cs, cs'. split; [done|]. split.
    { unfold constraints_at. simpl. by rewrite Ho2. }
    split; [done|]. intros Hnodup. destruct (Hnd Hnodup) as [Hgone Hval].
    split; [done|]. apply Hval. intros q Hq. by apply fn_lookup_insert_ne.
  - match type of Hrun with
    | match (match ?run with _ => _ end) with _ => _ end = _ =>
        destruct run as [[ret st2]|] eqn:Hupd; [|done]
    end.
    kstep_in Hrun. injection Hrun as <- <-. simpl.
    apply Hgen in Hupd; simpl; try done.
    destruct Hupd as (Hall2 & Hmem2 & cs & cs' & Hat & Ho2 & Hl & Hnd).
    split; [done|]. split; [by rewrite Hall2|]. rewrite fn_lookup_insert.
    split; [done|]. split.
    { intros q Hq. rewrite fn_lookup_insert_ne by done. by apply Hmem2. }
    exists cs, cs'. split; [done|]. split.
    { unfold constraints_at. simpl. by rewrite Ho2. }
    split; [done|]. intros Hnodup. destruct (Hnd Hnodup) as [Hgone Hval].
    split; [done|]. apply Hval. intros q Hq. by apply fn_lookup_insert_ne.
Qed.

(** On a class whose type has a per-CPU case (and, for a forced maximum,
    a notifier head) the open completes. *)
Lemma pm_qos_power_open_completes `{kernel_env} iminor p filp st cs :
  Z.of_nat PM_QOS_CPU_DMA_LATENCY <=
    find_minor_from (drop PM_QOS_CPU_DMA_LATENCY (pm_qos_array st))
      PM_QOS_CPU_DMA_LATENCY iminor →
  constraints_at st
    (Z.to_nat (find_minor_from (drop PM_QOS_CPU_DMA_LATENCY (pm_qos_array st))
                 PM_QOS_CPU_DMA_LATENCY iminor)) = Some cs →
  per_cpu_type (c_type cs) →
  (c_type cs = PM_QOS_FORCE_MAX → notifiers cs ≠ None) →
  ∃ st', pm_qos_power_open iminor (Some p) filp st
         = Ok ((0, {| private_data := Some p |}), st').
Proof.
  intros Hfind Hat Hty Hnot.
  unfold pm_qos_power_open, find_pm_qos_object_by_minor, kzalloc,
    pm_qos_add_request, pm_qos_add_request_trace, pm_qos_add_request_affinity.
  repeat first
    [ progress (unfold mbind, M_bind, kbind, read_req, write_req, write_mem,
                  kret; simpl)
    | rewrite fn_lookup_insert
    | rewrite decide_True by done ].
  match goal with
  | |- ∃ _, match (match ?run with _ => _ end) with _ => _ end = _ =>
      destruct run as [[ret st2]|] eqn:Hupd
  end.
  - by eexists.
  - exfalso.
    match type of Hupd with
    | pm_qos_update_target ?c ?req ?a ?v ?np ?st1 = _ =>
        destruct (pm_qos_update_target_total c req a v np st1 cs) as (r1 & s1 & Hok);
          [done|done|done|congruence]
    end.
Qed.

(** C10. On the memory bandwidth class the open does not return: the
    file's minor is found, the block is allocated, and adding the request
    at PM_QOS_DEFAULT_VALUE reaches the [BUG()] of
    [pm_qos_set_value_for_cpus], the class being of the sum type.  On a
    class of another type the same open returns 0. *)
Theorem C10_open_memory_bandwidth_reaches_BUG :
  find_minor_from (drop PM_QOS_CPU_DMA_LATENCY (pm_qos_array Sample.boot))
    PM_QOS_CPU_DMA_LATENCY 62 = 12 ∧
  c_type (Sample.cs_at Sample.boot 12) = PM_QOS_SUM ∧
  @pm_qos_power_open Sample.env 62 (Some 5%nat) {| private_data := None |}
    Sample.boot = Fault BUG ∧
  (∃ st', @pm_qos_power_open Sample.env 51 (Some 5%nat) {| private_data := None |}
            Sample.boot = Ok ((0, {| private_data := Some 5%nat |}), st')).
Proof.
  repeat apply conj; try by vm_compute.
  apply (@pm_qos_power_open_completes Sample.env 51 5%nat _ Sample.boot
           (Sample.cs_at Sample.boot 1)).
  - by vm_compute.
  - by vm_compute.
  - left. by vm_compute.
  - by vm_compute.
Qed.

(** * Further properties of qos.c *)

(** ** Looking a request up *)

Lemma read_req_value_from_spec `{kernel_errno} m l req :
  read_req_value_from m l req =
  if decide (req ∈ l) then prio_of m req else - ENODATA.
Proof.
  induction l as [|p l IH]; simpl.
  - done.
  - destruct (decide (req = p)) as [->|Hne].
    + rewrite decide_True; [done|]. set_solver.
    + rewrite IH. destruct (decide (req ∈ l)).
      * rewrite decide_True; [done|]. set_solver.
      * rewrite decide_False; [done|]. set_solver.
Qed.

(** The value read for a request, on the list or not. *)
Lemma pm_qos_read_req_value_found `{kernel_errno} st c cs req :
  constraints_at st c = Some cs →
  pm_qos_read_req_value c req st =
  Ok (if decide (req ∈ c_list cs) then node_prio (mem st req) else - ENODATA, st).
Proof.
  intros Hat. unfold pm_qos_read_req_value, mbind, M_bind, kbind.
  rewrite (read_constraints_at _ _ _ Hat). unfold read_mem, kret.
  by rewrite read_req_value_from_spec.
Qed.

(** After a completed add or update the value read back for the request
    is the value given (the class default for [PM_QOS_DEFAULT_VALUE]);
    after a completed remove from a well-formed list it is [-ENODATA]. *)
Theorem pm_qos_read_req_value_after_update `{kernel_env} `{kernel_errno}
    st c cs req action value np ret st' :
  constraints_at st c = Some cs → NoDup (c_list cs) →
  pm_qos_update_target c req action value np st = Ok (ret, st') →
  pm_qos_read_req_value c req st' =
  Ok (match action with
      | PM_QOS_REMOVE_REQ => - ENODATA
      | _ => new_value_of cs value
      end, st').
Proof.
  intros Hat Hnd Hrun.
  apply pm_qos_update_target_inv in Hrun
    as (o & cs0 & prev & curr & cs' & Ho & Hcs0 & Hlocked & Harr & _).
  assert (cs0 = cs) as ->.
  { apply constraints_at_Some in Hat as (o' & Ho' & Hcs'). congruence. }
  pose proof (constraints_at_insert _ _ _ _ _ Ho Harr) as Hat'. simpl in Hat'.
  apply pm_qos_update_target_locked_inv in Hlocked as (_ & Hlist & _).
  rewrite (pm_qos_read_req_value_found _ _ _ _ Hat').
  pose proof (pm_qos_update_list_elem _ _ _ _ _ _ _ req Hnd Hlist) as Helem.
  pose proof (pm_qos_update_list_req _ _ _ _ _ _ _ Hlist) as Hreq.
  destruct action.
  - rewrite decide_True by (apply Helem; by left). by rewrite Hreq.
  - rewrite decide_True by (apply Helem; by left). by rewrite Hreq.
  - rewrite decide_False; [done|]. rewrite Helem. tauto.
Qed.

(** ** Consistency of the state *)

Lemma plist_values_prio_ext m m' l :
  (∀ q, q ∈ l → node_prio (m' q) = node_prio (m q)) →
  plist_values m' l = plist_values m l.
Proof.
  intros Hext. unfold plist_values. apply map_ext_in. intros q Hq.
  unfold prio_of. by apply Hext, list_elem_of_In.
Qed.

Lemma constraints_at_array st st' c :
  pm_qos_array st' = pm_qos_array st → constraints_at st' c = constraints_at st c.
Proof. unfold constraints_at. by intros ->. Qed.

(** A change of memory that keeps the value and the class of every listed
    request keeps the state consistent. *)
Lemma kstate_inv_frame `{kernel_env} st st2 :
  kstate_inv st → pm_qos_array st2 = pm_qos_array st →
  (∀ c cs q, constraints_at st c = Some cs → q ∈ c_list cs →
     node_prio (mem st2 q) = node_prio (mem st q) ∧
     pm_qos_class (mem st2 q) = pm_qos_class (mem st q)) →
  kstate_inv st2.
Proof.
  intros [Hnull Hinv] Harr Hmem. split.
  - by rewrite (constraints_at_array _ _ _ Harr).
  - intros c cs Hat. rewrite (constraints_at_array _ _ _ Harr) in Hat.
    destruct (Hinv c cs Hat) as ((Hs & Hnd) & Htag & Hlen).
    split; [split; [|done]|split; [|done]].
    + unfold plist_sorted. rewrite (plist_values_prio_ext (mem st)); [done|].
      intros q Hq. by apply (Hmem c cs q).
    + intros q Hq. destruct (Hmem c cs q Hat Hq) as [_ ->]. by apply Htag.
Qed.

(** A request whose class field is 0 is on no list. *)
Lemma kstate_inv_inactive `{kernel_env} st req c cs :
  kstate_inv st → pm_qos_class (mem st req) = 0%nat →
  constraints_at st c = Some cs → req ∉ c_list cs.
Proof.
  intros [Hnull Hinv] Hcls Hat Hin.
  destruct (Hinv c cs Hat) as (_ & Htag & _).
  rewrite (Htag req Hin) in Hcls. subst c. congruence.
Qed.

(** Consistency across [pm_qos_update_target]. *)
Lemma kstate_inv_update_target `{kernel_env}
    st c req action value np ret st' :
  kstate_inv st →
  (action ≠ PM_QOS_REMOVE_REQ → pm_qos_class (mem st req) = c) →
  (action = PM_QOS_ADD_REQ →
   ∀ cs, constraints_at st c = Some cs → req ∉ c_list cs) →
  pm_qos_update_target c req action value np st = Ok (ret, st') →
  kstate_inv st'.
Proof.
  intros [Hnull Hinv] Hcls Hadd Hrun.
  apply pm_qos_update_target_inv in Hrun
    as (o & cs & prev & curr & cs' & Ho & Hcs & Hlocked & Harr & _).
  assert (Hat : constraints_at st c = Some cs).
  { apply constraints_at_Some. by exists o. }
  assert (Hc0 : c ≠ 0%nat) by (intros ->; congruence).
  pose proof (constraints_at_insert _ _ _ _ _ Ho Harr) as Hat'. simpl in Hat'.
  destruct (Hinv c cs Hat) as (Hwf & Htag & Hlen).
  destruct (pm_qos_update_target_locked_per_cpu _ _ _ _ _ _ _ _ _ Hlocked Hlen)
    as [Hlen' _].
  apply pm_qos_update_target_locked_inv in Hlocked as (_ & Hlist & _).
  assert (Hother : ∀ c', c' ≠ c → constraints_at st' c' = constraints_at st c').
  { intros c' Hc'. unfold constraints_at. rewrite Harr.
    by rewrite list_lookup_insert_ne. }
  pose proof (pm_qos_update_list_req _ _ _ _ _ _ _ Hlist) as Hreq.
  assert (Hmem : ∀ q, q ≠ req → mem st' q = mem st q).
  { intros q Hq. by eapply pm_qos_update_list_mem. }
  assert (Hclass : ∀ q, pm_qos_class (mem st' q) = pm_qos_class (mem st q)).
  { intros q. destruct (decide (q = req)) as [->|Hq]; [|by rewrite Hmem].
    rewrite Hreq. by destruct action. }
  split; [by rewrite Hother|].
  intros c1 cs1 Hat1. destruct (decide (c1 = c)) as [->|Hne].
  - assert (cs1 = cs') as -> by congruence.
    split; [|split; [|done]].
    + eapply pm_qos_update_list_wf; [exact Hwf| |exact Hlist].
      intros Ha. by apply Hadd.
    + intros q Hq. rewrite Hclass.
      apply (pm_qos_update_list_elem _ _ _ _ _ _ _ q (proj2 Hwf) Hlist) in Hq.
      destruct action.
      * destruct Hq as [->|Hq]; [by apply Hcls|by apply Htag].
      * destruct Hq as [->|Hq]; [by apply Hcls|by apply Htag].
      * destruct Hq as [Hq _]. by apply Htag.
  - rewrite (Hother c1 Hne) in Hat1.
    destruct (Hinv c1 cs1 Hat1) as ((Hs1 & Hnd1) & Htag1 & Hlen1).
    split; [split; [|done]|split; [|done]].
    + unfold plist_sorted. rewrite (plist_values_prio_ext (mem st)); [done|].
      intros q Hq. destruct (decide (q = req)) as [->|Hq']; [|by rewrite Hmem].
      rewrite Hreq. destruct action; try done.
      * exfalso. apply Hne. rewrite <- (Htag1 req Hq). by apply Hcls.
      * exfalso. apply Hne. rewrite <- (Htag1 req Hq). by apply Hcls.
    + intros q Hq. rewrite Hclass. by apply Htag1.
Qed.

(** What the affinity switch of [pm_qos_add_request_trace] can touch: the
    type, the mask and the notifier fields of the request, nothing else. *)
Lemma pm_qos_add_request_affinity_spec `{kernel_env} st req :
  ∃ st1, pm_qos_add_request_affinity req st = Ok (tt, st1) ∧
    pm_qos_array st1 = pm_qos_array st ∧ allocated st1 = allocated st ∧
    notifier_calls st1 = notifier_calls st ∧
    (∀ q, q ≠ req → mem st1 q = mem st q) ∧
    node_prio (mem st1 req) = node_prio (mem st req) ∧
    pm_qos_class (mem st1 req) = pm_qos_class (mem st req) ∧
    work_pending (mem st1 req) = work_pending (mem st req) ∧
    (r_type (mem st req) = PM_QOS_REQ_ALL_CORES →
     cpus_affine (mem st1 req) = cpumask_setall).
Proof.
  unfold pm_qos_add_request_affinity, mbind, M_bind, kbind, read_req.
  destruct (r_type (mem st req)) eqn:Hty.
  - eexists; split; [done|]. simpl. rewrite fn_lookup_insert.
    repeat split; try done. intros q Hq. by rewrite fn_lookup_insert_ne.
  - destruct (cpumask_empty (cpus_affine (mem st req))).
    + eexists; split; [done|]. simpl. rewrite fn_lookup_insert.
      repeat split; try done. intros q Hq. by rewrite fn_lookup_insert_ne.
    + eexists; split; [done|]. by repeat split.
  - destruct (irq_can_set_affinity (irq (mem st req))).
    + unfold write_req, write_mem. simpl.
      destruct (decide (irq_set_affinity_notifier (irq (mem st req)) true ≠ 0)).
      * eexists; split; [done|]. simpl. rewrite fn_lookup_insert.
        repeat split; try done. intros q Hq. by rewrite !fn_lookup_insert_ne.
      * eexists; split; [done|]. simpl. rewrite fn_lookup_insert.
        repeat split; try done. intros q Hq. by rewrite fn_lookup_insert_ne.
    + eexists; split; [done|]. simpl. rewrite fn_lookup_insert.
      repeat split; try done. intros q Hq. by rewrite fn_lookup_insert_ne.
  - eexists; split; [done|]. simpl. rewrite fn_lookup_insert.
    repeat split; try done. intros q Hq. by rewrite fn_lookup_insert_ne.
Qed.

(** An add on an inactive request is the affinity switch, the setting of
    the class, and [pm_qos_update_target] with the add action. *)
Lemma pm_qos_add_request_inv `{kernel_env} st req cls value st' :
  pm_qos_request_active (mem st req) = false →
  pm_qos_add_request (Some req) cls value st = Ok (tt, st') →
  ∃ st2 ret,
    pm_qos_array st2 = pm_qos_array st ∧ allocated st2 = allocated st ∧
    notifier_calls st2 = notifier_calls st ∧
    (∀ q, q ≠ req → mem st2 q = mem st q) ∧
    node_prio (mem st2 req) = node_prio (mem st req) ∧
    pm_qos_class (mem st2 req) = cls ∧
    (r_type (mem st req) = PM_QOS_REQ_ALL_CORES →
     cpus_affine (mem st2 req) = cpumask_setall) ∧
    pm_qos_update_target cls req PM_QOS_ADD_REQ value None st2 = Ok (ret, st').
Proof.
  intros Hact Hrun.
  unfold pm_qos_add_request, pm_qos_add_request_trace in Hrun.
  unfold mbind, M_bind, kbind in Hrun. unfold read_req at 1 in Hrun.
  rewrite Hact in Hrun.
  destruct (pm_qos_add_request_affinity_spec st req)
    as (st1 & Haff & Harr & Hall & Hcalls & Hmem & Hprio & Hcls & Hwork & Hmask).
  rewrite Haff in Hrun. unfold read_req, write_req, write_mem in Hrun. simpl in Hrun.
  match type of Hrun with
  | match ?run with _ => _ end = _ => destruct run as [[ret st3]|] eqn:Hupd; [|done]
  end.
  injection Hrun as <-. eexists _, ret. split; [|split; [|split; [|split; [|split;
    [|split; [|split; [|exact Hupd]]]]]]]; simpl; try done.
  - intros q Hq. rewrite fn_lookup_insert_ne by done. by apply Hmem.
  - by rewrite fn_lookup_insert.
  - by rewrite fn_lookup_insert.
  - intros Hty. rewrite fn_lookup_insert. simpl. by apply Hmask.
Qed.

(** Consistency across [pm_qos_add_request]. *)
Lemma kstate_inv_add_request `{kernel_env} st req cls value st' :
  kstate_inv st →
  pm_qos_add_request req cls value st = Ok (tt, st') →
  kstate_inv st'.
Proof.
  intros Hinv Hrun. destruct req as [req|]; cycle 1.
  { unfold pm_qos_add_request, pm_qos_add_request_trace, kret in Hrun. congruence. }
  destruct (pm_qos_request_active (mem st req)) eqn:Hact.
  { unfold pm_qos_add_request, pm_qos_add_request_trace, mbind, M_bind, kbind,
      read_req, kret in Hrun. rewrite Hact in Hrun. congruence. }
  assert (Hcls0 : pm_qos_class (mem st req) = 0%nat).
  { unfold pm_qos_request_active in Hact. apply bool_decide_eq_false in Hact.
    by apply dec_stable in Hact. }
  destruct (pm_qos_add_request_inv _ _ _ _ _ Hact Hrun)
    as (st2 & ret & Harr & _ & _ & Hmem & Hprio & Hcls & _ & Hupd).
  assert (Hinv2 : kstate_inv st2).
  { apply (kstate_inv_frame st); [done|done|].
    intros c cs q Hat Hq. rewrite Hmem; [done|]. intros ->.
    by apply (kstate_inv_inactive st req c cs). }
  apply (kstate_inv_update_target _ _ _ _ _ _ _ _ Hinv2) in Hupd; [done|done|].
  intros _ cs Hat. rewrite (constraints_at_array _ _ _ Harr) in Hat.
  by apply (kstate_inv_inactive st req cls cs).
Qed.

(** Cancelling the pending work of a request touches its pending bit
    only. *)
Lemma cancel_pending_work_spec st req :
  ∃ st1,
    (if work_pending (mem st req) then cancel_delayed_work_sync req else kret tt) st
      = Ok (tt, st1) ∧
    differ_at st st1 req ∧ same_link (mem st req) (mem st1 req) ∧
    work_pending (mem st1 req) = false.
Proof.
  destruct (work_pending (mem st req)) eqn:Hw.
  - unfold cancel_delayed_work_sync, mbind, M_bind, kbind, read_req, write_req,
      write_mem. eexists; split; [done|]. simpl. rewrite fn_lookup_insert.
    split; [|done]. repeat split; try done.
    intros q Hq. simpl. by rewrite fn_lookup_insert_ne.
  - exists st. by repeat split.
Qed.

Lemma kstate_inv_differ_at `{kernel_env} st st1 req :
  kstate_inv st → differ_at st st1 req → same_link (mem st req) (mem st1 req) →
  kstate_inv st1.
Proof.
  intros Hinv (Harr & _ & _ & Hmem) (Hprio & Hcls & _).
  apply (kstate_inv_frame st); [done|done|].
  intros c cs q _ _. destruct (decide (q = req)) as [->|Hq]; [done|].
  by rewrite Hmem.
Qed.

(** An update of an active request: the pending work is cancelled, and
    unless the value is the one the request has, [pm_qos_update_target]
    runs with the update action on the request's class. *)
Lemma pm_qos_update_request_param_inv `{kernel_env} st req new_value np st' :
  pm_qos_request_active (mem st req) = true →
  pm_qos_update_request_param (Some req) new_value np st = Ok (tt, st') →
  ∃ st1,
    differ_at st st1 req ∧ same_link (mem st req) (mem st1 req) ∧
    work_pending (mem st1 req) = false ∧
    (new_value = node_prio (mem st req) ∧ st' = st1 ∨
     new_value ≠ node_prio (mem st req) ∧
     ∃ ret, pm_qos_update_target (pm_qos_class (mem st req)) req
              PM_QOS_UPDATE_REQ new_value np st1 = Ok (ret, st')).
Proof.
  intros Hact Hrun.
  unfold pm_qos_update_request_param in Hrun.
  unfold mbind, M_bind, kbind in Hrun. unfold read_req at 1 in Hrun.
  rewrite Hact in Hrun. simpl in Hrun.
  destruct (cancel_pending_work_spec st req) as (st1 & Hc & Hd & Hl & Hw).
  rewrite Hc in Hrun. exists st1. repeat (split; [done|]).
  destruct Hl as (Hprio & Hcls & _).
  unfold __pm_qos_update_request, mbind, M_bind, kbind, read_req, kret in Hrun.
  rewrite Hprio, Hcls in Hrun.
  destruct (decide (new_value ≠ node_prio (mem st req))) as [Hne|Heq%dec_stable].
  - right. split; [done|].
    destruct (pm_qos_update_target _ _ _ _ _ st1) as [[ret st2]|]; [|done].
    injection Hrun as <-. by exists ret.
  - left. split; [done|]. by injection Hrun.
Qed.

Lemma pm_qos_update_request_is_param `{kernel_env} req new_value :
  pm_qos_update_request req new_value = pm_qos_update_request_param req new_value None.
Proof. done. Qed.

Lemma pm_qos_request_inactive_class r :
  pm_qos_request_active r = false ↔ pm_qos_class r = 0%nat.
Proof.
  unfold pm_qos_request_active. rewrite bool_decide_eq_false. split.
  - by intros ?%dec_stable.
  - intros ->. tauto.
Qed.

Lemma __pm_qos_update_request_inv `{kernel_env} st req new_value np st' :
  __pm_qos_update_request req new_value np st = Ok (tt, st') →
  new_value = node_prio (mem st req) ∧ st' = st ∨
  new_value ≠ node_prio (mem st req) ∧
  ∃ ret, pm_qos_update_target (pm_qos_class (mem st req)) req
           PM_QOS_UPDATE_REQ new_value np st = Ok (ret, st').
Proof.
  unfold __pm_qos_update_request, mbind, M_bind, kbind, read_req, kret.
  destruct (decide (new_value ≠ node_prio (mem st req))) as [Hne|Heq%dec_stable].
  - intros Hrun. right. split; [done|].
    destruct (pm_qos_update_target _ _ _ _ _ st) as [[ret st2]|]; [|done].
    injection Hrun as <-. by exists ret.
  - intros [= <-]. by left.
Qed.

(** A timed update of an active request: as an update, then the work is
    queued. *)
Lemma pm_qos_update_request_timeout_inv `{kernel_env} st req new_value timeout_us st' :
  pm_qos_request_active (mem st req) = true →
  pm_qos_update_request_timeout (Some req) new_value timeout_us st = Ok (tt, st') →
  ∃ st1 st2,
    differ_at st st1 req ∧ same_link (mem st req) (mem st1 req) ∧
    (new_value = node_prio (mem st req) ∧ st2 = st1 ∨
     new_value ≠ node_prio (mem st req) ∧
     ∃ ret, pm_qos_update_target (pm_qos_class (mem st req)) req
              PM_QOS_UPDATE_REQ new_value None st1 = Ok (ret, st2)) ∧
    differ_at st2 st' req ∧ same_link (mem st2 req) (mem st' req) ∧
    work_pending (mem st' req) = true.
Proof.
  intros Hact Hrun.
  unfold pm_qos_update_request_timeout in Hrun.
  unfold mbind, M_bind, kbind in Hrun. unfold read_req at 1 in Hrun.
  rewrite Hact in Hrun. simpl in Hrun.
  destruct (cancel_pending_work_spec st req) as (st1 & Hc & Hd & Hl & Hw).
  rewrite Hc in Hrun. simpl in Hrun.
  pose proof Hl as (Hprio & Hcls & _).
  rewrite Hprio, Hcls in Hrun.
  assert (Hqueue : ∀ st2, ∃ st3, queue_delayed_work req timeout_us st2 = Ok (tt, st3) ∧
            differ_at st2 st3 req ∧ same_link (mem st2 req) (mem st3 req) ∧
            work_pending (mem st3 req) = true).
  { intros st2. unfold queue_delayed_work, mbind, M_bind, kbind, read_req,
      write_req, write_mem. eexists; split; [done|]. simpl.
    rewrite fn_lookup_insert. split; [|done]. repeat split; try done.
    intros q Hq. simpl. by rewrite fn_lookup_insert_ne. }
  destruct (decide (new_value ≠ node_prio (mem st req))) as [Hne|Heq%dec_stable].
  - unfold kret in Hrun.
    destruct (pm_qos_update_target _ _ _ _ _ st1) as [[ret st2]|] eqn:Hupd; [|done].
    destruct (Hqueue st2) as (st3 & Hq & Hd3 & Hl3 & Hw3).
    rewrite Hq in Hrun. injection Hrun as <-.
    exists st1, st2. split; [done|]. split; [done|].
    split; [|done]. right. split; [done|]. by exists ret.
  - unfold kret in Hrun.
    destruct (Hqueue st1) as (st3 & Hq & Hd3 & Hl3 & Hw3).
    rewrite Hq in Hrun. injection Hrun as <-.
    exists st1, st1. split; [done|]. split; [done|].
    split; [|done]. by left.
Qed.

(** Consistency across the update calls. *)
Lemma kstate_inv_update_requests `{kernel_env} st :
  kstate_inv st →
  (∀ req v np st',
     pm_qos_update_request_param req v np st = Ok (tt, st') → kstate_inv st') ∧
  (∀ req v st',
     pm_qos_update_request req v st = Ok (tt, st') → kstate_inv st') ∧
  (∀ req v timeout_us st',
     pm_qos_update_request_timeout req v timeout_us st = Ok (tt, st') →
     kstate_inv st') ∧
  (∀ req st', pm_qos_work_fn req st = Ok (tt, st') → kstate_inv st').
Proof.
  intros Hinv.
  assert (Hparam : ∀ req v np st',
    pm_qos_update_request_param req v np st = Ok (tt, st') → kstate_inv st').
  { intros [req|] v np st' Hrun; cycle 1.
    { unfold pm_qos_update_request_param, kret in Hrun. congruence. }
    destruct (pm_qos_request_active (mem st req)) eqn:Hact; cycle 1.
    { unfold pm_qos_update_request_param, mbind, M_bind, kbind, read_req, kret
        in Hrun. rewrite Hact in Hrun. simpl in Hrun. congruence. }
    destruct (pm_qos_update_request_param_inv _ _ _ _ _ Hact Hrun)
      as (st1 & Hd & Hl & _ & [[_ ->]|[_ [ret Hupd]]]).
    - by apply (kstate_inv_differ_at st st1 req).
    - pose proof (kstate_inv_differ_at st st1 req Hinv Hd Hl) as Hinv1.
      apply (kstate_inv_update_target _ _ _ _ _ _ _ _ Hinv1) in Hupd;
        [done| |done].
      intros _. by destruct Hl as (_ & -> & _). }
  split; [done|]. split; [|split].
  - intros req v st'. rewrite pm_qos_update_request_is_param. apply Hparam.
  - intros [req|] v timeout_us st' Hrun; cycle 1.
    { unfold pm_qos_update_request_timeout, kret in Hrun. congruence. }
    destruct (pm_qos_request_active (mem st req)) eqn:Hact; cycle 1.
    { unfold pm_qos_update_request_timeout, mbind, M_bind, kbind, read_req, kret
        in Hrun. rewrite Hact in Hrun. simpl in Hrun. congruence. }
    destruct (pm_qos_update_request_timeout_inv _ _ _ _ _ Hact Hrun)
      as (st1 & st2 & Hd & Hl & Hmid & Hd2 & Hl2 & _).
    pose proof (kstate_inv_differ_at st st1 req Hinv Hd Hl) as Hinv1.
    apply (kstate_inv_differ_at st2 st' req); [|done|done].
    destruct Hmid as [[_ ->]|[_ [ret Hupd]]]; [done|].
    apply (kstate_inv_update_target _ _ _ _ _ _ _ _ Hinv1) in Hupd;
      [done| |done].
    intros _. by destruct Hl as (_ & -> & _).
  - intros req st' Hrun. unfold pm_qos_work_fn in Hrun.
    apply __pm_qos_update_request_inv in Hrun as [[_ ->]|[_ [ret Hupd]]]; [done|].
    by apply (kstate_inv_update_target _ _ _ _ _ _ _ _ Hinv) in Hupd.
Qed.

(** What one [pm_qos_update_target] does to the lists and to the memory. *)
Lemma pm_qos_update_target_lists `{kernel_env} c req action value np st ret st' :
  pm_qos_update_target c req action value np st = Ok (ret, st') →
  ∃ cs cs',
    constraints_at st c = Some cs ∧ constraints_at st' c = Some cs' ∧
    pm_qos_update_list (mem st) (c_list cs) req action (new_value_of cs value)
      = (mem st', c_list cs') ∧
    ∀ c1, c1 ≠ c → constraints_at st' c1 = constraints_at st c1.
Proof.
  intros Hrun.
  apply pm_qos_update_target_inv in Hrun
    as (o & cs & prev & curr & cs' & Ho & Hcs & Hlocked & Harr & _).
  exists cs, cs'. split; [apply constraints_at_Some; by exists o|].
  split; [by rewrite (constraints_at_insert _ _ _ _ _ Ho Harr)|].
  apply pm_qos_update_target_locked_inv in Hlocked as (_ & Hlist & _).
  split; [done|]. intros c1 Hc1. unfold constraints_at. rewrite Harr.
  by rewrite list_lookup_insert_ne.
Qed.

Lemma pm_qos_update_target_remove_unlinks `{kernel_env} c req value np st ret st' :
  kstate_inv st → pm_qos_class (mem st req) = c →
  pm_qos_update_target c req PM_QOS_REMOVE_REQ value np st = Ok (ret, st') →
  mem st' = mem st ∧
  ∀ c1 cs1, constraints_at st' c1 = Some cs1 → req ∉ c_list cs1.
Proof.
  intros [Hnull Hinv] Hcls Hrun.
  apply pm_qos_update_target_lists in Hrun as (cs & cs' & Hat & Hat' & Hlist & Hother).
  split.
  { unfold pm_qos_update_list in Hlist. by injection Hlist as Hm _. }
  intros c1 cs1 Hat1 Hin. destruct (decide (c1 = c)) as [->|Hne].
  - assert (cs1 = cs') as -> by congruence.
    destruct (Hinv c cs Hat) as ((_ & Hnd) & _).
    apply (pm_qos_update_list_elem _ _ _ _ _ _ _ req Hnd Hlist) in Hin.
    by destruct Hin.
  - rewrite (Hother c1 Hne) in Hat1.
    destruct (Hinv c1 cs1 Hat1) as (_ & Htag & _).
    apply Hne. rewrite <- (Htag req Hin). done.
Qed.

(** Consistency across [pm_qos_remove_request]. *)
Lemma kstate_inv_remove_request `{kernel_env} st req st' :
  kstate_inv st →
  pm_qos_remove_request (Some req) st = Ok (tt, st') →
  kstate_inv st' ∧
  pm_qos_request_active (mem st' req) = false ∧
  ∀ c cs, constraints_at st' c = Some cs → req ∉ c_list cs.
Proof.
  intros Hinv Hrun.
  unfold pm_qos_remove_request in Hrun.
  unfold mbind, M_bind, kbind in Hrun. unfold read_req at 1 in Hrun.
  destruct (pm_qos_request_active (mem st req)) eqn:Hact; simpl in Hrun; cycle 1.
  { injection Hrun as <-. split; [done|]. split; [done|].
    intros c cs. apply kstate_inv_inactive; [done|].
    by apply pm_qos_request_inactive_class. }
  destruct (cancel_pending_work_spec st req) as (st1 & Hc & Hd & Hl & Hw).
  rewrite Hc in Hrun. simpl in Hrun.
  pose proof (kstate_inv_differ_at st st1 req Hinv Hd Hl) as Hinv1.
  destruct (pm_qos_update_target _ _ _ _ _ st1) as [[ret st2]|] eqn:Hupd; [|done].
  unfold write_req, write_mem in Hrun. injection Hrun as <-.
  assert (Hinv2 : kstate_inv st2).
  { by apply (kstate_inv_update_target _ _ _ _ _ _ _ _ Hinv1) in Hupd. }
  apply (pm_qos_update_target_remove_unlinks _ _ _ _ _ _ _ Hinv1 eq_refl) in Hupd
    as [Hmem Hun].
  split; [|split].
  - apply (kstate_inv_frame st2); [done|done|].
    intros c cs q Hat Hq. simpl.
    rewrite fn_lookup_insert_ne; [done|]. intros ->. by apply (Hun c cs).
  - simpl. by rewrite fn_lookup_insert.
  - intros c cs Hat. apply (Hun c cs). by rewrite <- Hat.
Qed.

(** A store into a request that keeps its value and its class keeps the
    state consistent. *)
Lemma kstate_inv_write_req `{kernel_env} st req r :
  kstate_inv st →
  node_prio r = node_prio (mem st req) →
  pm_qos_class r = pm_qos_class (mem st req) →
  ∃ st1, write_req req r st = Ok (tt, st1) ∧ kstate_inv st1 ∧ mem st1 req = r.
Proof.
  intros Hinv Hprio Hcls. unfold write_req, write_mem. eexists. split; [done|].
  simpl. split; [|by rewrite fn_lookup_insert].
  apply (kstate_inv_frame st); [done|done|].
  intros c cs q _ _. simpl. destruct (decide (q = req)) as [->|Hq].
  - by rewrite fn_lookup_insert.
  - by rewrite fn_lookup_insert_ne.
Qed.

(** Consistency across the IRQ affinity callbacks. *)
Lemma kstate_inv_irq_handlers `{kernel_env} st :
  kstate_inv st →
  (∀ req mask st', pm_qos_irq_notify req mask st = Ok (tt, st') → kstate_inv st') ∧
  (∀ req st', pm_qos_irq_release req st = Ok (tt, st') → kstate_inv st').
Proof.
  intros Hinv. split.
  - intros req mask st' Hrun.
    unfold pm_qos_irq_notify in Hrun.
    unfold mbind, M_bind, kbind in Hrun. unfold read_req at 1 in Hrun.
    destruct (kstate_inv_write_req st req (set_cpus_affine (mem st req) mask) Hinv)
      as (st1 & Hw & Hinv1 & Hreq); [done|done|].
    rewrite Hw in Hrun. unfold read_req in Hrun.
    destruct (pm_qos_update_target _ _ _ _ _ st1) as [[ret st2]|] eqn:Hupd; [|done].
    injection Hrun as <-.
    apply (kstate_inv_update_target _ _ _ _ _ _ _ _ Hinv1) in Hupd;
      [done| |done].
    intros _. by rewrite Hreq.
  - intros req st' Hrun.
    unfold pm_qos_irq_release in Hrun.
    unfold mbind, M_bind, kbind in Hrun. unfold read_req at 1 in Hrun.
    destruct (kstate_inv_write_req st req
                (set_cpus_affine (mem st req) cpumask_setall) Hinv)
      as (st1 & Hw & Hinv1 & Hreq); [done|done|].
    rewrite Hw in Hrun.
    destruct (read_constraints _ st1) as [[cs st1']|] eqn:Hrc; [|done].
    assert (st1' = st1) as ->.
    { unfold read_constraints in Hrc.
      destruct (pm_qos_array st1 !! _) as [[[?|] ?]|]; congruence. }
    destruct (pm_qos_update_target _ _ _ _ _ st1) as [[ret st2]|] eqn:Hupd; [|done].
    injection Hrun as <-.
    apply (kstate_inv_update_target _ _ _ _ _ _ _ _ Hinv1) in Hupd;
      [done| |done].
    intros _. by rewrite Hreq.
Qed.

(** Consistency across the file operations. *)
Lemma kstate_inv_power_files `{kernel_env} `{kernel_errno} st :
  kstate_inv st →
  (∀ iminor answer filp r st',
     (∀ p c cs, answer = Some p → constraints_at st c = Some cs → p ∉ c_list cs) →
     pm_qos_power_open iminor answer filp st = Ok (r, st') → kstate_inv st') ∧
  (∀ filp r st', pm_qos_power_release filp st = Ok (r, st') → kstate_inv st') ∧
  (∀ filp count binary text r st',
     pm_qos_power_write filp count binary text st = Ok (r, st') → kstate_inv st').
Proof.
  intros Hinv. split; [|split].
  - intros iminor answer filp r st' Hfresh Hrun.
    unfold pm_qos_power_open, mbind, M_bind, kbind, find_pm_qos_object_by_minor
      in Hrun.
    destruct (decide _) as [Hc|Hc] in Hrun; cycle 1.
    { unfold kret in Hrun. congruence. }
    destruct answer as [p|]; unfold kzalloc in Hrun; cbv beta iota in Hrun; cycle 1.
    { unfold kret in Hrun. congruence. }
    match type of Hrun with
    | match pm_qos_add_request _ _ _ ?s with _ => _ end = _ =>
        assert (Hinv1 : kstate_inv s)
    end.
    { apply (kstate_inv_frame st); [done|done|].
      intros c cs q Hat Hq. simpl. rewrite fn_lookup_insert_ne; [done|].
      intros ->. by apply (Hfresh q c cs). }
    match type of Hrun with
    | match ?run with _ => _ end = _ => destruct run as [[[] st2]|] eqn:Hadd; [|done]
    end.
    unfold kret in Hrun. injection Hrun as _ <-.
    by apply (kstate_inv_add_request _ _ _ _ _ Hinv1 Hadd).
  - intros filp r st' Hrun.
    unfold pm_qos_power_release, mbind, M_bind, kbind in Hrun.
    destruct (private_data filp) as [p|]; cycle 1.
    { unfold pm_qos_remove_request, kret, kfree in Hrun. congruence. }
    destruct (pm_qos_remove_request (Some p) st) as [[[] st2]|] eqn:Hrem; [|done].
    apply (kstate_inv_remove_request _ _ _ Hinv) in Hrem as [Hinv2 _].
    unfold kfree, kret in Hrun. injection Hrun as _ <-.
    by apply (kstate_inv_frame st2).
  - intros filp count binary text r st' Hrun.
    unfold pm_qos_power_write in Hrun.
    destruct (if decide (count = 4) then _ else _) as [e|value] in Hrun.
    { unfold kret in Hrun. congruence. }
    unfold mbind, M_bind, kbind in Hrun.
    destruct (pm_qos_update_request _ _ st) as [[[] st2]|] eqn:Hupd; [|done].
    unfold kret in Hrun. injection Hrun as _ <-.
    by apply (proj1 (proj2 (kstate_inv_update_requests st Hinv)) _ _ _ Hupd).
Qed.

(** ** pm_qos_update_constraints *)

Lemma update_constraints_fields_kept r c :
  c_list (update_constraints_fields r c) = c_list r ∧
  target_per_cpu (update_constraints_fields r c) = target_per_cpu r ∧
  no_constraint_value (update_constraints_fields r c) = no_constraint_value r.
Proof.
  unfold update_constraints_fields.
  by destruct (decide (target_value c ≠ 0)), (decide (default_value c ≠ 0)),
    (decide (c_type c ≠ PM_QOS_UNITIALIZED)), (notifiers c).
Qed.

Lemma update_constraints_fields_values r c :
  target_value (update_constraints_fields r c)
    = (if decide (target_value c = 0) then target_value r else target_value c) ∧
  default_value (update_constraints_fields r c)
    = (if decide (default_value c = 0) then default_value r else default_value c) ∧
  c_type (update_constraints_fields r c)
    = (if decide (c_type c = PM_QOS_UNITIALIZED) then c_type r else c_type c) ∧
  notifiers (update_constraints_fields r c)
    = (if notifiers c is Some nh then Some nh else notifiers r).
Proof.
  unfold update_constraints_fields.
  destruct (decide (target_value c ≠ 0)) as [H1|H1%dec_stable],
    (decide (default_value c ≠ 0)) as [H2|H2%dec_stable],
    (decide (c_type c ≠ PM_QOS_UNITIALIZED)) as [H3|H3%dec_stable],
    (notifiers c); simpl;
    rewrite ?(decide_False _ _ H1), ?(decide_False _ _ H2), ?(decide_False _ _ H3),
      ?(decide_True _ _ H1), ?(decide_True _ _ H2), ?(decide_True _ _ H3); done.
Qed.

Lemma pm_qos_update_constraints_from_seq `{kernel_errno} len start cls c st :
  pm_qos_update_constraints_from (seq start len) cls c st =
  if decide (Z.of_nat start <= cls < Z.of_nat (start + len)) then
    pm_qos_update_constraints_at (Z.to_nat cls) c st
  else Ok (- EINVAL, st).
Proof.
  revert start. induction len as [|len IH]; intros start; simpl.
  - by rewrite decide_False by lia.
  - destruct (decide (Z.of_nat start ≠ cls)) as [Hne|Heq%dec_stable].
    + rewrite IH. destruct (decide (Z.of_nat (S start) <= cls < _)) as [Hin|Hout].
      * by rewrite decide_True by lia.
      * by rewrite decide_False by lia.
    + rewrite decide_True by lia. subst cls. by rewrite Nat2Z.id.
Qed.

(** What [pm_qos_update_constraints] returns and leaves. *)
Lemma pm_qos_update_constraints_post `{kernel_env} `{kernel_errno} st cls :
  pm_qos_update_constraints cls None st = Ok (- EINVAL, st) ∧
  ∀ c,
    (¬ (1 <= cls < Z.of_nat (length (pm_qos_array st))) →
     pm_qos_update_constraints cls (Some c) st = Ok (- EINVAL, st)) ∧
    ∀ r, 1 <= cls → constraints_at st (Z.to_nat cls) = Some r →
      ∃ st',
        pm_qos_update_constraints cls (Some c) st = Ok (0, st') ∧
        constraints_at st' (Z.to_nat cls) = Some (update_constraints_fields r c) ∧
        (∀ c1, c1 ≠ Z.to_nat cls → constraints_at st' c1 = constraints_at st c1) ∧
        mem st' = mem st ∧ notifier_calls st' = notifier_calls st ∧
        c_list (update_constraints_fields r c) = c_list r ∧
        target_per_cpu (update_constraints_fields r c) = target_per_cpu r ∧
        target_value (update_constraints_fields r c)
          = (if decide (target_value c = 0) then target_value r else target_value c) ∧
        default_value (update_constraints_fields r c)
          = (if decide (default_value c = 0) then default_value r
             else default_value c) ∧
        c_type (update_constraints_fields r c)
          = (if decide (c_type c = PM_QOS_UNITIALIZED) then c_type r else c_type c) ∧
        notifiers (update_constraints_fields r c)
          = (if notifiers c is Some nh then Some nh else notifiers r) ∧
        (kstate_inv st → kstate_inv st') ∧
        (target_value c ≠ 0 →
         pm_qos_request (Z.to_nat cls) st' = Ok (target_value c, st')).
Proof.
  split; [done|]. intros c. split.
  - intros Hout. unfold pm_qos_update_constraints.
    rewrite pm_qos_update_constraints_from_seq.
    rewrite decide_False; [done|]. lia.
  - intros r Hcls Hat. unfold pm_qos_update_constraints.
    rewrite pm_qos_update_constraints_from_seq.
    pose proof Hat as (o & Ho & Hcs)%constraints_at_Some.
    pose proof (lookup_lt_Some _ _ _ Ho) as Hlt.
    rewrite decide_True by lia.
    unfold pm_qos_update_constraints_at. rewrite Ho.
    destruct o as [cs mn]. simpl in Hcs. subst cs.
    unfold mbind, M_bind, kbind, write_constraints. rewrite Ho. unfold kret.
    simpl minor. change mn with (minor {| constraints := Some r; minor := mn |}).
    generalize dependent {| constraints := Some r; minor := mn |}. intros o Ho.
    eexists. split; [done|].
    destruct (update_constraints_fields_kept r c) as (Hl & Hpc & _).
    destruct (update_constraints_fields_values r c) as (Htv & Hdv & Hty & Hnh).
    assert (Hat' : constraints_at
      {| pm_qos_array :=
           <[Z.to_nat cls := {| constraints := Some (update_constraints_fields r c);
                                minor := minor o |}]> (pm_qos_array st);
         mem := mem st; allocated := allocated st;
         notifier_calls := notifier_calls st |} (Z.to_nat cls)
      = Some (update_constraints_fields r c)).
    { unfold constraints_at. simpl. by rewrite list_lookup_insert_eq. }
    assert (Hother : ∀ c1, c1 ≠ Z.to_nat cls → constraints_at
      {| pm_qos_array :=
           <[Z.to_nat cls := {| constraints := Some (update_constraints_fields r c);
                                minor := minor o |}]> (pm_qos_array st);
         mem := mem st; allocated := allocated st;
         notifier_calls := notifier_calls st |} c1 = constraints_at st c1).
    { intros c1 Hc1. unfold constraints_at. simpl.
      by rewrite list_lookup_insert_ne. }
    repeat (split; [done|]). split.
    + intros [Hnull Hinv]. split.
      * rewrite Hother; [done|]. intros Hz. rewrite <- Hz in Hat. congruence.
      * intros c1 cs1 Hat1. destruct (decide (c1 = Z.to_nat cls)) as [->|Hne].
        -- rewrite Hat' in Hat1. injection Hat1 as <-. rewrite Hl, Hpc.
           by apply Hinv.
        -- rewrite (Hother c1 Hne) in Hat1. by apply Hinv.
    + intros Hnz. unfold pm_qos_request, mbind, M_bind, kbind.
      rewrite (read_constraints_at _ _ _ Hat'). unfold kret, pm_qos_read_value.
      rewrite Htv. by rewrite decide_False.
Qed.

(** ** The state at boot *)

Lemma boot_state_constraints `{kernel_env} dv minor_of c cs :
  constraints_at (boot_state dv minor_of) c = Some cs →
  c_list cs = [] ∧ length (target_per_cpu cs) = NR_CPUS ∧
  default_value cs = dv c ∧ target_value cs = dv c ∧
  notifiers cs = Some c ∧ (1 <= c < 17)%nat.
Proof.
  unfold constraints_at, boot_state. simpl.
  do 17 (destruct c as [|c];
    [simpl; intros [= <-]; simpl; rewrite ?length_replicate;
     repeat split; (done || lia)|]).
  done.
Qed.

Lemma boot_state_inv `{kernel_env} dv minor_of : kstate_inv (boot_state dv minor_of).
Proof.
  split; [done|]. intros c cs Hat.
  apply boot_state_constraints in Hat as (Hl & Hlen & _).
  rewrite Hl. split; [|split; [|done]].
  - split; [constructor|constructor].
  - intros req Hreq. by apply elem_of_nil in Hreq.
Qed.

Lemma qos_step_keeps_inv `{kernel_env} `{kernel_errno} st st' :
  kstate_inv st → qos_step st st' → kstate_inv st'.
Proof.
  intros Hinv [req cls value Hrun|req v Hrun|req v np Hrun|req v t Hrun|req Hrun
    |req Hrun|req mask Hrun|req Hrun|cls c ret Hrun|iminor answer filp r Hfresh Hrun
    |filp ret Hrun|filp count binary text ret Hrun].
  - by apply (kstate_inv_add_request _ _ _ _ _ Hinv Hrun).
  - by apply (proj1 (proj2 (kstate_inv_update_requests st Hinv)) _ _ _ Hrun).
  - by apply (proj1 (kstate_inv_update_requests st Hinv) _ _ _ _ Hrun).
  - by apply (proj1 (proj2 (proj2 (kstate_inv_update_requests st Hinv))) _ _ _ _ Hrun).
  - destruct req as [req|].
    + by apply (kstate_inv_remove_request _ _ _ Hinv) in Hrun as [? _].
    + unfold pm_qos_remove_request, kret in Hrun. congruence.
  - by apply (proj2 (proj2 (proj2 (kstate_inv_update_requests st Hinv))) _ _ Hrun).
  - by apply (proj1 (kstate_inv_irq_handlers st Hinv) _ _ _ Hrun).
  - by apply (proj2 (kstate_inv_irq_handlers st Hinv) _ _ Hrun).
  - destruct (pm_qos_update_constraints_post st cls) as [Hnone Hsome].
    destruct c as [c|]; [|congruence].
    destruct (Hsome c) as [Hout Hin].
    destruct (decide (1 <= cls < Z.of_nat (length (pm_qos_array st)))) as [Hr|Hr];
      [|rewrite (Hout Hr) in Hrun; congruence].
    destruct (constraints_at st (Z.to_nat cls)) as [r|] eqn:Hat.
    + destruct (Hin r ltac:(lia) eq_refl) as (st1 & Hrun1 & Hrest).
      rewrite Hrun1 in Hrun. injection Hrun as _ <-.
      by apply Hrest.
    + unfold pm_qos_update_constraints in Hrun.
      rewrite pm_qos_update_constraints_from_seq in Hrun.
      rewrite decide_True in Hrun by lia.
      unfold pm_qos_update_constraints_at in Hrun.
      unfold constraints_at in Hat.
      destruct (pm_qos_array st !! Z.to_nat cls) as [[[?|] ?]|]; simpl in *;
        try congruence.
      destruct (update_constraints_assigns c); congruence.
  - by apply (proj1 (kstate_inv_power_files st Hinv) _ _ _ _ _ Hfresh Hrun).
  - by apply (proj1 (proj2 (kstate_inv_power_files st Hinv)) _ _ _ Hrun).
  - by apply (proj2 (proj2 (kstate_inv_power_files st Hinv)) _ _ _ _ _ _ Hrun).
Qed.

(** From boot on, whatever calls are made and in whatever order, every
    constraint list stays ordered by value and free of duplicates, every
    linked request carries the class of its list, and slot 0 stays empty. *)
Theorem kstate_inv_reachable `{kernel_env} `{kernel_errno} dv minor_of st :
  qos_steps (boot_state dv minor_of) st → kstate_inv st.
Proof.
  induction 1 as [|st1 st2 _ IH Hstep].
  - apply boot_state_inv.
  - by apply (qos_step_keeps_inv st1).
Qed.

(** ** Finding a class by its device minor *)

Lemma find_minor_from_least objs start mn :
  find_minor_from objs start mn = -1 ∧ (∀ i o, objs !! i = Some o → minor o ≠ mn) ∨
  ∃ i o, find_minor_from objs start mn = Z.of_nat (start + i) ∧
         objs !! i = Some o ∧ minor o = mn ∧
         ∀ j o', (j < i)%nat → objs !! j = Some o' → minor o' ≠ mn.
Proof.
  revert start; induction objs as [|o objs IH]; intros start; simpl.
  - left. split; [done|]. intros i o. by rewrite lookup_nil.
  - destruct (decide (mn = minor o)) as [->|Hne].
    + right. exists 0%nat, o. split; [f_equal; lia|]. split; [done|].
      split; [done|]. intros j o' Hj. lia.
    + destruct (IH (S start)) as [[Hnone Hall]|(i & o' & Hfind & Hi & Hmn & Hleast)].
      * left. split; [done|]. intros [|i] o' Hi; simpl in Hi.
        -- injection Hi as <-. congruence.
        -- by apply (Hall i).
      * right. exists (S i), o'. split; [rewrite Hfind; f_equal; lia|].
        split; [done|]. split; [done|]. intros [|j] o2 Hj Ho2; simpl in Ho2.
        -- injection Ho2 as <-. congruence.
        -- apply (Hleast j); [lia|done].
Qed.

(** The search for a minor finds the least class that has it. *)
Lemma find_pm_qos_object_by_minor_least `{kernel_env} st mn :
  ∃ ret,
    find_pm_qos_object_by_minor mn st = Ok (ret, st) ∧
    (ret = -1 ∧
     (∀ c o, (1 <= c)%nat → pm_qos_array st !! c = Some o → minor o ≠ mn) ∨
     ∃ c o, ret = Z.of_nat c ∧ (1 <= c)%nat ∧
       pm_qos_array st !! c = Some o ∧ minor o = mn ∧
       ∀ c' o', (1 <= c' < c)%nat → pm_qos_array st !! c' = Some o' →
                minor o' ≠ mn).
Proof.
  unfold find_pm_qos_object_by_minor. eexists. split; [done|].
  unfold PM_QOS_CPU_DMA_LATENCY.
  destruct (find_minor_from_least (drop 1 (pm_qos_array st)) 1 mn)
    as [[Hnone Hall]|(i & o & Hfind & Hi & Hmn & Hleast)].
  - left. split; [done|]. intros c o Hc Ho.
    apply (Hall (c - 1)%nat). rewrite lookup_drop.
    by replace (1 + (c - 1))%nat with c by lia.
  - right. exists (1 + i)%nat, o. rewrite lookup_drop in Hi.
    repeat (split; [done || lia|]). intros c' o' Hc' Ho'.
    apply (Hleast (c' - 1)%nat); [lia|]. rewrite lookup_drop.
    by replace (1 + (c' - 1))%nat with c' by lia.
Qed.

(** ** pm_qos_request_for_cpumask *)

Lemma last_cons_head {A} (a d : A) l : List.last (a :: l) d = List.last l a.
Proof.
  revert a. induction l as [|b l IH]; intros a; [done|].
  change (List.last (a :: b :: l) d) with (List.last (b :: l) d).
  rewrite IH. rewrite (last_cons_default b l a d). by rewrite IH.
Qed.

Lemma foldM_cpumask_val_step `{kernel_env} cs l v :
  (∀ cpu, cpu ∈ l → (cpu < length (target_per_cpu cs))%nat) →
  per_cpu_type (c_type cs) →
  foldM (cpumask_val_step cs) l v =
  Ok (aggregate_from (c_type cs) v ((λ cpu, target_per_cpu cs !!! cpu) <$> l)).
Proof.
  intros Hl Hty. revert v. induction l as [|cpu l IH]; intros v.
  - simpl. unfold aggregate_from. by destruct (c_type cs).
  - assert (Hcpu : (cpu < length (target_per_cpu cs))%nat) by (apply Hl; set_solver).
    destruct (lookup_lt_is_Some_2 _ _ Hcpu) as [t Ht].
    assert (Hrest : ∀ cpu', cpu' ∈ l → (cpu' < length (target_per_cpu cs))%nat).
    { intros cpu' Hin. apply Hl. set_solver. }
    specialize (IH Hrest).
    rewrite fmap_cons. rewrite (list_lookup_total_correct _ _ _ Ht).
    simpl foldM. unfold cpumask_val_step at 1. rewrite Ht.
    destruct Hty as [Hty|[Hty|Hty]]; rewrite Hty in IH |- *.
    + simpl. rewrite IH. simpl. do 2 f_equal.
      destruct (Z.ltb_spec t v); lia.
    + simpl. rewrite IH. simpl. do 2 f_equal.
      rewrite Z.gtb_ltb. destruct (Z.ltb_spec v t); lia.
    + unfold result_bind. rewrite IH. unfold aggregate_from.
      by rewrite last_cons_head.
Qed.

Lemma foldM_cpumask_val_step_bug `{kernel_env} cs l v :
  ¬ per_cpu_type (c_type cs) → l ≠ [] →
  foldM (cpumask_val_step cs) l v = Fault BUG.
Proof.
  intros Hty Hl. destruct l as [|cpu l]; [done|].
  simpl. unfold cpumask_val_step, per_cpu_type in *.
  destruct (c_type cs); simpl; try done; exfalso; apply Hty; tauto.
Qed.

Lemma for_each_cpu_lt `{kernel_env} mask cpu :
  cpu ∈ for_each_cpu mask → (cpu < NR_CPUS)%nat.
Proof.
  unfold for_each_cpu. intros Hin.
  apply list_elem_of_In, filter_In in Hin as [Hin _].
  apply in_seq in Hin. lia.
Qed.

(** [pm_qos_request_for_cpumask] changes nothing.  For a MIN, MAX or
    FORCE_MAX class it returns the default value combined with the per-CPU
    targets of the CPUs in the mask: their minimum, their maximum, or the
    target of the last CPU in the mask; for an empty mask that is the
    default value.  For any other type it reaches [BUG()] as soon as the
    mask holds a CPU. *)
Theorem pm_qos_request_for_cpumask_spec `{kernel_env} st c cs mask :
  constraints_at st c = Some cs →
  length (target_per_cpu cs) = NR_CPUS →
  let vals := (λ cpu, target_per_cpu cs !!! cpu) <$> for_each_cpu mask in
  (per_cpu_type (c_type cs) →
   pm_qos_request_for_cpumask c mask st
     = Ok (aggregate_from (c_type cs) (default_value cs) vals, st)) ∧
  (c_type cs = PM_QOS_MIN →
   is_minimum (aggregate_from (c_type cs) (default_value cs) vals)
     (default_value cs :: vals)) ∧
  (c_type cs = PM_QOS_MAX →
   is_maximum (aggregate_from (c_type cs) (default_value cs) vals)
     (default_value cs :: vals)) ∧
  (c_type cs = PM_QOS_FORCE_MAX →
   aggregate_from (c_type cs) (default_value cs) vals
     = List.last vals (default_value cs)) ∧
  (¬ per_cpu_type (c_type cs) →
   pm_qos_request_for_cpumask c mask st
     = if decide (for_each_cpu mask = []) then Ok (default_value cs, st)
       else Fault BUG).
Proof.
  intros Hat Hlen vals.
  assert (Hrun : pm_qos_request_for_cpumask c mask st =
    lift (foldM (cpumask_val_step cs) (for_each_cpu mask) (default_value cs)) st).
  { unfold pm_qos_request_for_cpumask, mbind, M_bind, kbind.
    by rewrite (read_constraints_at _ _ _ Hat). }
  split; [|split; [|split; [|split]]].
  - intros Hty. rewrite Hrun, foldM_cpumask_val_step; [done| |done].
    intros cpu Hin. rewrite Hlen. by apply for_each_cpu_lt with mask.
  - intros ->. apply fold_left_min_is_minimum.
  - intros ->. apply fold_left_max_is_maximum.
  - by intros ->.
  - intros Hty. rewrite Hrun. destruct (decide (for_each_cpu mask = [])) as [->|Hne].
    + done.
    + by rewrite foldM_cpumask_val_step_bug.
Qed.

(** ** Adding and removing a request *)

Lemma plist_del_add m node l :
  node ∉ l → plist_del node (plist_add m node l) = l.
Proof.
  induction l as [|iter l IH]; intros Hn; simpl.
  - by rewrite decide_True.
  - destruct (prio_of m node <? prio_of m iter); simpl.
    + by rewrite decide_True.
    + rewrite decide_False by set_solver. f_equal. apply IH. set_solver.
Qed.

Lemma per_cpu_aggregate_ext `{kernel_env} m m' c c' cpu :
  c_list c' = c_list c → c_type c' = c_type c →
  default_value c' = default_value c →
  (∀ q, q ∈ c_list c → m' q = m q) →
  per_cpu_aggregate m' c' cpu = per_cpu_aggregate m c cpu.
Proof.
  intros Hl Hty Hdv Hext. unfold per_cpu_aggregate. rewrite Hl, Hty, Hdv.
  f_equal. revert Hext. generalize (c_list c) as l.
  induction l as [|p l IH]; intros Hext; [done|].
  unfold covering in *. simpl.
  rewrite (Hext p) by set_solver.
  destruct (cpumask_test_cpu cpu (cpus_affine (m p))).
  - unfold plist_values in *. simpl. f_equal.
    + unfold prio_of. rewrite (Hext p); [done|set_solver].
    + apply IH. intros q Hq. apply Hext. set_solver.
  - apply IH. intros q Hq. apply Hext. set_solver.
Qed.

(** What a completed [pm_qos_update_target] leaves behind. *)
Lemma pm_qos_update_target_post `{kernel_env} c req action value np st ret st' :
  pm_qos_update_target c req action value np st = Ok (ret, st') →
  ∃ cs cs',
    constraints_at st c = Some cs ∧ constraints_at st' c = Some cs' ∧
    pm_qos_update_list (mem st) (c_list cs) req action (new_value_of cs value)
      = (mem st', c_list cs') ∧
    (∀ c1, c1 ≠ c → constraints_at st' c1 = constraints_at st c1) ∧
    default_value cs' = default_value cs ∧
    no_constraint_value cs' = no_constraint_value cs ∧
    c_type cs' = c_type cs ∧ notifiers cs' = notifiers cs ∧
    pm_qos_get_value (mem st') cs' = Ok (target_value cs') ∧
    (length (target_per_cpu cs) = NR_CPUS →
     ∀ cpu, cpu ∈ for_each_possible_cpu →
       target_per_cpu cs' !! cpu = Some (per_cpu_aggregate (mem st') cs' cpu)).
Proof.
  intros Hrun.
  apply pm_qos_update_target_inv in Hrun
    as (o & cs & prev & curr & cs' & Ho & Hcs & Hlocked & Harr & _).
  exists cs, cs'. split; [apply constraints_at_Some; by exists o|].
  split; [by rewrite (constraints_at_insert _ _ _ _ _ Ho Harr)|].
  pose proof (pm_qos_update_target_locked_inv _ _ _ _ _ _ _ _ _ Hlocked)
    as (_ & Hlist & Hcurr & Htv & Hdv & Hnc & Hty & Hnot & _).
  split; [done|]. split.
  { intros c1 Hc1. unfold constraints_at. rewrite Harr.
    by rewrite list_lookup_insert_ne. }
  repeat (split; [done|]). split; [by rewrite Htv|].
  intros Hlen cpu Hcpu.
  destruct (pm_qos_update_target_locked_per_cpu _ _ _ _ _ _ _ _ _ Hlocked Hlen)
    as [_ Htpc].
  rewrite Htpc. by rewrite decide_True.
Qed.

(** A completed removal of an active request: pending work is cancelled,
    the request is unlinked by [pm_qos_update_target], then zeroed. *)
Lemma pm_qos_remove_request_inv `{kernel_env} st req st' :
  pm_qos_request_active (mem st req) = true →
  pm_qos_remove_request (Some req) st = Ok (tt, st') →
  ∃ st1 st2 ret,
    differ_at st st1 req ∧ same_link (mem st req) (mem st1 req) ∧
    pm_qos_update_target (pm_qos_class (mem st req)) req PM_QOS_REMOVE_REQ
      PM_QOS_DEFAULT_VALUE None st1 = Ok (ret, st2) ∧
    pm_qos_array st' = pm_qos_array st2 ∧
    mem st' = <[req := zero_request]> (mem st2) ∧
    allocated st' = allocated st2 ∧ notifier_calls st' = notifier_calls st2.
Proof.
  intros Hact Hrun.
  unfold pm_qos_remove_request in Hrun.
  unfold mbind, M_bind, kbind in Hrun. unfold read_req at 1 in Hrun.
  rewrite Hact in Hrun. simpl in Hrun.
  destruct (cancel_pending_work_spec st req) as (st1 & Hc & Hd & Hl & Hw).
  rewrite Hc in Hrun. simpl in Hrun.
  pose proof Hl as (_ & Hcls & _). rewrite Hcls in Hrun.
  destruct (pm_qos_update_target _ _ _ _ _ st1) as [[ret st2]|] eqn:Hupd; [|done].
  unfold write_req, write_mem in Hrun. injection Hrun as <-.
  by exists st1, st2, ret.
Qed.

Lemma pm_qos_get_value_fields m c c' :
  c_list c' = c_list c → c_type c' = c_type c →
  no_constraint_value c' = no_constraint_value c →
  pm_qos_get_value m c' = pm_qos_get_value m c.
Proof. unfold pm_qos_get_value. by intros -> -> ->. Qed.

(** An add undone by a remove. *)
Lemma add_remove_round_trip `{kernel_env} st req c value st1 st2 :
  kstate_inv st →
  pm_qos_request_active (mem st req) = false →
  pm_qos_add_request (Some req) c value st = Ok (tt, st1) →
  pm_qos_remove_request (Some req) st1 = Ok (tt, st2) →
  ∃ cs cs2,
    constraints_at st c = Some cs ∧ constraints_at st2 c = Some cs2 ∧
    c_list cs2 = c_list cs ∧
    default_value cs2 = default_value cs ∧
    no_constraint_value cs2 = no_constraint_value cs ∧
    c_type cs2 = c_type cs ∧ notifiers cs2 = notifiers cs ∧
    pm_qos_get_value (mem st) cs = Ok (target_value cs2) ∧
    (∀ cpu, cpu ∈ for_each_possible_cpu →
       target_per_cpu cs2 !! cpu = Some (per_cpu_aggregate (mem st) cs cpu)) ∧
    (∀ c1, c1 ≠ c → constraints_at st2 c1 = constraints_at st c1) ∧
    (∀ q, q ≠ req → mem st2 q = mem st q) ∧
    mem st2 req = zero_request.
Proof.
  intros Hinv Hact Hadd Hrem.
  pose proof (kstate_inv_add_request _ _ _ _ _ Hinv Hadd) as Hinv1.
  destruct (pm_qos_add_request_inv _ _ _ _ _ Hact Hadd)
    as (sa & ret & Harr_a & _ & _ & Hmem_a & _ & Hcls_a & _ & Hupd_a).
  destruct (pm_qos_update_target_post _ _ _ _ _ _ _ _ Hupd_a)
    as (cs & cs1 & Hat_a & Hat1 & Hlist1 & Hother1 & Hdv1 & Hnc1 & Hty1 & Hnot1 & _).
  rewrite (constraints_at_array _ _ _ Harr_a) in Hat_a.
  assert (Hnotin : req ∉ c_list cs).
  { apply (kstate_inv_inactive st req c cs); [done| |done].
    by apply pm_qos_request_inactive_class. }
  assert (Hc0 : c ≠ 0%nat).
  { intros ->. destruct Hinv as [Hnull _]. congruence. }
  pose proof (pm_qos_update_list_req _ _ _ _ _ _ _ Hlist1) as Hreq1.
  assert (Hmem1 : ∀ q, q ≠ req → mem st1 q = mem st q).
  { intros q Hq. rewrite <- (Hmem_a q Hq). by eapply pm_qos_update_list_mem. }
  assert (Hcls1 : pm_qos_class (mem st1 req) = c) by by rewrite Hreq1.
  assert (Hact1 : pm_qos_request_active (mem st1 req) = true).
  { unfold pm_qos_request_active. rewrite Hcls1. by apply bool_decide_eq_true. }
  destruct (pm_qos_remove_request_inv _ _ _ Hact1 Hrem)
    as (sb & sc & ret2 & Hd & Hlink & Hupd_b & Harr2 & Hmem2 & _).
  rewrite Hcls1 in Hupd_b.
  pose proof (kstate_inv_differ_at st1 sb req Hinv1 Hd Hlink) as Hinv_b.
  destruct Hd as (Harr_b & _ & _ & Hmem_b).
  destruct (pm_qos_update_target_post _ _ _ _ _ _ _ _ Hupd_b)
    as (cs1' & cs2 & Hat_b & Hat_c & Hlist2 & Hother2 & Hdv2 & Hnc2 & Hty2 & Hnot2
        & Hget2 & Hcpu2).
  rewrite (constraints_at_array _ _ _ Harr_b) in Hat_b.
  assert (cs1' = cs1) as -> by congruence.
  unfold pm_qos_update_list in Hlist1, Hlist2.
  injection Hlist1 as Hm1 Hl1. injection Hlist2 as Hmc Hl2.
  assert (Hl : c_list cs2 = c_list cs).
  { rewrite <- Hl2, <- Hl1. by apply plist_del_add. }
  assert (Hold : ∀ q, q ∈ c_list cs → mem sc q = mem st q).
  { intros q Hq. assert (q ≠ req) as Hne by (intros ->; done).
    rewrite <- Hmc. rewrite (Hmem_b q Hne). by apply Hmem1. }
  exists cs, cs2. split; [done|].
  split; [by rewrite (constraints_at_array _ _ _ Harr2)|].
  split; [done|]. split; [congruence|]. split; [congruence|].
  split; [congruence|]. split; [congruence|]. split.
  { rewrite <- Hget2. rewrite (pm_qos_get_value_ext (mem st) (mem sc)).
    - symmetry. apply pm_qos_get_value_fields; congruence.
    - intros q Hq. apply Hold. by rewrite <- Hl. }
  split.
  { intros cpu Hcpu.
    destruct Hinv1 as [_ Hinv1]. destruct (Hinv1 c cs1 Hat_b) as (_ & _ & Hlen).
    rewrite (Hcpu2 Hlen cpu Hcpu). f_equal.
    apply per_cpu_aggregate_ext; [done|congruence|congruence|done]. }
  split.
  { intros c1 Hc1. rewrite (constraints_at_array _ _ _ Harr2).
    rewrite (Hother2 c1 Hc1). rewrite (constraints_at_array _ _ _ Harr_b).
    rewrite (Hother1 c1 Hc1). by apply constraints_at_array. }
  split.
  { intros q Hq. rewrite Hmem2. rewrite fn_lookup_insert_ne by done.
    rewrite <- Hmc. rewrite (Hmem_b q Hq). by apply Hmem1. }
  rewrite Hmem2. by rewrite fn_lookup_insert.
Qed.

(** ** Timed updates *)

(** A timed update followed by its timeout: after
    [pm_qos_update_request_timeout] the request has the new value and its
    work is pending; when [pm_qos_work_fn] then runs, the request is back
    at the default value of its class, still on the list, and the target
    is the aggregate of the list. *)
Theorem pm_qos_update_request_timeout_expires `{kernel_env}
    st req value timeout_us st1 st2 :
  pm_qos_request_active (mem st req) = true →
  value ≠ PM_QOS_DEFAULT_VALUE →
  pm_qos_update_request_timeout (Some req) value timeout_us st = Ok (tt, st1) →
  pm_qos_work_fn req st1 = Ok (tt, st2) →
  work_pending (mem st1 req) = true ∧
  node_prio (mem st1 req) = value ∧
  pm_qos_class (mem st2 req) = pm_qos_class (mem st req) ∧
  ∃ cs cs2,
    constraints_at st (pm_qos_class (mem st req)) = Some cs ∧
    constraints_at st2 (pm_qos_class (mem st req)) = Some cs2 ∧
    node_prio (mem st2 req) = default_value cs ∧
    req ∈ c_list cs2 ∧
    pm_qos_get_value (mem st2) cs2 = Ok (target_value cs2).
Proof.
  intros Hact Hval Hrun Hwork.
  destruct (pm_qos_update_request_timeout_inv _ _ _ _ _ Hact Hrun)
    as (sa & sb & Hd & Hl & Hmid & Hd2 & Hl2 & Hpend).
  destruct Hd as (Harr_a & _ & _ & _).
  destruct Hl as (Hprio_a & Hcls_a & _).
  destruct Hd2 as (Harr_1 & _ & _ & _).
  destruct Hl2 as (Hprio_1 & Hcls_1 & _).
  assert (Hb : node_prio (mem sb req) = value ∧
               pm_qos_class (mem sb req) = pm_qos_class (mem st req) ∧
               ∀ cs1, constraints_at sb (pm_qos_class (mem st req)) = Some cs1 →
                 ∃ cs, constraints_at st (pm_qos_class (mem st req)) = Some cs ∧
                       default_value cs1 = default_value cs).
  { destruct Hmid as [[-> ->]|[Hne [ret Hupd]]].
    - split; [done|]. split; [done|]. intros cs1 Hat. exists cs1.
      by rewrite <- (constraints_at_array _ _ _ Harr_a).
    - destruct (pm_qos_update_target_post _ _ _ _ _ _ _ _ Hupd)
        as (cs & cs1 & Hat & Hat1 & Hlist & _ & Hdv & _).
      pose proof (pm_qos_update_list_req _ _ _ _ _ _ _ Hlist) as Hreq.
      simpl in Hreq. rewrite Hreq. simpl.
      split; [unfold new_value_of; by rewrite decide_False|].
      split; [done|]. intros cs1' Hat1'. exists cs.
      rewrite <- (constraints_at_array _ _ _ Harr_a). split; [done|]. congruence. }
  destruct Hb as (Hprio_b & Hcls_b & Hcs_b).
  split; [done|]. split; [congruence|].
  unfold pm_qos_work_fn in Hwork.
  apply __pm_qos_update_request_inv in Hwork as [[Heq _]|[_ [ret Hupd]]]; [congruence|].
  rewrite Hcls_1, Hcls_b in Hupd.
  destruct (pm_qos_update_request_post _ _ _ _ _ _ _ Hupd)
    as (cs1 & cs2 & Hat1 & Hat2 & _ & Hin & Hreq & Hget & _).
  rewrite (constraints_at_array _ _ _ Harr_1) in Hat1.
  destruct (Hcs_b cs1 Hat1) as (cs & Hat & Hdv).
  split.
  { rewrite Hreq. simpl. congruence. }
  exists cs, cs2. repeat (split; [done|]). split; [|done].
  rewrite Hreq. simpl. unfold new_value_of. rewrite decide_True by done. done.
Qed.

(** ** Reading and writing the device file *)

(** [pm_qos_power_write] fails with [-EFAULT] when four bytes cannot be
    copied and with the parser's code when a text of another length does
    not parse, without touching the state; [pm_qos_power_read] fails with
    [-EINVAL] on a file without a request or with an inactive one.  A
    write that changes the value of the file's request returns the byte
    count; afterwards the request has the value written (the class default
    for PM_QOS_DEFAULT_VALUE), and a read returns the target value of the
    class, as [pm_qos_request] does. *)
Theorem pm_qos_power_write_read `{kernel_env} `{kernel_errno} st filp :
  (∀ text, pm_qos_power_write filp 4 None text st = Ok (- EFAULT, st)) ∧
  (∀ count binary ret value, count ≠ 4 → ret ≠ 0 →
     pm_qos_power_write filp count binary (ret, value) st = Ok (ret, st)) ∧
  (private_data filp = None →
     pm_qos_power_read filp st = Ok (inl (- EINVAL), st)) ∧
  (∀ req, private_data filp = Some req →
     pm_qos_request_active (mem st req) = false →
     pm_qos_power_read filp st = Ok (inl (- EINVAL), st)) ∧
  (∀ req count binary text value r st1,
     private_data filp = Some req →
     pm_qos_request_active (mem st req) = true →
     (count = 4 ∧ binary = Some value ∨ count ≠ 4 ∧ text = (0, value)) →
     value ≠ node_prio (mem st req) →
     pm_qos_power_write filp count binary text st = Ok (r, st1) →
     r = count ∧
     ∃ cs cs1,
       constraints_at st (pm_qos_class (mem st req)) = Some cs ∧
       constraints_at st1 (pm_qos_class (mem st req)) = Some cs1 ∧
       node_prio (mem st1 req) = new_value_of cs value ∧
       pm_qos_power_read filp st1 = Ok (inr (target_value cs1), st1) ∧
       pm_qos_request (pm_qos_class (mem st req)) st1 = Ok (target_value cs1, st1)).
Proof.
  split; [|split; [|split; [|split]]].
  - intros text. unfold pm_qos_power_write. by rewrite decide_True.
  - intros count binary ret value Hc Hret. unfold pm_qos_power_write.
    rewrite decide_False by done. simpl fst. by rewrite decide_True.
  - intros Hpd. unfold pm_qos_power_read. by rewrite Hpd.
  - intros req Hpd Hact. unfold pm_qos_power_read. rewrite Hpd.
    unfold mbind, M_bind, kbind, read_req. by rewrite Hact.
  - intros req count binary text value r st1 Hpd Hact Hparse Hne Hrun.
    assert (Hw : pm_qos_power_write filp count binary text st =
                 (pm_qos_update_request (Some req) value;; kret count) st).
    { unfold pm_qos_power_write. rewrite Hpd.
      destruct Hparse as [[-> ->]|[Hc ->]].
      - by rewrite decide_True.
      - rewrite decide_False by done. simpl fst. simpl snd.
        by rewrite decide_False by tauto. }
    rewrite Hw in Hrun. unfold mbind, M_bind, kbind in Hrun.
    destruct (pm_qos_update_request (Some req) value st) as [[[] sb]|] eqn:Hupd;
      [|done].
    unfold kret in Hrun. injection Hrun as <- <-. split; [done|].
    rewrite pm_qos_update_request_is_param in Hupd.
    destruct (pm_qos_update_request_param_inv _ _ _ _ _ Hact Hupd)
      as (sa & Hd & Hl & _ & [[Heq _]|[_ [ret Hupd_a]]]); [done|].
    destruct Hd as (Harr_a & _). destruct Hl as (Hprio_a & Hcls_a & _).
    destruct (pm_qos_update_request_post _ _ _ _ _ _ _ Hupd_a)
      as (cs & cs1 & Hat & Hat1 & _ & _ & Hreq & Hget & _).
    rewrite (constraints_at_array _ _ _ Harr_a) in Hat.
    exists cs, cs1. split; [done|]. split; [done|].
    split; [by rewrite Hreq|].
    assert (Hcls1 : pm_qos_class (mem sb req) = pm_qos_class (mem st req)).
    { rewrite Hreq. simpl. done. }
    split.
    + unfold pm_qos_power_read. rewrite Hpd.
      unfold mbind, M_bind, kbind, read_req.
      assert (pm_qos_request_active (mem sb req) = true) as ->.
      { unfold pm_qos_request_active in *. by rewrite Hcls1. }
      simpl. rewrite Hcls1. rewrite (read_constraints_at _ _ _ Hat1).
      unfold read_mem, lift. by rewrite Hget.
    + unfold pm_qos_request, mbind, M_bind, kbind.
      by rewrite (read_constraints_at _ _ _ Hat1).
Qed.

(** ** The debugfs listing *)

Lemma dbg_show_loop m c l tot act out :
  0 <= act <= tot → 0 <= tot → tot + Z.of_nat (length l) <= 2147483647 →
  fold_left (dbg_show_step m c) l (tot, act, out) =
  (tot + Z.of_nat (length l), act + Z.of_nat (dbg_active_reqs m c l),
   out ++ imap (λ i, dbg_request_line m c (Z.to_nat tot + i)) l).
Proof.
  revert tot act out. induction l as [|req l IH]; intros tot act out Ha Ht Hfit.
  - simpl. unfold dbg_active_reqs. simpl. f_equal; [f_equal; lia|].
    by rewrite app_nil_r.
  - simpl length in Hfit. cbn [fold_left]. unfold dbg_show_step at 2.
    rewrite (wrap_s32_id (tot + 1)) by (unfold in_s32; lia).
    unfold dbg_active_reqs. cbn [List.filter imap].
    destruct (bool_decide (prio_of m req ≠ default_value c)) eqn:Hb.
    + rewrite (wrap_s32_id (act + 1)) by (unfold in_s32; lia).
      rewrite IH by lia. unfold dbg_active_reqs. cbn [length].
      f_equal; [f_equal; lia|].
      rewrite <- app_assoc. f_equal. cbn [app]. f_equal.
      * unfold dbg_request_line. rewrite Hb. f_equal. lia.
      * apply imap_ext. intros i x _. simpl. f_equal. lia.
    + rewrite IH by lia. unfold dbg_active_reqs. cbn [length].
      f_equal; [f_equal; lia|].
      rewrite <- app_assoc. f_equal. cbn [app]. f_equal.
      * unfold dbg_request_line. rewrite Hb. f_equal. lia.
      * apply imap_ext. intros i x _. simpl. f_equal. lia.
Qed.

(** [pm_qos_dbg_show_requests] changes nothing.  It returns [-EINVAL]
    without output for a NULL object or an object without constraints and
    prints the empty notice for an empty list.  Otherwise it prints one
    line per request in list order, numbered from 1, with the value and
    whether it is off the class default, and a closing line with the name
    of the type ([Unknown] for a forced maximum), the aggregate of the
    list, the number of requests off the default and the length of the
    list. *)
Theorem pm_qos_dbg_show_requests_spec `{kernel_errno} st :
  pm_qos_dbg_show_requests None st = Ok ((- EINVAL, []), st) ∧
  (∀ qos o, pm_qos_array st !! qos = Some o → constraints o = None →
     pm_qos_dbg_show_requests (Some qos) st = Ok ((- EINVAL, []), st)) ∧
  (∀ qos c, constraints_at st qos = Some c → c_list c = [] →
     pm_qos_dbg_show_requests (Some qos) st
       = Ok ((0, [SeqPuts dbg_empty_text]), st)) ∧
  (∀ qos c value, constraints_at st qos = Some c → c_list c ≠ [] →
     Z.of_nat (length (c_list c)) <= 2147483647 →
     pm_qos_get_value (mem st) c = Ok value →
     pm_qos_dbg_show_requests (Some qos) st
       = Ok ((0, imap (dbg_request_line (mem st) c) (c_list c) ++
                 [SeqSummaryLine (dbg_type_name (c_type c)) value
                    (Z.of_nat (dbg_active_reqs (mem st) c (c_list c)))
                    (Z.of_nat (length (c_list c)))]), st)).
Proof.
  split; [done|]. split; [|split].
  - intros qos o Ho Hc. unfold pm_qos_dbg_show_requests. rewrite Ho.
    destruct o as [cs mn]. simpl in Hc. by subst cs.
  - intros qos c (o & Ho & Hc)%constraints_at_Some Hl.
    unfold pm_qos_dbg_show_requests. rewrite Ho.
    destruct o as [cs mn]. simpl in Hc. subst cs. by rewrite Hl.
  - intros qos c value (o & Ho & Hc)%constraints_at_Some Hl Hfit Hget.
    unfold pm_qos_dbg_show_requests. rewrite Ho.
    destruct o as [cs mn]. simpl in Hc. subst cs.
    destruct (c_list c) as [|p l] eqn:Hlist; [done|]. rewrite <- Hlist in *.
    assert (plist_head_empty (c_list c) = false) as -> by by rewrite Hlist.
    rewrite (dbg_show_loop (mem st) c (c_list c) 0 0 []) by lia.
    rewrite Hget. simpl. done.
Qed.

(** ** Per-CPU targets against the global target *)

Lemma covering_values_subset `{kernel_env} m l cpu x :
  x ∈ plist_values m (covering m l cpu) → x ∈ plist_values m l.
Proof.
  unfold plist_values, covering. rewrite !list_elem_of_fmap.
  intros (q & -> & Hq). exists q. split; [done|].
  apply list_elem_of_In. apply list_elem_of_In, filter_In in Hq. tauto.
Qed.

Lemma per_cpu_aggregate_bounds `{kernel_env} m cs cpu target :
  plist_sorted m (c_list cs) → pm_qos_get_value m cs = Ok target →
  match c_type cs with
  | PM_QOS_MIN =>
      Z.min target (default_value cs) <= per_cpu_aggregate m cs cpu
        <= default_value cs
  | PM_QOS_MAX =>
      default_value cs <= per_cpu_aggregate m cs cpu
        <= Z.max target (default_value cs)
  | PM_QOS_FORCE_MAX =>
      per_cpu_aggregate m cs cpu <= Z.max target (default_value cs)
  | _ => True
  end.
Proof.
  intros Hs Hget.
  pose proof (pm_qos_get_value_Ok_spec m cs target Hs Hget) as Hspec.
  pose proof (covering_values_subset m (c_list cs) cpu) as Hsub.
  unfold per_cpu_aggregate, aggregate_spec in *.
  destruct (plist_values m (c_list cs)) as [|v0 vs] eqn:Hv.
  { assert (plist_values m (covering m (c_list cs) cpu) = []) as ->.
    { destruct (plist_values m (covering m (c_list cs) cpu)) as [|x ?]; [done|].
      exfalso. assert (x ∈ []) as Hx by (apply Hsub; set_solver).
      by apply elem_of_nil in Hx. }
    destruct (c_type cs); simpl; lia. }
  destruct (c_type cs) eqn:Hty; [done| | |done|].
  - simpl. destruct Hspec as [_ Hmax].
    destruct (fold_left_max_is_maximum
                (plist_values m (covering m (c_list cs) cpu)) (default_value cs))
      as [Hin Hge].
    split; [apply Hge; set_solver|].
    apply elem_of_cons in Hin as [->|Hin]; [lia|].
    apply Hsub, Hmax in Hin. lia.
  - simpl. destruct Hspec as [_ Hmin].
    destruct (fold_left_min_is_minimum
                (plist_values m (covering m (c_list cs) cpu)) (default_value cs))
      as [Hin Hle].
    split; [|apply Hle; set_solver].
    apply elem_of_cons in Hin as [->|Hin]; [lia|].
    apply Hsub, Hmin in Hin. lia.
  - simpl. destruct Hspec as [_ Hmax].
    destruct (plist_values m (covering m (c_list cs) cpu)) as [|x xs] eqn:Hc;
      [simpl; lia|].
    assert (List.last (x :: xs) (default_value cs) ∈ x :: xs) as Hin
      by by apply last_elem_of.
    apply Hsub, Hmax in Hin. lia.
Qed.

(** After [pm_qos_update_target] on a consistent state, what
    [pm_qos_request_for_cpu] returns for a possible CPU stays between the
    class default and what [pm_qos_request] returns: for a minimum class
    it is at most the default and at least the smaller of target and
    default, for a maximum class at least the default and at most the
    larger of the two, for a forced maximum at most the larger of the
    two. *)
Theorem pm_qos_request_for_cpu_bounds `{kernel_env}
    st c req action value np ret st' :
  kstate_inv st →
  (action ≠ PM_QOS_REMOVE_REQ → pm_qos_class (mem st req) = c) →
  (action = PM_QOS_ADD_REQ →
   ∀ cs, constraints_at st c = Some cs → req ∉ c_list cs) →
  pm_qos_update_target c req action value np st = Ok (ret, st') →
  ∃ cs' target,
    constraints_at st' c = Some cs' ∧
    pm_qos_request c st' = Ok (target, st') ∧
    ∀ cpu, cpu ∈ for_each_possible_cpu →
      ∃ v, pm_qos_request_for_cpu c cpu st' = Ok (v, st') ∧
        match c_type cs' with
        | PM_QOS_MIN => Z.min target (default_value cs') <= v <= default_value cs'
        | PM_QOS_MAX => default_value cs' <= v <= Z.max target (default_value cs')
        | PM_QOS_FORCE_MAX => v <= Z.max target (default_value cs')
        | _ => True
        end.
Proof.
  intros Hinv Hcls Hfresh Hrun.
  pose proof (kstate_inv_update_target _ _ _ _ _ _ _ _ Hinv Hcls Hfresh Hrun)
    as [_ Hinv'].
  destruct (pm_qos_update_target_post _ _ _ _ _ _ _ _ Hrun)
    as (cs & cs' & Hat & Hat' & _ & _ & _ & _ & _ & _ & Hget & Hcpu).
  destruct Hinv as [_ Hinv]. destruct (Hinv c cs Hat) as (_ & _ & Hlen).
  destruct (Hinv' c cs' Hat') as ((Hs & _) & _).
  exists cs', (target_value cs'). split; [done|]. split.
  { unfold pm_qos_request, mbind, M_bind, kbind.
    by rewrite (read_constraints_at _ _ _ Hat'). }
  intros cpu Hin. exists (per_cpu_aggregate (mem st') cs' cpu). split.
  - unfold pm_qos_request_for_cpu, mbind, M_bind, kbind.
    rewrite (read_constraints_at _ _ _ Hat'). by rewrite (Hcpu Hlen cpu Hin).
  - by apply per_cpu_aggregate_bounds.
Qed.

(** ** Repeated updates *)

Lemma pm_qos_update_request_settled `{kernel_env} st req v :
  node_prio (mem st req) = v → work_pending (mem st req) = false →
  pm_qos_update_request (Some req) v st = Ok (tt, st).
Proof.
  intros Hprio Hwork.
  unfold pm_qos_update_request, __pm_qos_update_request, mbind, M_bind, kbind,
    read_req.
  destruct (pm_qos_request_active (mem st req)); [|done]. simpl.
  rewrite Hwork. unfold kret. rewrite Hprio. by rewrite decide_False by tauto.
Qed.

(** Updating a request twice to the same value is the same as updating it
    once, for every value but PM_QOS_DEFAULT_VALUE: the second call
    changes no list, no target and no request, and calls no notifier. *)
Theorem pm_qos_update_request_idempotent `{kernel_env} st req v st1 :
  v ≠ PM_QOS_DEFAULT_VALUE →
  pm_qos_update_request (Some req) v st = Ok (tt, st1) →
  pm_qos_update_request (Some req) v st1 = Ok (tt, st1).
Proof.
  intros Hv Hrun.
  destruct (pm_qos_request_active (mem st req)) eqn:Hact; cycle 1.
  { assert (st1 = st) as ->; [|done].
    unfold pm_qos_update_request, mbind, M_bind, kbind, read_req, kret in Hrun.
    rewrite Hact in Hrun. simpl in Hrun. congruence. }
  rewrite pm_qos_update_request_is_param in Hrun.
  destruct (pm_qos_update_request_param_inv _ _ _ _ _ Hact Hrun)
    as (sa & Hd & Hl & Hw & [[Heq ->]|[_ [ret Hupd]]]).
  - apply pm_qos_update_request_settled; [|done].
    destruct Hl as (-> & _). done.
  - destruct (pm_qos_update_request_post _ _ _ _ _ _ _ Hupd)
      as (cs & cs1 & _ & _ & _ & _ & Hreq & _).
    apply pm_qos_update_request_settled; rewrite Hreq; simpl; [|done].
    unfold new_value_of. by rewrite decide_False.
Qed.

(** ** Opening and closing the device file *)

Lemma pm_qos_update_target_allocated `{kernel_env} c req action value np st ret st' :
  pm_qos_update_target c req action value np st = Ok (ret, st') →
  allocated st' = allocated st.
Proof. by intros (?&?&?&?&?&?&?&?&?&?&?)%pm_qos_update_target_inv. Qed.

Lemma pm_qos_add_request_allocated `{kernel_env} st req cls value st' :
  pm_qos_add_request (Some req) cls value st = Ok (tt, st') →
  allocated st' = allocated st.
Proof.
  intros Hrun. destruct (pm_qos_request_active (mem st req)) eqn:Hact.
  - unfold pm_qos_add_request, pm_qos_add_request_trace, mbind, M_bind, kbind,
      read_req, kret in Hrun. rewrite Hact in Hrun. congruence.
  - destruct (pm_qos_add_request_inv _ _ _ _ _ Hact Hrun)
      as (sa & ret & _ & Hall & _ & _ & _ & _ & _ & Hupd).
    apply pm_qos_update_target_allocated in Hupd. congruence.
Qed.

Lemma pm_qos_remove_request_allocated `{kernel_env} st req st' :
  pm_qos_remove_request (Some req) st = Ok (tt, st') →
  allocated st' = allocated st.
Proof.
  intros Hrun. destruct (pm_qos_request_active (mem st req)) eqn:Hact.
  - destruct (pm_qos_remove_request_inv _ _ _ Hact Hrun)
      as (sa & sb & ret & (_ & Hall & _) & _ & Hupd & _ & _ & Hall' & _).
    apply pm_qos_update_target_allocated in Hupd. congruence.
  - unfold pm_qos_remove_request, mbind, M_bind, kbind, read_req, kret in Hrun.
    rewrite Hact in Hrun. simpl in Hrun. congruence.
Qed.

(** Opening the device file of a class and closing it again gives the
    block back and leaves every list as it was: given a fresh block, the
    set of allocated blocks, the lists of all classes and all other
    requests are as before the open, and the block is zeroed. *)
Theorem pm_qos_power_open_release_round_trip `{kernel_env}
    st iminor c p filp r1 filp1 st1 r2 st2 :
  kstate_inv st →
  (∀ c1 cs, constraints_at st c1 = Some cs → p ∉ c_list cs) →
  p ∉ allocated st →
  (1 <= c)%nat →
  find_pm_qos_object_by_minor iminor st = Ok (Z.of_nat c, st) →
  pm_qos_power_open iminor (Some p) filp st = Ok ((r1, filp1), st1) →
  pm_qos_power_release filp1 st1 = Ok (r2, st2) →
  r1 = 0 ∧ r2 = 0 ∧ private_data filp1 = Some p ∧
  allocated st1 = {[p]} ∪ allocated st ∧
  allocated st2 = allocated st ∧
  (∀ c1, lists_of st2 c1 = lists_of st c1) ∧
  (∀ q, q ≠ p → mem st2 q = mem st q) ∧
  mem st2 p = zero_request.
Proof.
  intros Hinv Hfresh Hnew Hc Hfind Hopen Hrel.
  unfold pm_qos_power_open in Hopen. unfold mbind, M_bind, kbind in Hopen.
  rewrite Hfind in Hopen.
  rewrite decide_True in Hopen by (unfold PM_QOS_CPU_DMA_LATENCY; lia).
  rewrite Nat2Z.id in Hopen.
  unfold kzalloc in Hopen; cbv beta iota in Hopen.
  match type of Hopen with
  | match pm_qos_add_request _ _ _ ?s with _ => _ end = _ => set (s0 := s) in *
  end.
  assert (Hinv0 : kstate_inv s0).
  { apply (kstate_inv_frame st); [done|done|].
    intros c1 cs q Hat Hq. simpl. rewrite fn_lookup_insert_ne; [done|].
    intros ->. by apply (Hfresh c1 cs). }
  destruct (pm_qos_add_request (Some p) c PM_QOS_DEFAULT_VALUE s0)
    as [[[] sb]|] eqn:Hadd; [|done].
  unfold kret in Hopen. injection Hopen as <- <- <-.
  unfold pm_qos_power_release in Hrel. simpl private_data in Hrel.
  unfold mbind, M_bind, kbind in Hrel.
  destruct (pm_qos_remove_request (Some p) sb) as [[[] sc]|] eqn:Hrem; [|done].
  unfold kfree, kret in Hrel. injection Hrel as <- <-.
  assert (Hact0 : pm_qos_request_active (mem s0 p) = false).
  { subst s0. simpl. by rewrite fn_lookup_insert. }
  destruct (add_remove_round_trip _ _ _ _ _ _ Hinv0 Hact0 Hadd Hrem)
    as (cs & cs2 & Hat & Hat2 & Hl & _ & _ & _ & _ & _ & _ & Hother & Hmem & Hzero).
  pose proof (pm_qos_add_request_allocated _ _ _ _ _ Hadd) as Hall1.
  pose proof (pm_qos_remove_request_allocated _ _ _ Hrem) as Hall2.
  split; [done|]. split; [done|]. split; [done|].
  split; [by rewrite Hall1|]. split.
  { simpl. rewrite Hall2, Hall1. subst s0. simpl. set_solver. }
  split.
  { intros c1. unfold lists_of. simpl.
    change (constraints_at {| pm_qos_array := pm_qos_array sc; mem := mem sc;
              allocated := allocated sc ∖ {[p]};
              notifier_calls := notifier_calls sc |} c1)
      with (constraints_at sc c1).
    destruct (decide (c1 = c)) as [->|Hne].
    - rewrite Hat2. change (constraints_at st c) with (constraints_at s0 c).
      rewrite Hat. simpl. by rewrite Hl.
    - rewrite (Hother c1 Hne). done. }
  split.
  { intros q Hq. simpl. rewrite (Hmem q Hq). subst s0. simpl.
    by rewrite fn_lookup_insert_ne. }
  done.
Qed.

(** ** A request binds the CPUs of its mask *)

Lemma covering_sorted `{kernel_env} m l cpu :
  plist_sorted m l → plist_sorted m (covering m l cpu).
Proof.
  unfold plist_sorted. induction l as [|p l IH]; intros Hs; [constructor|].
  unfold plist_values in *. simpl in Hs.
  apply StronglySorted_inv in Hs as [Hs Hall].
  rewrite covering_cons. destruct (cpumask_test_cpu cpu (cpus_affine (m p))).
  - simpl. constructor; [by apply IH|].
    rewrite List.Forall_forall in *. intros x Hx. apply Hall.
    apply list_elem_of_In. apply (covering_values_subset m l cpu).
    by apply list_elem_of_In.
  - by apply IH.
Qed.

Lemma sorted_last_ge vals d x :
  StronglySorted Z.le vals → x ∈ vals → x <= List.last vals d.
Proof.
  intros Hs Hx. destruct vals as [|y ys]; [by apply elem_of_nil in Hx|].
  rewrite (last_cons_default y ys d y).
  by apply (sorted_last_maximum y ys Hs).
Qed.

Lemma fold_left_min_le l d x : x ∈ d :: l → fold_left Z.min l d <= x.
Proof. intros Hx. by apply (fold_left_min_is_minimum l d). Qed.

Lemma fold_left_max_ge l d x : x ∈ d :: l → x <= fold_left Z.max l d.
Proof. intros Hx. by apply (fold_left_max_is_maximum l d). Qed.

(** After [pm_qos_update_target] has added or updated a request on a
    consistent state, [pm_qos_request_for_cpu] honours it on every possible
    CPU of the request's mask: in a minimum class the CPU's target is at
    most the request's value, in a maximum or forced-maximum class at
    least. *)
Theorem pm_qos_request_for_cpu_honours_request `{kernel_env}
    st c req action value np ret st' :
  kstate_inv st →
  action ≠ PM_QOS_REMOVE_REQ →
  pm_qos_class (mem st req) = c →
  (action = PM_QOS_ADD_REQ →
   ∀ cs, constraints_at st c = Some cs → req ∉ c_list cs) →
  pm_qos_update_target c req action value np st = Ok (ret, st') →
  ∃ cs,
    constraints_at st c = Some cs ∧
    node_prio (mem st' req) = new_value_of cs value ∧
    ∀ cpu, cpu ∈ for_each_possible_cpu →
      cpumask_test_cpu cpu (cpus_affine (mem st req)) = true →
      ∃ v, pm_qos_request_for_cpu c cpu st' = Ok (v, st') ∧
        match c_type cs with
        | PM_QOS_MIN => v <= new_value_of cs value
        | PM_QOS_MAX | PM_QOS_FORCE_MAX => new_value_of cs value <= v
        | _ => True
        end.
Proof.
  intros Hinv Hact Hcls Hfresh Hrun.
  pose proof (kstate_inv_update_target _ _ _ _ _ _ _ _ Hinv
                (λ _, Hcls) Hfresh Hrun) as [_ Hinv'].
  destruct (pm_qos_update_target_post _ _ _ _ _ _ _ _ Hrun)
    as (cs & cs' & Hat & Hat' & Hlist & _ & Hdv & _ & Hty & _ & _ & Hcpu).
  destruct Hinv as [_ Hinv]. destruct (Hinv c cs Hat) as ((_ & Hnd) & _ & Hlen).
  destruct (Hinv' c cs' Hat') as ((Hs & _) & _).
  pose proof (pm_qos_update_list_req _ _ _ _ _ _ _ Hlist) as Hreq.
  assert (Hreq' : mem st' req = plist_node_init (mem st req) (new_value_of cs value))
    by by destruct action.
  assert (Hin : req ∈ c_list cs').
  { apply (pm_qos_update_list_elem _ _ _ _ _ _ _ req Hnd Hlist).
    destruct action; [by left|by left|done]. }
  exists cs. split; [done|]. split; [by rewrite Hreq'|].
  intros cpu Hposs Hbit.
  exists (per_cpu_aggregate (mem st') cs' cpu). split.
  { unfold pm_qos_request_for_cpu, mbind, M_bind, kbind.
    rewrite (read_constraints_at _ _ _ Hat'). by rewrite (Hcpu Hlen cpu Hposs). }
  assert (Hval : new_value_of cs value
                 ∈ plist_values (mem st') (covering (mem st') (c_list cs') cpu)).
  { unfold plist_values. apply list_elem_of_fmap. exists req. split.
    - unfold prio_of. by rewrite Hreq'.
    - unfold covering. apply list_elem_of_In, filter_In.
      split; [by apply list_elem_of_In|]. by rewrite Hreq'. }
  unfold per_cpu_aggregate. rewrite Hty.
  destruct (c_type cs); simpl; [done| | |done|].
  - apply fold_left_max_ge. set_solver.
  - apply fold_left_min_le. set_solver.
  - apply sorted_last_ge; [|done]. by apply covering_sorted.
Qed.

(** ** Device minors *)

(** The minors handed out at boot lead back to their classes in every
    state whose table still has those minors. *)
Lemma find_pm_qos_object_by_minor_minors `{kernel_env} dv minor_of st :
  minor <$> pm_qos_array st = minor <$> pm_qos_array (boot_state dv minor_of) →
  (∀ a b, (1 <= a < 17)%nat → (1 <= b < 17)%nat →
          minor_of a = minor_of b → a = b) →
  (∀ c, (1 <= c < 17)%nat →
     find_pm_qos_object_by_minor (minor_of c) st = Ok (Z.of_nat c, st)) ∧
  (∀ mn, (∀ c, (1 <= c < 17)%nat → minor_of c ≠ mn) →
     find_pm_qos_object_by_minor mn st = Ok (-1, st)).
Proof.
  intros Harr Hinj.
  assert (Hlen : length (pm_qos_array st) = 17%nat).
  { rewrite <- (length_fmap minor), Harr. by rewrite length_fmap. }
  assert (Hminor : ∀ c o, (1 <= c)%nat → pm_qos_array st !! c = Some o →
            (c < 17)%nat ∧ minor o = minor_of c).
  { intros c o Hc Ho.
    assert ((minor <$> pm_qos_array st) !! c = Some (minor o)) as Hm
      by (by rewrite list_lookup_fmap, Ho).
    rewrite Harr in Hm. unfold boot_state in Hm. simpl in Hm.
    do 17 (destruct c as [|c];
      [first [lia | simpl in Hm; injection Hm as <-; split; [lia|done]]|]).
    done. }
  split.
  - intros c Hc.
    destruct (find_pm_qos_object_by_minor_least st (minor_of c))
      as (ret & Hrun & [[_ Hall]|(c1 & o & -> & Hc1 & Ho & Hmn & _)]).
    + exfalso. assert (is_Some (pm_qos_array st !! c)) as [o Ho].
      { apply lookup_lt_is_Some. lia. }
      apply (Hall c o); [lia|done|]. by apply Hminor; [lia|].
    + destruct (Hminor c1 o Hc1 Ho) as [Hlt Hm].
      rewrite Hrun. do 3 f_equal. apply Hinj; [lia|lia|congruence].
  - intros mn Hmn.
    destruct (find_pm_qos_object_by_minor_least st mn)
      as (ret & Hrun & [[-> _]|(c1 & o & -> & Hc1 & Ho & Hmo & _)]); [done|].
    destruct (Hminor c1 o Hc1 Ho) as [Hlt Hm].
    exfalso. apply (Hmn c1); [lia|congruence].
Qed.

(** No call changes a device minor or the number of classes. *)
Lemma minors_insert (l : list pm_qos_object) c o cs' :
  l !! c = Some o →
  minor <$> <[c := {| constraints := cs'; minor := minor o |}]> l = minor <$> l.
Proof.
  intros Ho. rewrite list_fmap_insert. simpl. apply list_insert_id.
  by rewrite list_lookup_fmap, Ho.
Qed.

Lemma pm_qos_update_target_minors `{kernel_env} c req action value np st ret st' :
  pm_qos_update_target c req action value np st = Ok (ret, st') →
  minor <$> pm_qos_array st' = minor <$> pm_qos_array st.
Proof.
  intros (o & cs & prev & curr & cs' & Ho & _ & _ & -> & _)%pm_qos_update_target_inv.
  by apply minors_insert.
Qed.

Lemma pm_qos_add_request_minors `{kernel_env} st req cls value st' :
  pm_qos_add_request req cls value st = Ok (tt, st') →
  minor <$> pm_qos_array st' = minor <$> pm_qos_array st.
Proof.
  intros Hrun. destruct req as [req|]; cycle 1.
  { unfold pm_qos_add_request, pm_qos_add_request_trace, kret in Hrun. congruence. }
  destruct (pm_qos_request_active (mem st req)) eqn:Hact.
  - unfold pm_qos_add_request, pm_qos_add_request_trace, mbind, M_bind, kbind,
      read_req, kret in Hrun. rewrite Hact in Hrun. congruence.
  - destruct (pm_qos_add_request_inv _ _ _ _ _ Hact Hrun)
      as (sa & ret & Harr & _ & _ & _ & _ & _ & _ & Hupd).
    apply pm_qos_update_target_minors in Hupd. congruence.
Qed.

Lemma pm_qos_update_request_param_minors `{kernel_env} st req v np st' :
  pm_qos_update_request_param req v np st = Ok (tt, st') →
  minor <$> pm_qos_array st' = minor <$> pm_qos_array st.
Proof.
  intros Hrun. destruct req as [req|]; cycle 1.
  { unfold pm_qos_update_request_param, kret in Hrun. congruence. }
  destruct (pm_qos_request_active (mem st req)) eqn:Hact; cycle 1.
  { unfold pm_qos_update_request_param, mbind, M_bind, kbind, read_req, kret
      in Hrun. rewrite Hact in Hrun. simpl in Hrun. congruence. }
  destruct (pm_qos_update_request_param_inv _ _ _ _ _ Hact Hrun)
    as (st1 & (Harr & _) & _ & _ & [[_ ->]|[_ [ret Hupd]]]).
  - by rewrite Harr.
  - apply pm_qos_update_target_minors in Hupd. congruence.
Qed.

Lemma pm_qos_update_request_timeout_minors `{kernel_env} st req v t st' :
  pm_qos_update_request_timeout req v t st = Ok (tt, st') →
  minor <$> pm_qos_array st' = minor <$> pm_qos_array st.
Proof.
  intros Hrun. destruct req as [req|]; cycle 1.
  { unfold pm_qos_update_request_timeout, kret in Hrun. congruence. }
  destruct (pm_qos_request_active (mem st req)) eqn:Hact; cycle 1.
  { unfold pm_qos_update_request_timeout, mbind, M_bind, kbind, read_req, kret
      in Hrun. rewrite Hact in Hrun. simpl in Hrun. congruence. }
  destruct (pm_qos_update_request_timeout_inv _ _ _ _ _ Hact Hrun)
    as (st1 & st2 & (Harr & _) & _ & Hmid & (Harr2 & _) & _).
  rewrite Harr2. destruct Hmid as [[_ ->]|[_ [ret Hupd]]].
  - by rewrite Harr.
  - apply pm_qos_update_target_minors in Hupd. congruence.
Qed.

Lemma pm_qos_remove_request_minors `{kernel_env} st req st' :
  pm_qos_remove_request req st = Ok (tt, st') →
  minor <$> pm_qos_array st' = minor <$> pm_qos_array st.
Proof.
  intros Hrun. destruct req as [req|]; cycle 1.
  { unfold pm_qos_remove_request, kret in Hrun. congruence. }
  destruct (pm_qos_request_active (mem st req)) eqn:Hact; cycle 1.
  { unfold pm_qos_remove_request, mbind, M_bind, kbind, read_req, kret in Hrun.
    rewrite Hact in Hrun. simpl in Hrun. congruence. }
  destruct (pm_qos_remove_request_inv _ _ _ Hact Hrun)
    as (st1 & st2 & ret & (Harr & _) & _ & Hupd & Harr2 & _).
  apply pm_qos_update_target_minors in Hupd. congruence.
Qed.

Lemma pm_qos_irq_handlers_minors `{kernel_env} st :
  (∀ req mask st', pm_qos_irq_notify req mask st = Ok (tt, st') →
     minor <$> pm_qos_array st' = minor <$> pm_qos_array st) ∧
  (∀ req st', pm_qos_irq_release req st = Ok (tt, st') →
     minor <$> pm_qos_array st' = minor <$> pm_qos_array st).
Proof.
  split.
  - intros req mask st' Hrun. unfold pm_qos_irq_notify in Hrun.
    unfold mbind, M_bind, kbind, read_req, write_req, write_mem in Hrun.
    match type of Hrun with
    | match ?run with _ => _ end = _ => destruct run as [[ret st2]|] eqn:Hupd; [|done]
    end.
    unfold kret in Hrun. injection Hrun as <-.
    by apply pm_qos_update_target_minors in Hupd.
  - intros req st' Hrun. unfold pm_qos_irq_release in Hrun.
    unfold mbind, M_bind, kbind, read_req, write_req, write_mem in Hrun.
    match type of Hrun with
    | match ?run with _ => _ end = _ => destruct run as [[cs st1]|] eqn:Hrc; [|done]
    end.
    assert (pm_qos_array st1 = pm_qos_array st) as Harr.
    { unfold read_constraints in Hrc. simpl in Hrc.
      destruct (pm_qos_array st !! _) as [[[?|] ?]|]; try done.
      by injection Hrc as _ <-. }
    destruct (pm_qos_update_target _ _ _ _ _ st1) as [[ret st2]|] eqn:Hupd; [|done].
    unfold kret in Hrun. injection Hrun as <-.
    apply pm_qos_update_target_minors in Hupd. congruence.
Qed.

Lemma pm_qos_update_constraints_minors `{kernel_errno} st cls c ret st' :
  pm_qos_update_constraints cls c st = Ok (ret, st') →
  minor <$> pm_qos_array st' = minor <$> pm_qos_array st.
Proof.
  intros Hrun. destruct c as [c|]; cycle 1.
  { unfold pm_qos_update_constraints, kret in Hrun. congruence. }
  unfold pm_qos_update_constraints in Hrun.
  rewrite pm_qos_update_constraints_from_seq in Hrun.
  destruct (decide _) in Hrun; [|congruence].
  unfold pm_qos_update_constraints_at in Hrun.
  destruct (pm_qos_array st !! Z.to_nat cls) as [[[r|] mn]|] eqn:Ho; try done.
  - unfold mbind, M_bind, kbind, write_constraints in Hrun.
    rewrite Ho in Hrun. unfold kret in Hrun. injection Hrun as _ <-. simpl.
    by apply (minors_insert _ _ {| constraints := Some r; minor := mn |}).
  - destruct (update_constraints_assigns c); congruence.
Qed.

Lemma qos_step_minors `{kernel_env} `{kernel_errno} st st' :
  qos_step st st' → minor <$> pm_qos_array st' = minor <$> pm_qos_array st.
Proof.
  intros [req cls value Hrun|req v Hrun|req v np Hrun|req v t Hrun|req Hrun
    |req Hrun|req mask Hrun|req Hrun|cls c ret Hrun|iminor answer filp r Hfresh Hrun
    |filp ret Hrun|filp count binary text ret Hrun].
  - by apply pm_qos_add_request_minors in Hrun.
  - rewrite pm_qos_update_request_is_param in Hrun.
    by apply pm_qos_update_request_param_minors in Hrun.
  - by apply pm_qos_update_request_param_minors in Hrun.
  - by apply pm_qos_update_request_timeout_minors in Hrun.
  - by apply pm_qos_remove_request_minors in Hrun.
  - unfold pm_qos_work_fn in Hrun.
    apply __pm_qos_update_request_inv in Hrun as [[_ ->]|[_ [ret Hupd]]]; [done|].
    by apply pm_qos_update_target_minors in Hupd.
  - by apply (proj1 (pm_qos_irq_handlers_minors st) _ _ _ Hrun).
  - by apply (proj2 (pm_qos_irq_handlers_minors st) _ _ Hrun).
  - by apply pm_qos_update_constraints_minors in Hrun.
  - unfold pm_qos_power_open, mbind, M_bind, kbind, find_pm_qos_object_by_minor
      in Hrun.
    destruct (decide _) as [Hc|Hc] in Hrun; cycle 1.
    { unfold kret in Hrun. congruence. }
    destruct answer as [p|]; unfold kzalloc in Hrun; cbv beta iota in Hrun; cycle 1.
    { unfold kret in Hrun. congruence. }
    match type of Hrun with
    | match ?run with _ => _ end = _ => destruct run as [[[] st2]|] eqn:Hadd; [|done]
    end.
    unfold kret in Hrun. injection Hrun as _ <-.
    by apply pm_qos_add_request_minors in Hadd.
  - unfold pm_qos_power_release, mbind, M_bind, kbind in Hrun.
    destruct (pm_qos_remove_request _ st) as [[[] st2]|] eqn:Hrem; [|done].
    apply pm_qos_remove_request_minors in Hrem.
    destruct (private_data filp); unfold kfree, kret in Hrun;
      injection Hrun as _ <-; done.
  - unfold pm_qos_power_write in Hrun.
    destruct (if decide (count = 4) then _ else _) as [e|value] in Hrun.
    { unfold kret in Hrun. congruence. }
    unfold mbind, M_bind, kbind in Hrun.
    destruct (pm_qos_update_request _ _ st) as [[[] st2]|] eqn:Hupd; [|done].
    unfold kret in Hrun. injection Hrun as _ <-.
    rewrite pm_qos_update_request_is_param in Hupd.
    by apply pm_qos_update_request_param_minors in Hupd.
Qed.

(** The minors [misc_register] hands out at boot lead back to their
    classes for good: when they are pairwise different, then in every
    state reached from boot the minor of class [c] finds class [c], and a
    minor none of them has finds nothing. *)
Theorem find_pm_qos_object_by_minor_reachable `{kernel_env} `{kernel_errno}
    dv minor_of st :
  qos_steps (boot_state dv minor_of) st →
  (∀ a b, (1 <= a < 17)%nat → (1 <= b < 17)%nat →
          minor_of a = minor_of b → a = b) →
  (∀ c, (1 <= c < 17)%nat →
     find_pm_qos_object_by_minor (minor_of c) st = Ok (Z.of_nat c, st)) ∧
  (∀ mn, (∀ c, (1 <= c < 17)%nat → minor_of c ≠ mn) →
     find_pm_qos_object_by_minor mn st = Ok (-1, st)).
Proof.
  intros Hsteps. apply (find_pm_qos_object_by_minor_minors dv).
  induction Hsteps as [|st1 st2 _ IH Hstep]; [done|].
  rewrite <- IH. by apply qos_step_minors.
Qed.

(** * The consistency results, one per entry point *)

(** [pm_qos_read_req_value] returns the value of a request that is on the
    class's list and [-ENODATA] for one that is not; it changes nothing. *)
Theorem pm_qos_read_req_value_spec `{kernel_errno} st c cs req :
  constraints_at st c = Some cs →
  pm_qos_read_req_value c req st =
  Ok (if decide (req ∈ c_list cs) then node_prio (mem st req) else - ENODATA, st).
Proof. apply pm_qos_read_req_value_found. Qed.

(** [pm_qos_update_target] keeps the state consistent (every list ordered
    and without repeated nodes, every linked request tagged with the class
    of its list, slot 0 empty, [NR_CPUS] per-CPU targets per class) when it
    is given a request that carries the class it is linked into and, for
    an add, is not yet on the list. *)
Theorem pm_qos_update_target_keeps_inv `{kernel_env}
    st c req action value np ret st' :
  kstate_inv st →
  (action ≠ PM_QOS_REMOVE_REQ → pm_qos_class (mem st req) = c) →
  (action = PM_QOS_ADD_REQ →
   ∀ cs, constraints_at st c = Some cs → req ∉ c_list cs) →
  pm_qos_update_target c req action value np st = Ok (ret, st') →
  kstate_inv st'.
Proof. apply kstate_inv_update_target. Qed.

(** [pm_qos_add_request] keeps the state consistent: its activity guard
    is enough to keep a node from being linked twice or into two lists. *)
Theorem pm_qos_add_request_keeps_inv `{kernel_env} st req cls value st' :
  kstate_inv st →
  pm_qos_add_request req cls value st = Ok (tt, st') →
  kstate_inv st'.
Proof. apply kstate_inv_add_request. Qed.

(** The update calls keep the state consistent: [pm_qos_update_request],
    [pm_qos_update_request_param], [pm_qos_update_request_timeout] and the
    timeout handler [pm_qos_work_fn]. *)
Theorem pm_qos_update_requests_keep_inv `{kernel_env} st :
  kstate_inv st →
  (∀ req v np st',
     pm_qos_update_request_param req v np st = Ok (tt, st') → kstate_inv st') ∧
  (∀ req v st',
     pm_qos_update_request req v st = Ok (tt, st') → kstate_inv st') ∧
  (∀ req v timeout_us st',
     pm_qos_update_request_timeout req v timeout_us st = Ok (tt, st') →
     kstate_inv st') ∧
  (∀ req st', pm_qos_work_fn req st = Ok (tt, st') → kstate_inv st').
Proof. apply kstate_inv_update_requests. Qed.

(** After [pm_qos_remove_request] the state is consistent, the request is
    inactive and linked into no list, and removing it once more changes
    nothing. *)
Theorem pm_qos_remove_request_keeps_inv `{kernel_env} st req st' :
  kstate_inv st →
  pm_qos_remove_request (Some req) st = Ok (tt, st') →
  kstate_inv st' ∧
  pm_qos_request_active (mem st' req) = false ∧
  (∀ c cs, constraints_at st' c = Some cs → req ∉ c_list cs) ∧
  pm_qos_remove_request (Some req) st' = Ok (tt, st').
Proof.
  intros Hinv Hrun.
  destruct (kstate_inv_remove_request _ _ _ Hinv Hrun) as (Hinv' & Hact & Hun).
  repeat (split; [done|]).
  unfold pm_qos_remove_request, mbind, M_bind, kbind, read_req.
  by rewrite Hact.
Qed.

(** The IRQ affinity callbacks [pm_qos_irq_notify] and
    [pm_qos_irq_release] keep the state consistent. *)
Theorem pm_qos_irq_handlers_keep_inv `{kernel_env} st :
  kstate_inv st →
  (∀ req mask st', pm_qos_irq_notify req mask st = Ok (tt, st') → kstate_inv st') ∧
  (∀ req st', pm_qos_irq_release req st = Ok (tt, st') → kstate_inv st').
Proof. apply kstate_inv_irq_handlers. Qed.

(** The misc-device file operations keep the state consistent, given that
    the allocator hands out a block that is linked into no list. *)
Theorem pm_qos_power_files_keep_inv `{kernel_env} `{kernel_errno} st :
  kstate_inv st →
  (∀ iminor answer filp r st',
     (∀ p c cs, answer = Some p → constraints_at st c = Some cs → p ∉ c_list cs) →
     pm_qos_power_open iminor answer filp st = Ok (r, st') → kstate_inv st') ∧
  (∀ filp r st', pm_qos_power_release filp st = Ok (r, st') → kstate_inv st') ∧
  (∀ filp count binary text r st',
     pm_qos_power_write filp count binary text st = Ok (r, st') → kstate_inv st').
Proof. apply kstate_inv_power_files. Qed.

(** Adding a request and removing it again leaves the class with the list
    it had, every other class and every other request untouched, and the
    request zeroed.  The target afterwards is the aggregate of the old
    list and the per-CPU targets are the per-CPU aggregates of the old
    list, whatever they were before. *)
Theorem pm_qos_add_remove_round_trip `{kernel_env} st req c value st1 st2 :
  kstate_inv st →
  pm_qos_request_active (mem st req) = false →
  pm_qos_add_request (Some req) c value st = Ok (tt, st1) →
  pm_qos_remove_request (Some req) st1 = Ok (tt, st2) →
  ∃ cs cs2,
    constraints_at st c = Some cs ∧ constraints_at st2 c = Some cs2 ∧
    c_list cs2 = c_list cs ∧
    default_value cs2 = default_value cs ∧
    no_constraint_value cs2 = no_constraint_value cs ∧
    c_type cs2 = c_type cs ∧ notifiers cs2 = notifiers cs ∧
    pm_qos_get_value (mem st) cs = Ok (target_value cs2) ∧
    (∀ cpu, cpu ∈ for_each_possible_cpu →
       target_per_cpu cs2 !! cpu = Some (per_cpu_aggregate (mem st) cs cpu)) ∧
    (∀ c1, c1 ≠ c → constraints_at st2 c1 = constraints_at st c1) ∧
    (∀ q, q ≠ req → mem st2 q = mem st q) ∧
    mem st2 req = zero_request.
Proof. apply add_remove_round_trip. Qed.

(** [find_pm_qos_object_by_minor] changes nothing and returns the least
    class from [PM_QOS_CPU_DMA_LATENCY] on whose device has the minor, or
    -1 when no such class has it; slot 0 is never searched. *)
Theorem find_pm_qos_object_by_minor_spec `{kernel_env} st mn :
  ∃ ret,
    find_pm_qos_object_by_minor mn st = Ok (ret, st) ∧
    (ret = -1 ∧
     (∀ c o, (1 <= c)%nat → pm_qos_array st !! c = Some o → minor o ≠ mn) ∨
     ∃ c o, ret = Z.of_nat c ∧ (1 <= c)%nat ∧
       pm_qos_array st !! c = Some o ∧ minor o = mn ∧
       ∀ c' o', (1 <= c' < c)%nat → pm_qos_array st !! c' = Some o' →
                minor o' ≠ mn).
Proof. apply find_pm_qos_object_by_minor_least. Qed.

(** [pm_qos_update_constraints] fails with [-EINVAL] and changes nothing
    for a NULL argument or a class outside [1, PM_QOS_NUM_CLASSES); for a
    class with a constraints object it returns 0, overwrites exactly the
    non-zero fields among target value, default value, type and notifier
    head, and leaves the list, the per-CPU targets, the requests and the
    other classes alone, so a consistent state stays consistent.  The new
    target value is what [pm_qos_request] returns next, whatever the
    requests ask for. *)
Theorem pm_qos_update_constraints_spec `{kernel_env} `{kernel_errno} st cls :
  pm_qos_update_constraints cls None st = Ok (- EINVAL, st) ∧
  ∀ c,
    (¬ (1 <= cls < Z.of_nat (length (pm_qos_array st))) →
     pm_qos_update_constraints cls (Some c) st = Ok (- EINVAL, st)) ∧
    ∀ r, 1 <= cls → constraints_at st (Z.to_nat cls) = Some r →
      ∃ st',
        pm_qos_update_constraints cls (Some c) st = Ok (0, st') ∧
        constraints_at st' (Z.to_nat cls) = Some (update_constraints_fields r c) ∧
        (∀ c1, c1 ≠ Z.to_nat cls → constraints_at st' c1 = constraints_at st c1) ∧
        mem st' = mem st ∧ notifier_calls st' = notifier_calls st ∧
        c_list (update_constraints_fields r c) = c_list r ∧
        target_per_cpu (update_constraints_fields r c) = target_per_cpu r ∧
        target_value (update_constraints_fields r c)
          = (if decide (target_value c = 0) then target_value r else target_value c) ∧
        default_value (update_constraints_fields r c)
          = (if decide (default_value c = 0) then default_value r
             else default_value c) ∧
        c_type (update_constraints_fields r c)
          = (if decide (c_type c = PM_QOS_UNITIALIZED) then c_type r else c_type c) ∧
        notifiers (update_constraints_fields r c)
          = (if notifiers c is Some nh then Some nh else notifiers r) ∧
        (kstate_inv st → kstate_inv st') ∧
        (target_value c ≠ 0 →
         pm_qos_request (Z.to_nat cls) st' = Ok (target_value c, st')).
Proof. apply pm_qos_update_constraints_post. Qed.

(** * Sample runs *)

Section SampleRuns.

#[local] Existing Instance Sample.env.
#[local] Existing Instance Demo.errno.

Lemma sample_dma1_inv : kstate_inv Sample.st_dma1.
Proof.
  apply (kstate_inv_add_request Sample.boot (Some 1%nat) 1%nat 100).
  - apply boot_state_inv.
  - by vm_compute.
Qed.

Lemma sample_dma2_inv : kstate_inv Sample.st_dma2.
Proof.
  apply (kstate_inv_add_request Sample.st_dma1 (Some 2%nat) 1%nat 50).
  - apply sample_dma1_inv.
  - by vm_compute.
Qed.

Lemma demo_added_inv : kstate_inv Demo.st_added.
Proof.
  apply (kstate_inv_add_request Sample.st_dma2 (Some 5%nat) 1%nat 70).
  - apply sample_dma2_inv.
  - by vm_compute.
Qed.

Lemma demo_timed_inv : kstate_inv Demo.st_timed.
Proof.
  apply (proj1 (proj2 (proj2 (kstate_inv_update_requests Sample.st_dma2
           sample_dma2_inv))) (Some 1%nat) 30 500).
  by vm_compute.
Qed.

Lemma sample_irq_inv : kstate_inv Sample.st_irq.
Proof.
  apply (proj1 (kstate_inv_irq_handlers Sample.st_dma2 sample_dma2_inv) 2%nat 3).
  by vm_compute.
Qed.

Lemma sample_dma2_fresh p c cs :
  pm_qos_class (mem Sample.st_dma2 p) = 0%nat →
  constraints_at Sample.st_dma2 c = Some cs → p ∉ c_list cs.
Proof. apply kstate_inv_inactive, sample_dma2_inv. Qed.

Lemma demo_open_inv : kstate_inv Demo.st_open.
Proof.
  apply (proj1 (kstate_inv_power_files Sample.st_dma2 sample_dma2_inv)
           51 (Some 9%nat) Demo.filp0 (0, Demo.filp9)).
  - intros p c cs [= <-]. by apply sample_dma2_fresh.
  - by vm_compute.
Qed.

Lemma pm_qos_read_req_value_spec_witness :
  pm_qos_read_req_value 1 2 Sample.st_dma2 =
  Ok (if decide (2%nat ∈ c_list Demo.cs_dma2)
      then node_prio (mem Sample.st_dma2 2%nat) else - ENODATA, Sample.st_dma2).
Proof.
  apply (pm_qos_read_req_value_spec Sample.st_dma2 1%nat Demo.cs_dma2 2%nat).
  by vm_compute.
Defined.

Lemma pm_qos_read_req_value_after_update_witness :
  pm_qos_read_req_value 1 1 Sample.st_dma3 =
  Ok (match PM_QOS_UPDATE_REQ with
      | PM_QOS_REMOVE_REQ => - ENODATA
      | _ => new_value_of Demo.cs_dma2 20
      end, Sample.st_dma3).
Proof.
  apply (pm_qos_read_req_value_after_update Sample.st_dma2 1%nat Demo.cs_dma2
           1%nat PM_QOS_UPDATE_REQ 20 None 1 Sample.st_dma3).
  - by vm_compute.
  - closed_nodup.
  - by vm_compute.
Defined.

Lemma pm_qos_update_target_keeps_inv_witness : kstate_inv Sample.st_dma3.
Proof.
  apply (pm_qos_update_target_keeps_inv Sample.st_dma2 1%nat 1%nat
           PM_QOS_UPDATE_REQ 20 None 1 Sample.st_dma3).
  - apply sample_dma2_inv.
  - intros _. by vm_compute.
  - intros Hadd. discriminate Hadd.
  - by vm_compute.
Defined.

Lemma pm_qos_add_request_keeps_inv_witness : kstate_inv Demo.st_added.
Proof.
  apply (pm_qos_add_request_keeps_inv Sample.st_dma2 (Some 5%nat) 1%nat 70
           Demo.st_added).
  - apply sample_dma2_inv.
  - by vm_compute.
Defined.

Lemma pm_qos_update_requests_keep_inv_witness :
  kstate_inv Demo.st_updated ∧ kstate_inv Demo.st_timed ∧ kstate_inv Demo.st_expired.
Proof.
  split; [|split].
  - apply (proj1 (proj2 (pm_qos_update_requests_keep_inv Sample.st_dma2
             sample_dma2_inv)) (Some 1%nat) 30).
    by vm_compute.
  - apply (proj1 (proj2 (proj2 (pm_qos_update_requests_keep_inv Sample.st_dma2
             sample_dma2_inv))) (Some 1%nat) 30 500).
    by vm_compute.
  - apply (proj2 (proj2 (proj2 (pm_qos_update_requests_keep_inv Demo.st_timed
             demo_timed_inv))) 1%nat).
    by vm_compute.
Defined.

Lemma pm_qos_remove_request_keeps_inv_witness :
  kstate_inv Demo.st_removed ∧
  pm_qos_request_active (mem Demo.st_removed 5%nat) = false ∧
  (∀ c cs, constraints_at Demo.st_removed c = Some cs → 5%nat ∉ c_list cs) ∧
  pm_qos_remove_request (Some 5%nat) Demo.st_removed = Ok (tt, Demo.st_removed).
Proof.
  apply (pm_qos_remove_request_keeps_inv Demo.st_added 5%nat Demo.st_removed).
  - apply demo_added_inv.
  - by vm_compute.
Defined.

Lemma pm_qos_irq_handlers_keep_inv_witness :
  kstate_inv Sample.st_irq ∧ kstate_inv Sample.st_rel.
Proof.
  split.
  - apply (proj1 (pm_qos_irq_handlers_keep_inv Sample.st_dma2 sample_dma2_inv)
             2%nat 3).
    by vm_compute.
  - apply (proj2 (pm_qos_irq_handlers_keep_inv Sample.st_irq sample_irq_inv)
             2%nat).
    by vm_compute.
Defined.

Lemma pm_qos_power_files_keep_inv_witness :
  kstate_inv Demo.st_open ∧ kstate_inv Demo.st_closed ∧ kstate_inv Demo.st_written.
Proof.
  split; [|split].
  - apply (proj1 (pm_qos_power_files_keep_inv Sample.st_dma2 sample_dma2_inv)
             51 (Some 9%nat) Demo.filp0 (0, Demo.filp9)).
    + intros p c cs [= <-]. by apply sample_dma2_fresh.
    + by vm_compute.
  - apply (proj1 (proj2 (pm_qos_power_files_keep_inv Demo.st_open demo_open_inv))
             Demo.filp9 0).
    by vm_compute.
  - apply (proj2 (proj2 (pm_qos_power_files_keep_inv Sample.st_dma2
             sample_dma2_inv)) Demo.filp2 4 (Some 40) (0, 0) 4).
    by vm_compute.
Defined.

Lemma pm_qos_add_remove_round_trip_witness :
  ∃ cs cs2,
    constraints_at Sample.st_dma2 1 = Some cs ∧
    constraints_at Demo.st_removed 1 = Some cs2 ∧
    c_list cs2 = c_list cs ∧
    default_value cs2 = default_value cs ∧
    no_constraint_value cs2 = no_constraint_value cs ∧
    c_type cs2 = c_type cs ∧ notifiers cs2 = notifiers cs ∧
    pm_qos_get_value (mem Sample.st_dma2) cs = Ok (target_value cs2) ∧
    (∀ cpu, cpu ∈ for_each_possible_cpu →
       target_per_cpu cs2 !! cpu
         = Some (per_cpu_aggregate (mem Sample.st_dma2) cs cpu)) ∧
    (∀ c1, c1 ≠ 1%nat →
       constraints_at Demo.st_removed c1 = constraints_at Sample.st_dma2 c1) ∧
    (∀ q, q ≠ 5%nat → mem Demo.st_removed q = mem Sample.st_dma2 q) ∧
    mem Demo.st_removed 5%nat = zero_request.
Proof.
  apply (pm_qos_add_remove_round_trip Sample.st_dma2 5%nat 1%nat 70
           Demo.st_added Demo.st_removed).
  - apply sample_dma2_inv.
  - by vm_compute.
  - by vm_compute.
  - by vm_compute.
Defined.

Lemma pm_qos_update_constraints_spec_witness :
  pm_qos_update_constraints 99 (Some Demo.attrs) Sample.st_dma2
    = Ok (- EINVAL, Sample.st_dma2) ∧
  ∃ st',
    pm_qos_update_constraints 1 (Some Demo.attrs) Sample.st_dma2 = Ok (0, st') ∧
    constraints_at st' (Z.to_nat 1)
      = Some (update_constraints_fields Demo.cs_dma2 Demo.attrs) ∧
    (∀ c1, c1 ≠ Z.to_nat 1 →
       constraints_at st' c1 = constraints_at Sample.st_dma2 c1) ∧
    mem st' = mem Sample.st_dma2 ∧
    notifier_calls st' = notifier_calls Sample.st_dma2 ∧
    c_list (update_constraints_fields Demo.cs_dma2 Demo.attrs)
      = c_list Demo.cs_dma2 ∧
    target_per_cpu (update_constraints_fields Demo.cs_dma2 Demo.attrs)
      = target_per_cpu Demo.cs_dma2 ∧
    target_value (update_constraints_fields Demo.cs_dma2 Demo.attrs)
      = (if decide (target_value Demo.attrs = 0) then target_value Demo.cs_dma2
         else target_value Demo.attrs) ∧
    default_value (update_constraints_fields Demo.cs_dma2 Demo.attrs)
      = (if decide (default_value Demo.attrs = 0) then default_value Demo.cs_dma2
         else default_value Demo.attrs) ∧
    c_type (update_constraints_fields Demo.cs_dma2 Demo.attrs)
      = (if decide (c_type Demo.attrs = PM_QOS_UNITIALIZED)
         then c_type Demo.cs_dma2 else c_type Demo.attrs) ∧
    notifiers (update_constraints_fields Demo.cs_dma2 Demo.attrs)
      = (if notifiers Demo.attrs is Some nh then Some nh
         else notifiers Demo.cs_dma2) ∧
    (kstate_inv Sample.st_dma2 → kstate_inv st') ∧
    (target_value Demo.attrs ≠ 0 →
     pm_qos_request (Z.to_nat 1) st' = Ok (target_value Demo.attrs, st')).
Proof.
  split.
  - apply (proj1 (proj2 (pm_qos_update_constraints_spec Sample.st_dma2 99)
                    Demo.attrs)).
    intros [_ Hlt]. vm_compute in Hlt. discriminate Hlt.
  - apply (proj2 (proj2 (pm_qos_update_constraints_spec Sample.st_dma2 1)
                    Demo.attrs) Demo.cs_dma2).
    + lia.
    + by vm_compute.
Defined.

Lemma kstate_inv_reachable_witness : kstate_inv Sample.st_dma2.
Proof.
  apply (kstate_inv_reachable Sample.dv Sample.minor_of Sample.st_dma2).
  apply (steps_snoc _ Sample.st_dma1).
  - apply (steps_snoc _ Sample.boot); [apply steps_nil|].
    apply (step_add_request _ _ (Some 1%nat) 1%nat 100). by vm_compute.
  - apply (step_add_request _ _ (Some 2%nat) 1%nat 50). by vm_compute.
Defined.

Lemma find_pm_qos_object_by_minor_reachable_witness :
  (∀ c, (1 <= c < 17)%nat →
     find_pm_qos_object_by_minor (Sample.minor_of c) Sample.st_dma1
       = Ok (Z.of_nat c, Sample.st_dma1)) ∧
  (∀ mn, (∀ c, (1 <= c < 17)%nat → Sample.minor_of c ≠ mn) →
     find_pm_qos_object_by_minor mn Sample.st_dma1 = Ok (-1, Sample.st_dma1)).
Proof.
  apply (find_pm_qos_object_by_minor_reachable Sample.dv Sample.minor_of
           Sample.st_dma1).
  - apply (steps_snoc _ Sample.boot); [apply steps_nil|].
    apply (step_add_request _ _ (Some 1%nat) 1%nat 100). by vm_compute.
  - intros a b _ _ Heq. unfold Sample.minor_of in Heq. lia.
Defined.

Lemma pm_qos_request_for_cpumask_spec_witness :
  let vals := (λ cpu, target_per_cpu Demo.cs_dma2 !!! cpu) <$> for_each_cpu 3 in
  (per_cpu_type (c_type Demo.cs_dma2) →
   pm_qos_request_for_cpumask 1 3 Sample.st_dma2
     = Ok (aggregate_from (c_type Demo.cs_dma2) (default_value Demo.cs_dma2) vals,
           Sample.st_dma2)) ∧
  (c_type Demo.cs_dma2 = PM_QOS_MIN →
   is_minimum (aggregate_from (c_type Demo.cs_dma2) (default_value Demo.cs_dma2) vals)
     (default_value Demo.cs_dma2 :: vals)) ∧
  (c_type Demo.cs_dma2 = PM_QOS_MAX →
   is_maximum (aggregate_from (c_type Demo.cs_dma2) (default_value Demo.cs_dma2) vals)
     (default_value Demo.cs_dma2 :: vals)) ∧
  (c_type Demo.cs_dma2 = PM_QOS_FORCE_MAX →
   aggregate_from (c_type Demo.cs_dma2) (default_value Demo.cs_dma2) vals
     = List.last vals (default_value Demo.cs_dma2)) ∧
  (¬ per_cpu_type (c_type Demo.cs_dma2) →
   pm_qos_request_for_cpumask 1 3 Sample.st_dma2
     = if decide (for_each_cpu 3 = []) then Ok (default_value Demo.cs_dma2, Sample.st_dma2)
       else Fault BUG).
Proof.
  apply (pm_qos_request_for_cpumask_spec Sample.st_dma2 1%nat Demo.cs_dma2 3).
  - by vm_compute.
  - by vm_compute.
Defined.

Lemma pm_qos_update_request_timeout_expires_witness :
  work_pending (mem Demo.st_timed 1%nat) = true ∧
  node_prio (mem Demo.st_timed 1%nat) = 30 ∧
  pm_qos_class (mem Demo.st_expired 1%nat) = pm_qos_class (mem Sample.st_dma2 1%nat) ∧
  ∃ cs cs2,
    constraints_at Sample.st_dma2 (pm_qos_class (mem Sample.st_dma2 1%nat)) = Some cs ∧
    constraints_at Demo.st_expired (pm_qos_class (mem Sample.st_dma2 1%nat))
      = Some cs2 ∧
    node_prio (mem Demo.st_expired 1%nat) = default_value cs ∧
    1%nat ∈ c_list cs2 ∧
    pm_qos_get_value (mem Demo.st_expired) cs2 = Ok (target_value cs2).
Proof.
  apply (pm_qos_update_request_timeout_expires Sample.st_dma2 1%nat 30 500
           Demo.st_timed Demo.st_expired).
  - by vm_compute.
  - by vm_compute.
  - by vm_compute.
  - by vm_compute.
Defined.

Lemma pm_qos_power_write_read_witness :
  pm_qos_power_write Demo.filp2 4 None (0, 0) Sample.st_dma2
    = Ok (- EFAULT, Sample.st_dma2) ∧
  pm_qos_power_read Demo.filp0 Sample.st_dma2 = Ok (inl (- EINVAL), Sample.st_dma2) ∧
  4 = 4 ∧
  ∃ cs cs1,
    constraints_at Sample.st_dma2 (pm_qos_class (mem Sample.st_dma2 2%nat)) = Some cs ∧
    constraints_at Demo.st_written (pm_qos_class (mem Sample.st_dma2 2%nat))
      = Some cs1 ∧
    node_prio (mem Demo.st_written 2%nat) = new_value_of cs 40 ∧
    pm_qos_power_read Demo.filp2 Demo.st_written
      = Ok (inr (target_value cs1), Demo.st_written) ∧
    pm_qos_request (pm_qos_class (mem Sample.st_dma2 2%nat)) Demo.st_written
      = Ok (target_value cs1, Demo.st_written).
Proof.
  split; [|split].
  - apply (proj1 (pm_qos_power_write_read Sample.st_dma2 Demo.filp2)).
  - apply (proj1 (proj2 (proj2 (pm_qos_power_write_read Sample.st_dma2 Demo.filp0)))).
    by vm_compute.
  - apply (proj2 (proj2 (proj2 (proj2
             (pm_qos_power_write_read Sample.st_dma2 Demo.filp2))))
             2%nat 4 (Some 40) (0, 0) 40 4 Demo.st_written).
    + by vm_compute.
    + by vm_compute.
    + left. by vm_compute.
    + by vm_compute.
    + by vm_compute.
Defined.

Lemma pm_qos_dbg_show_requests_spec_witness :
  pm_qos_dbg_show_requests (Some 2%nat) Sample.st_dma2
    = Ok ((0, [SeqPuts dbg_empty_text]), Sample.st_dma2) ∧
  pm_qos_dbg_show_requests (Some 1%nat) Sample.st_dma2
    = Ok ((0, imap (dbg_request_line (mem Sample.st_dma2) Demo.cs_dma2)
                (c_list Demo.cs_dma2) ++
              [SeqSummaryLine (dbg_type_name (c_type Demo.cs_dma2)) 50
                 (Z.of_nat (dbg_active_reqs (mem Sample.st_dma2) Demo.cs_dma2
                              (c_list Demo.cs_dma2)))
                 (Z.of_nat (length (c_list Demo.cs_dma2)))]), Sample.st_dma2).
Proof.
  split.
  - apply (proj1 (proj2 (proj2 (pm_qos_dbg_show_requests_spec Sample.st_dma2)))
             2%nat (Sample.cs_at Sample.st_dma2 2)).
    + by vm_compute.
    + by vm_compute.
  - apply (proj2 (proj2 (proj2 (pm_qos_dbg_show_requests_spec Sample.st_dma2)))
             1%nat Demo.cs_dma2 50).
    + by vm_compute.
    + by vm_compute.
    + by vm_compute.
    + by vm_compute.
Defined.

Lemma pm_qos_request_for_cpu_bounds_witness :
  ∃ cs' target,
    constraints_at Sample.st_dma3 1 = Some cs' ∧
    pm_qos_request 1 Sample.st_dma3 = Ok (target, Sample.st_dma3) ∧
    ∀ cpu, cpu ∈ for_each_possible_cpu →
      ∃ v, pm_qos_request_for_cpu 1 cpu Sample.st_dma3 = Ok (v, Sample.st_dma3) ∧
        match c_type cs' with
        | PM_QOS_MIN => Z.min target (default_value cs') <= v <= default_value cs'
        | PM_QOS_MAX => default_value cs' <= v <= Z.max target (default_value cs')
        | PM_QOS_FORCE_MAX => v <= Z.max target (default_value cs')
        | _ => True
        end.
Proof.
  apply (pm_qos_request_for_cpu_bounds Sample.st_dma2 1%nat 1%nat
           PM_QOS_UPDATE_REQ 20 None 1 Sample.st_dma3).
  - apply sample_dma2_inv.
  - intros _. by vm_compute.
  - intros Hadd. discriminate Hadd.
  - by vm_compute.
Defined.

Lemma pm_qos_update_request_idempotent_witness :
  pm_qos_update_request (Some 1%nat) 30 Demo.st_updated = Ok (tt, Demo.st_updated).
Proof.
  apply (pm_qos_update_request_idempotent Sample.st_dma2 1%nat 30 Demo.st_updated).
  - by vm_compute.
  - by vm_compute.
Defined.

Lemma pm_qos_power_open_release_round_trip_witness :
  0 = 0 ∧ 0 = 0 ∧ private_data Demo.filp9 = Some 9%nat ∧
  allocated Demo.st_open = {[9%nat]} ∪ allocated Sample.st_dma2 ∧
  allocated Demo.st_closed = allocated Sample.st_dma2 ∧
  (∀ c1, lists_of Demo.st_closed c1 = lists_of Sample.st_dma2 c1) ∧
  (∀ q, q ≠ 9%nat → mem Demo.st_closed q = mem Sample.st_dma2 q) ∧
  mem Demo.st_closed 9%nat = zero_request.
Proof.
  apply (pm_qos_power_open_release_round_trip Sample.st_dma2 51 1%nat 9%nat
           Demo.filp0 0 Demo.filp9 Demo.st_open 0 Demo.st_closed).
  - apply sample_dma2_inv.
  - intros c1 cs. by apply sample_dma2_fresh.
  - by vm_compute.
  - lia.
  - by vm_compute.
  - by vm_compute.
  - by vm_compute.
Defined.

Lemma pm_qos_request_for_cpu_honours_request_witness :
  ∃ cs,
    constraints_at Sample.st_dma2 1 = Some cs ∧
    node_prio (mem Sample.st_dma3 1%nat) = new_value_of cs 20 ∧
    ∀ cpu, cpu ∈ for_each_possible_cpu →
      cpumask_test_cpu cpu (cpus_affine (mem Sample.st_dma2 1%nat)) = true →
      ∃ v, pm_qos_request_for_cpu 1 cpu Sample.st_dma3 = Ok (v, Sample.st_dma3) ∧
        match c_type cs with
        | PM_QOS_MIN => v <= new_value_of cs 20
        | PM_QOS_MAX | PM_QOS_FORCE_MAX => new_value_of cs 20 <= v
        | _ => True
        end.
Proof.
  apply (pm_qos_request_for_cpu_honours_request Sample.st_dma2 1%nat 1%nat
           PM_QOS_UPDATE_REQ 20 None 1 Sample.st_dma3).
  - apply sample_dma2_inv.
  - intros Hrem. discriminate Hrem.
  - by vm_compute.
  - intros Hadd. discriminate Hadd.
  - by vm_compute.
Defined.

End SampleRuns.
